(** * image-gen-mcp: generation ledger, preview workflow and storage helpers

    A shallow embedding of the TypeScript sources of image-gen-mcp:
    [sanitizeForHeader] and [generateStoragePath] (storage/base.ts), the
    [GenerationStore] (db/generations.ts), [generateImages]
    (tools/generate.ts), [selectImage] (tools/select.ts),
    [cleanupPreviews] (tools/cleanup.ts), [listGenerations] (tools/list.ts),
    [getCosts] (tools/costs.ts) and the Gemini provider
    (providers/gemini.ts), together with the properties of the
    specification that were checked against them and further properties
    read off the code.

    Conventions of the embedding:
    - a JavaScript string is the list of its UTF-16 code units ([jsstring]);
    - a JavaScript number that is used as an integer (an index, a length, a
      millisecond clock) is a [Z]; money is an IEEE binary64 [float] where the
      code computes with it, and an abstract [num] inside the ledger;
    - SQL's [SUM] is the engine's: the ledger and the workflows are
      parametric in it ([SqlSum]), and the sample runs use the plain
      running sum;
    - code that can throw returns an [outcome]; code that mutates the file
      system or the ledger takes the state and returns the new one; the
      ledger's write of its database file after a mutation is taken to
      succeed, and what the Blob Store keeps is not part of the state;
    - what the Node runtime supplies ([fs], [path], the clock, the storage
      back end) is an interface the workflows are parametric in. *)

From Stdlib Require Import ZArith NArith List Bool Lia Floats Uint63.
From Stdlib Require Import Strings.String Strings.Ascii Numbers.DecimalString.
From stdpp Require Import base list gmap fin_maps sorting.

Local Open Scope Z_scope.
Set Warnings "-inexact-float".

(* ------------------------------------------------------------------ *)
(** ** JavaScript strings *)

Module JS.

(** UTF-16 code units. *)
Definition jsstring := list N.

(** A literal: the code units of an ASCII string. *)
Fixpoint js (s : string) : jsstring :=
  match s with
  | EmptyString => []
  | String a r => N_of_ascii a :: js r
  end.

Arguments js : simpl never.

(** [String.prototype.startsWith]. *)
Fixpoint startsWith (s p : jsstring) : bool :=
  match p, s with
  | [], _ => true
  | _ :: _, [] => false
  | a :: p', b :: s' => N.eqb a b && startsWith s' p'
  end.

(** The rest of [s] after the prefix [p], when [s] starts with it. *)
Definition strip_prefix (p s : jsstring) : option jsstring :=
  if startsWith s p then Some (drop (length p) s) else None.

(** [String.prototype.includes]: some suffix starts with the pattern. *)
Fixpoint includes (s p : jsstring) : bool :=
  startsWith s p ||
  match s with
  | [] => false
  | _ :: s' => includes s' p
  end.

(** [String.prototype.slice(0, n)] for an integral [n]: a non-negative
    end keeps the first [n] units, a negative one counts from the end. *)
Definition slice0 (s : jsstring) (n : Z) : jsstring :=
  if 0 <=? n then take (Z.to_nat n) s
  else take (Z.to_nat (Z.max (Z.of_nat (length s) + n) 0)) s.

(** The regular expression class [\s], which is also the set [trim]
    removes (white space and line terminators). *)
Definition is_ws (c : N) : bool :=
  ((9 <=? c) && (c <=? 13) || (c =? 32) || (c =? 160) || (c =? 5760)
   || (8192 <=? c) && (c <=? 8202) || (c =? 8232) || (c =? 8233)
   || (c =? 8239) || (c =? 8287) || (c =? 12288) || (c =? 65279))%N.

Fixpoint trimStart (s : jsstring) : jsstring :=
  match s with
  | [] => []
  | c :: r => if is_ws c then trimStart r else s
  end.

(** Drop the longest suffix whose units all satisfy [p]. *)
Fixpoint dropEndWhile (p : N -> bool) (s : jsstring) : jsstring :=
  match s with
  | [] => []
  | c :: r =>
      match dropEndWhile p r with
      | [] => if p c then [] else [c]
      | r' => c :: r'
      end
  end.

Definition trimEnd (s : jsstring) : jsstring := dropEndWhile is_ws s.

(** [String.prototype.trim]. *)
Definition trim (s : jsstring) : jsstring := trimEnd (trimStart s).

(** [s.replace(/[class]/g, r)] for a one-character class and a
    replacement text without [$]. *)
Definition replaceClass (p : N -> bool) (r : jsstring) (s : jsstring) : jsstring :=
  flat_map (fun c => if p c then r else [c]) s.

(** [s.replace(/[class]+/g, r)] for a one-character [r]: every maximal
    run of units of the class becomes one [r]. *)
Fixpoint collapseRuns (p : N -> bool) (r : N) (s : jsstring) : jsstring :=
  match s with
  | [] => []
  | c :: t =>
      if p c then
        match t with
        | d :: _ => if p d then collapseRuns p r t else r :: collapseRuns p r t
        | [] => [r]
        end
      else c :: collapseRuns p r t
  end.

(** [s.replace(/\s+/g, ' ')]. *)
Definition collapseWs (s : jsstring) : jsstring := collapseRuns is_ws 32%N s.

End JS.
Import JS.

(* ------------------------------------------------------------------ *)
(** ** storage/base.ts: the header sanitizer *)

Module Sanitizer.

Definition one_of (l : list N) (c : N) : bool := existsb (N.eqb c) l.

(** The class [\x20-\x7E]. *)
Definition printable (c : N) : bool := ((32 <=? c) && (c <=? 126))%N.

(** [sanitizeForHeader(text, maxLength)], one line per [replace]. *)
Definition sanitizeForHeader (text : jsstring) (maxLength : Z) : jsstring :=
  let s := replaceClass (one_of [9; 10; 13]%N) (js " ") text in
  let s := replaceClass (one_of [8216; 8217]%N) (js "'") s in
  let s := replaceClass (one_of [8220; 8221]%N) [34%N] s in
  let s := replaceClass (one_of [8212]%N) (js "--") s in
  let s := replaceClass (one_of [8211]%N) (js "-") s in
  let s := replaceClass (one_of [8230]%N) (js "...") s in
  let s := replaceClass (one_of [160]%N) (js " ") s in
  let s := replaceClass (one_of [8226; 8227; 9702]%N) (js "*") s in
  let s := replaceClass (one_of [183]%N) (js "-") s in
  let s := List.filter printable s in
  let s := collapseWs s in
  let s := trim s in
  slice0 s maxLength.

(** The default of the [maxLength] parameter. *)
Definition default_maxLength : Z := 500.

(** No two white-space units side by side. *)
Fixpoint no_ws_run (s : jsstring) : Prop :=
  match s with
  | [] => True
  | c :: r =>
      match r with
      | [] => True
      | d :: _ => (is_ws c && is_ws d = false) /\ no_ws_run r
      end
  end.

(** What a sanitized text looks like before its end is looked at:
    printable ASCII, white space one unit at a time, none in front. *)
Definition tidy (s : jsstring) : Prop :=
  Forall (fun c => printable c = true) s /\ no_ws_run s /\
  (forall c t, s = c :: t -> is_ws c = false).

End Sanitizer.

(* ------------------------------------------------------------------ *)
(** ** storage/base.ts: the path templater *)

Module Templater.

(** First occurrence of [p] in [s]: the text before it and the text
    after it ([String.prototype.indexOf] read as a split). *)
Fixpoint splitFirst (s p : jsstring) : option (jsstring * jsstring) :=
  if startsWith s p then Some ([], drop (length p) s)
  else match s with
       | [] => None
       | c :: r =>
           match splitFirst r p with
           | Some (a, b) => Some (c :: a, b)
           | None => None
           end
       end.

(** ECMAScript's GetSubstitution for a string pattern (no captures):
    in the replacement text [$$] is a dollar sign, [$&] the matched text,
    [$`] the text before the match, [$'] the text after it; any other
    [$] stands for itself. *)
Fixpoint getSubstitution (matched pre post repl : jsstring) : jsstring :=
  match repl with
  | [] => []
  | c :: r =>
      if (c =? 36)%N then
        match r with
        | d :: r' =>
            if (d =? 36)%N then 36%N :: getSubstitution matched pre post r'
            else if (d =? 38)%N then matched ++ getSubstitution matched pre post r'
            else if (d =? 96)%N then pre ++ getSubstitution matched pre post r'
            else if (d =? 39)%N then post ++ getSubstitution matched pre post r'
            else 36%N :: getSubstitution matched pre post r
        | [] => [36%N]
        end
      else c :: getSubstitution matched pre post r
  end.

(** [s.replace(p, r)] with a string pattern: the first occurrence only. *)
Definition replace (s p r : jsstring) : jsstring :=
  match splitFirst s p with
  | None => s
  | Some (pre, post) => pre ++ getSubstitution p pre post r ++ post
  end.

(** [Number.prototype.toString] of an integer (of magnitude below 10^21,
    where JavaScript prints all the digits). *)
Definition intToString (z : Z) : jsstring :=
  js (NilZero.string_of_int (Z.to_int z)).

(** [s.padStart(2, '0')]. *)
Definition padStart2 (s : jsstring) : jsstring :=
  replicate (2 - length s)%nat 48%N ++ s.

(** What [new Date()] shows through [getFullYear], [getMonth] (from 0)
    and [getDate]. *)
Record LocalDate := { getFullYear : Z; getMonth : Z; getDate : Z }.

Definition generateStoragePath (now : LocalDate) (template filename : jsstring) : jsstring :=
  let s := replace template (js "{year}") (intToString (getFullYear now)) in
  let s := replace s (js "{month}") (padStart2 (intToString (getMonth now + 1))) in
  let s := replace s (js "{day}") (padStart2 (intToString (getDate now))) in
  replace s (js "{filename}") filename.

(** The expansion the specification describes: every occurrence of a
    token gives way to its value, in one pass from left to right, and the
    values are put in as they are.  ([skip] counts the units of a token
    still to pass over.) *)
Fixpoint expand_all (values : list (jsstring * jsstring)) (skip : nat) (s : jsstring)
    : jsstring :=
  match s with
  | [] => []
  | c :: r =>
      match skip with
      | S k => expand_all values k r
      | O =>
          match List.find (fun tv => startsWith s tv.1) values with
          | Some (t, v) => v ++ expand_all values (length t - 1) r
          | None => c :: expand_all values 0 r
          end
      end
  end.

(** A template taken apart: literal text and tokens. *)
Inductive token := TYear | TMonth | TDay | TFilename.

Inductive piece :=
| Text (t : jsstring)
| Tok (k : token).

Definition token_text (k : token) : jsstring :=
  match k with
  | TYear => js "{year}"
  | TMonth => js "{month}"
  | TDay => js "{day}"
  | TFilename => js "{filename}"
  end.

Definition token_value (now : LocalDate) (filename : jsstring) (k : token) : jsstring :=
  match k with
  | TYear => intToString (getFullYear now)
  | TMonth => padStart2 (intToString (getMonth now + 1))
  | TDay => padStart2 (intToString (getDate now))
  | TFilename => filename
  end.

(** The text of a list of pieces in which the tokens of [done] have
    given way to their values. *)
Definition render (now : LocalDate) (filename : jsstring) (done : token -> bool)
    (pieces : list piece) : jsstring :=
  concat (map (fun p => match p with
                        | Text t => t
                        | Tok k => if done k then token_value now filename k
                                   else token_text k
                        end) pieces).

#[export] Instance token_eq_dec : EqDecision token.
Proof. solve_decision. Defined.

(** The tokens among the pieces, in order. *)
Definition tokens_of (pieces : list piece) : list token :=
  omap (fun p => match p with Tok k => Some k | Text _ => None end) pieces.

(** The unit that follows the opening brace of a token; the four differ. *)
Definition token_mark (k : token) : N :=
  match k with
  | TYear => 121
  | TMonth => 109
  | TDay => 100
  | TFilename => 102
  end%N.

(** No opening brace in [s] is followed by [c2] or ends [s]: no token
    marked [c2] starts in [s], whatever comes after [s]. *)
Fixpoint quiet (c2 : N) (s : jsstring) : bool :=
  match s with
  | [] => true
  | a :: r =>
      (if (a =? 123)%N
       then match r with
            | b :: _ => negb (b =? c2)%N
            | [] => false
            end
       else true)
      && quiet c2 r
  end.

Definition expand_spec (now : LocalDate) (template filename : jsstring) : jsstring :=
  expand_all
    [(js "{year}", intToString (getFullYear now));
     (js "{month}", padStart2 (intToString (getMonth now + 1)));
     (js "{day}", padStart2 (intToString (getDate now)));
     (js "{filename}", filename)]
    0 template.

End Templater.

(* ------------------------------------------------------------------ *)
(** ** Exceptions *)

(** A call returns or throws. *)
Inductive result (E A : Type) :=
| Ok (a : A)
| Throw (e : E).
Arguments Ok {E A} a.
Arguments Throw {E A} e.

(** What a tool can throw.  The three workflow errors carry what their
    message interpolates; [TypeError] is the runtime's own (a property
    read on [undefined]); the others wrap what a collaborator threw: the
    file system in a call the tool makes itself ([FsError]), the Blob
    Store, the Image Provider, and the ledger ([PersistenceError]: the
    SQL engine, or the write of the database file). *)
Inductive error :=
| NotFound (generation_id : jsstring)
| InvalidIndex (index : Z)
| PreviewMissing (path : jsstring)
| TypeError
| FsError (code : jsstring)
| StorageError (message : jsstring)
| ProviderError (message : jsstring)
| PersistenceError (message : jsstring).

Definition outcome := result error.

(** A collaborator's exception, seen from the tool that lets it pass. *)
Definition lift {A} (wrap : jsstring -> error) (r : result jsstring A) : outcome A :=
  match r with
  | Ok a => Ok a
  | Throw m => Throw (wrap m)
  end.

(* ------------------------------------------------------------------ *)
(** ** db/generations.ts: the generation ledger *)

(** The arithmetic of the type of the [cost] column: the zero of
    [COALESCE(SUM(cost), 0)] and the addition of the type. *)
Class NumOps (num : Type) := { nzero : num; nadd : num -> num -> num }.

#[export] Instance float_ops : NumOps float :=
  {| nzero := 0%float; nadd := PrimFloat.add |}.

#[export] Instance Z_ops : NumOps Z := {| nzero := 0; nadd := Z.add |}.

(** SQL's [SUM] over the [cost] values of at least one row, handed over
    in insertion order.  The engine (sql.js, SQLite compiled to
    WebAssembly) is not part of the repository, and the query fixes
    neither the order in which the values are added nor how the sum is
    rounded: both are the engine's. *)
Class SqlSum (num : Type) := { nsum : list num -> num }.

#[export] Instance integer_sum : SqlSum Z := {| nsum l := fold_left Z.add l 0 |}.

(** The two ways SQLite has computed [SUM] over [REAL]: the plain
    running sum, and the compensated sum of Kahan, Babuska and Neumaier,
    which carries the rounding errors along and adds them at the end. *)
#[export] Instance plain_sum : SqlSum float :=
  {| nsum l := fold_left PrimFloat.add l 0%float |}.

Definition kbn_step (st : float * float) (r : float) : float * float :=
  let '(s, err) := st in
  let t := (s + r)%float in
  if PrimFloat.ltb (PrimFloat.abs r) (PrimFloat.abs s)
  then (t, (err + ((s - t) + r))%float)
  else (t, (err + ((r - t) + s))%float).

Definition compensated_sum : SqlSum float :=
  {| nsum l := let '(s, err) := fold_left kbn_step l (0%float, 0%float) in (s + err)%float |}.

Module Ledger.

Record GenerationImage := {
  generation_id : jsstring;
  index_num : Z;
  preview_url : jsstring;
  width : option Z;
  height : option Z;
  seed : option Z;
}.

Record Generation {num : Type} := {
  id : jsstring;
  prompt : jsstring;
  negative_prompt : option jsstring;
  context : option jsstring;
  model : jsstring;
  provider : jsstring;
  count : Z;
  aspect_ratio : jsstring;
  cost : num;
  created_at : jsstring;
  selected_index : option Z;
  selected_at : option jsstring;
  storage_key : option jsstring;
  public_url : option jsstring;
  images : option (list GenerationImage);
}.
Arguments Generation num : clear implicits.

Record CostSummary {num : Type} := {
  total : num;
  by_provider : gmap jsstring num;
  by_model : gmap jsstring num;
  generation_count : Z;
}.
Arguments CostSummary num : clear implicits.

(** The two tables of db/schema.ts, rows in insertion order.  A row of
    [generations] is a [Generation] without [images]. *)
Record Db {num : Type} := {
  generations_table : list (Generation num);
  images_table : list GenerationImage;
}.
Arguments Db num : clear implicits.

(** What [createGeneration] receives: [Omit<Generation, 'id' | 'created_at'>]
    with the images. *)
Record NewGeneration {num : Type} := {
  new_prompt : jsstring;
  new_negative_prompt : option jsstring;
  new_context : option jsstring;
  new_model : jsstring;
  new_provider : jsstring;
  new_count : Z;
  new_aspect_ratio : jsstring;
  new_cost : num;
  new_images : list GenerationImage;
}.
Arguments NewGeneration num : clear implicits.

(** Lexicographic [<=] on code units: SQL's comparison of the two
    texts in [created_at >= ?], both ASCII as [toISOString] prints them. *)
Fixpoint str_leb (a b : jsstring) : bool :=
  match a, b with
  | [], _ => true
  | _ :: _, [] => false
  | x :: a', y :: b' => (x <? y)%N || ((x =? y)%N && str_leb a' b')
  end.

Definition str_eqb (a b : jsstring) : bool := bool_decide (a = b).

(** [ORDER BY index_num]: a stable insertion sort (rows with the same
    [index_num] stay in insertion order). *)
Fixpoint insert_by_index (x : GenerationImage) (l : list GenerationImage) : list GenerationImage :=
  match l with
  | [] => [x]
  | y :: l' => if index_num x <=? index_num y then x :: l else y :: insert_by_index x l'
  end.

Definition order_by_index (l : list GenerationImage) : list GenerationImage :=
  foldr insert_by_index [] l.

(** [x || null] on an optional text: the empty text is falsy. *)
Definition or_null (o : option jsstring) : option jsstring :=
  match o with
  | Some [] => None
  | _ => o
  end.

Section Store.
Context {num : Type} `{NumOps num} `{SqlSum num}.

Definition empty_db : Db num := {| generations_table := []; images_table := [] |}.

(** [createGeneration(data)], with the [randomUUID()] and the
    [new Date().toISOString()] it draws.  The primary key makes the first
    [INSERT] throw on an id already stored.  The write of the database
    file that ends the call ([save]) is taken to succeed: a disk that
    refuses it is outside this model. *)
Definition createGeneration (db : Db num) (data : NewGeneration num)
    (uuid now_iso : jsstring) : outcome (Generation num) * Db num :=
  if existsb (fun g => str_eqb (id g) uuid) (generations_table db) then
    (Throw (PersistenceError (js "UNIQUE constraint failed: generations.id")), db)
  else
    let row := {|
      id := uuid; prompt := new_prompt data;
      negative_prompt := or_null (new_negative_prompt data);
      context := or_null (new_context data);
      model := new_model data; provider := new_provider data;
      count := new_count data; aspect_ratio := new_aspect_ratio data;
      cost := new_cost data; created_at := now_iso;
      selected_index := None; selected_at := None;
      storage_key := None; public_url := None; images := None |} in
    let img_rows := map (fun img => {|
      generation_id := uuid; index_num := index_num img;
      preview_url := preview_url img; width := width img;
      height := height img; seed := seed img |}) (new_images data) in
    (Ok {|
       id := uuid; prompt := new_prompt data;
       negative_prompt := new_negative_prompt data;
       context := new_context data;
       model := new_model data; provider := new_provider data;
       count := new_count data; aspect_ratio := new_aspect_ratio data;
       cost := new_cost data; created_at := now_iso;
       selected_index := None; selected_at := None;
       storage_key := None; public_url := None;
       images := Some (new_images data) |},
     {| generations_table := generations_table db ++ [row];
        images_table := images_table db ++ img_rows |}).

Definition with_images (g : Generation num) (imgs : option (list GenerationImage)) : Generation num :=
  {| id := id g; prompt := prompt g; negative_prompt := negative_prompt g;
     context := context g; model := model g; provider := provider g;
     count := count g; aspect_ratio := aspect_ratio g; cost := cost g;
     created_at := created_at g; selected_index := selected_index g;
     selected_at := selected_at g; storage_key := storage_key g;
     public_url := public_url g; images := imgs |}.

(** [SELECT * FROM images WHERE generation_id = ? ORDER BY index_num],
    as [db.exec] returns it: no result set when no row matches. *)
Definition select_images (db : Db num) (gid : jsstring) : option (list GenerationImage) :=
  match List.filter (fun i => str_eqb (generation_id i) gid) (images_table db) with
  | [] => None
  | rows => Some (order_by_index rows)
  end.

(** [getGeneration(id)]: [None] is JavaScript's [null]. *)
Definition getGeneration (db : Db num) (gid : jsstring) : option (Generation num) :=
  match List.filter (fun g => str_eqb (id g) gid) (generations_table db) with
  | [] => None
  | g :: _ =>
      match select_images db gid with
      | Some imgs => Some (with_images g (Some imgs))
      | None => Some g
      end
  end.

Definition set_selected (g : Generation num) (index : Z) (now_iso storageKey publicUrl : jsstring)
    : Generation num :=
  {| id := id g; prompt := prompt g; negative_prompt := negative_prompt g;
     context := context g; model := model g; provider := provider g;
     count := count g; aspect_ratio := aspect_ratio g; cost := cost g;
     created_at := created_at g; selected_index := Some index;
     selected_at := Some now_iso; storage_key := Some storageKey;
     public_url := Some publicUrl; images := images g |}.

(** [markSelected(id, index, storageKey, publicUrl)]: the [UPDATE]
    rewrites the rows whose id matches, and nothing is checked.  As in
    [createGeneration], [save] is taken to succeed. *)
Definition markSelected (db : Db num) (gid : jsstring) (index : Z)
    (storageKey publicUrl now_iso : jsstring) : outcome unit * Db num :=
  (Ok tt,
   {| generations_table :=
        map (fun g => if str_eqb (id g) gid
                      then set_selected g index now_iso storageKey publicUrl
                      else g) (generations_table db);
      images_table := images_table db |}).

(** The rows [FROM generations WHERE created_at >= ?] ranges over
    (all of them without a bound). *)
Definition where_since (since : option jsstring) (db : Db num) : list (Generation num) :=
  match since with
  | None => generations_table db
  | Some s => List.filter (fun g => str_leb s (created_at g)) (generations_table db)
  end.

(** SQL's [SUM]: [NULL] over no row, else what the engine adds up. *)
Definition sql_sum (l : list num) : option num :=
  match l with
  | [] => None
  | _ => Some (nsum l)
  end.

Definition coalesce (o : option num) (d : num) : num := default d o.

(** [SELECT COALESCE(SUM(cost), 0), COUNT( * ) FROM generations ...]:
    an aggregate without [GROUP BY] returns one row. *)
Definition exec_total (since : option jsstring) (db : Db num) : list (list (num * Z)) :=
  let rows := where_since since db in
  [[(coalesce (sql_sum (map cost rows)) nzero, Z.of_nat (length rows))]].

(** The distinct values of a column, in order of first appearance. *)
Fixpoint distinct (l : list jsstring) : list jsstring :=
  match l with
  | [] => []
  | k :: l' => k :: List.filter (fun k' => negb (str_eqb k' k)) (distinct l')
  end.

(** [SELECT key, SUM(cost) FROM generations ... GROUP BY key]: one row
    per distinct key, with the engine's sum over the rows of that key,
    and no result set at all over no row. *)
Definition exec_group (key : Generation num -> jsstring) (since : option jsstring)
    (db : Db num) : list (list (jsstring * num)) :=
  let rows := where_since since db in
  match distinct (map key rows) with
  | [] => []
  | ks =>
      [map (fun k =>
              (k, nsum (map cost (List.filter (fun g => str_eqb (key g) k) rows))))
           ks]
  end.

(** The loop [for (const row of result[0].values) obj[row[0]] = row[1]]. *)
Definition collect (res : list (list (jsstring * num))) : gmap jsstring num :=
  match res with
  | [] => ∅
  | rows :: _ => fold_left (fun m row => <[row.1 := row.2]> m) rows ∅
  end.

(** [getCosts(since)], [since] already printed by [toISOString]. *)
Definition getCosts (db : Db num) (since : option jsstring) : CostSummary num :=
  let totalResult := exec_total since db in
  let tc := match totalResult with
            | (r :: _) :: _ => r
            | _ => (nzero, 0)
            end in
  let providerResult := exec_group provider since db in
  let modelResult := exec_group model since db in
  {| total := tc.1;
     generation_count := tc.2;
     by_provider := collect providerResult;
     by_model := collect modelResult |}.

End Store.

(** The sum of a list of costs, and of the values of a grouping. *)
Definition sum_list {num} `{NumOps num} (l : list num) : num := foldr nadd nzero l.

Definition sum_values {num} `{NumOps num} (m : gmap jsstring num) : num :=
  map_fold (fun _ v acc => nadd v acc) nzero m.

(** A [since] bound that no stored generation reaches. *)
Definition matches_none {num} (since : option jsstring) (db : Db num) : Prop :=
  forall g, g ∈ generations_table db ->
    exists s, since = Some s /\ str_leb s (created_at g) = false.

End Ledger.

(* ------------------------------------------------------------------ *)
(** ** What the Node runtime and the collaborators supply *)

Definition Buffer := list Byte.byte.

(** [fs.Stats], as far as the sweeper reads it. *)
Record Stats := { isDirectory : bool; mtimeMs : Z }.

(** The synchronous [fs] calls the workflows make, over a file-system
    state.  A call that throws (with an error code) leaves the state as
    it was. *)
Class FsApi (FS : Type) := {
  existsSync : FS -> jsstring -> bool;
  readFileSync : FS -> jsstring -> result jsstring Buffer;
  writeFileSync : FS -> jsstring -> Buffer -> result jsstring FS;
  mkdirSync : FS -> jsstring -> result jsstring FS;
  unlinkSync : FS -> jsstring -> result jsstring FS;
  rmdirSync : FS -> jsstring -> result jsstring FS;
  readdirSync : FS -> jsstring -> result jsstring (list jsstring);
  statSync : FS -> jsstring -> result jsstring Stats;
}.

(** Pure library functions: [path.join], [path.dirname],
    [Buffer.from(_, 'base64')], [String.prototype.toLowerCase],
    [Number.prototype.toString], [Date.prototype.toISOString] of a
    millisecond instant, and the local-calendar step of
    [d.setDate(d.getDate() - n)]. *)
Class Runtime := {
  join : jsstring -> jsstring -> jsstring;
  dirname : jsstring -> jsstring;
  base64Decode : jsstring -> Buffer;
  toLowerCase : jsstring -> jsstring;
  numberToString : float -> jsstring;
  toISOString : Z -> jsstring;
  daysBefore : Z -> Z -> Z;
}.

(** The Blob Store, as far as a selection uses it: an upload answers
    or throws, and is taken to leave the preview files alone (what a
    store that failed half-way has written is outside this model). *)
Record UploadOptions := {
  buffer : Buffer;
  filename : jsstring;
  contentType : jsstring;
  metadata : list (jsstring * jsstring);
}.

Record UploadResult := { key : jsstring; publicUrl : jsstring; size : Z }.

Definition StorageProvider := UploadOptions -> result jsstring UploadResult.

(* ------------------------------------------------------------------ *)
(** ** tools/select.ts: the selection workflow *)

Module Select.
Import Sanitizer Templater Ledger.

Record SelectArgs := {
  arg_generation_id : jsstring;
  arg_index : Z;
  arg_filename : option jsstring;
  arg_cleanup_others : option bool;
}.

(** The [cleanup] object of the response. *)
Record Cleanup := { deleted_previews : Z; retained_previews : list jsstring }.

Record SelectResponse := {
  permanent_url : jsstring;
  r_storage_key : jsstring;
  size_bytes : Z;
  markdown : jsstring;
  cleanup : Cleanup;
}.

(** One pass through the [try] block of the cleanup loop: the path, what
    [existsSync] answered, and whether [unlinkSync] was called and
    returned.  The program keeps no such record; it is what a spy on
    [fs] would see. *)
Record DeleteAttempt := { at_path : jsstring; at_existed : bool; at_unlinked : bool }.

Definition isLocalPath (path : jsstring) : bool :=
  negb (startsWith path (js "http://")) && negb (startsWith path (js "https://"))
  && negb (startsWith path (js "data:")).

(** [arr[i]] for an integral [i]: [undefined] out of range. *)
Definition array_get {A} (arr : list A) (i : Z) : option A :=
  if i <? 0 then None else arr !! Z.to_nat i.

Definition is_lower_alnum (c : N) : bool :=
  ((97 <=? c) && (c <=? 122) || (48 <=? c) && (c <=? 57))%N.

(** The images a cleanup pass tries to delete, and those it retains. *)
Definition targeted (cleanupOthers : bool) (index : Z) (img : GenerationImage) : bool :=
  isLocalPath (preview_url img) && (cleanupOthers || (index_num img =? index)).

Definition spared (cleanupOthers : bool) (index : Z) (img : GenerationImage) : bool :=
  isLocalPath (preview_url img) && negb (cleanupOthers || (index_num img =? index)).

(** An attempt that ended in a deletion. *)
Definition deleted (a : DeleteAttempt) : bool := at_existed a && at_unlinked a.

Section Workflow.
Context {num : Type} `{NumOps num} {FS : Type} `{FsApi FS} `{Runtime}.

Definition readLocalImage (fs : FS) (filePath : jsstring) : outcome Buffer :=
  if negb (existsSync fs filePath) then Throw (PreviewMissing filePath)
  else lift FsError (readFileSync fs filePath).

(** The slug of the default file name. *)
Definition slug (prompt : jsstring) : jsstring :=
  dropEndWhile (N.eqb 45)
    (slice0 (collapseRuns (fun c => negb (is_lower_alnum c)) 45%N (toLowerCase prompt)) 50).

(** The state of the cleanup loop. *)
Record CleanupState := {
  cs_fs : FS;
  deletedPreviews : list jsstring;
  retainedPreviews : list jsstring;
  previewDir : option jsstring;
  attempts : list DeleteAttempt;
}.

(** The body of [for (const img of generation.images)]. *)
Definition cleanup_step (cleanupOthers : bool) (index : Z)
    (st : CleanupState) (img : GenerationImage) : CleanupState :=
  let p := preview_url img in
  if negb (isLocalPath p) then st
  else
    let dir := match or_null (previewDir st) with
               | None => Some (dirname p)
               | Some d => Some d
               end in
    if cleanupOthers || (index_num img =? index) then
      if existsSync (cs_fs st) p then
        match unlinkSync (cs_fs st) p with
        | Ok fs' =>
            {| cs_fs := fs'; deletedPreviews := deletedPreviews st ++ [p];
               retainedPreviews := retainedPreviews st; previewDir := dir;
               attempts := attempts st ++ [{| at_path := p; at_existed := true; at_unlinked := true |}] |}
        | Throw _ =>
            {| cs_fs := cs_fs st; deletedPreviews := deletedPreviews st;
               retainedPreviews := retainedPreviews st; previewDir := dir;
               attempts := attempts st ++ [{| at_path := p; at_existed := true; at_unlinked := false |}] |}
        end
      else
        {| cs_fs := cs_fs st; deletedPreviews := deletedPreviews st;
           retainedPreviews := retainedPreviews st; previewDir := dir;
           attempts := attempts st ++ [{| at_path := p; at_existed := false; at_unlinked := false |}] |}
    else
      {| cs_fs := cs_fs st; deletedPreviews := deletedPreviews st;
         retainedPreviews := retainedPreviews st ++ [p]; previewDir := dir;
         attempts := attempts st |}.

Definition cleanup_loop (cleanupOthers : bool) (index : Z) (fs : FS)
    (imgs : list GenerationImage) : CleanupState :=
  fold_left (cleanup_step cleanupOthers index) imgs
    {| cs_fs := fs; deletedPreviews := []; retainedPreviews := [];
       previewDir := None; attempts := [] |}.

(** [try { rmdirSync(previewDir) } catch {}] under its guard. *)
Definition remove_dir (cleanupOthers : bool) (st : CleanupState) : FS :=
  match or_null (previewDir st) with
  | Some d =>
      if cleanupOthers then
        match rmdirSync (cs_fs st) d with
        | Ok fs' => fs'
        | Throw _ => cs_fs st
        end
      else cs_fs st
  | None => cs_fs st
  end.

(** What one call leaves behind: the response or the exception, the
    ledger, the file system, and the deletions tried. *)
Record SelectRun := {
  result : outcome SelectResponse;
  db_after : Db num;
  fs_after : FS;
  delete_attempts : list DeleteAttempt;
}.

Definition failed (e : error) (db : Db num) (fs : FS) : SelectRun :=
  {| result := Throw e; db_after := db; fs_after := fs; delete_attempts := [] |}.

(** [selectImage(args, ctx)] at the instant [now_ms] ([Date.now()]),
    printed [now_iso] by [toISOString]. *)
Definition selectImage (args : SelectArgs) (storage : StorageProvider)
    (db : Db num) (fs : FS) (now_ms : Z) (now_iso : jsstring) : SelectRun :=
  let cleanupOthers := negb (bool_decide (arg_cleanup_others args = Some false)) in
  match getGeneration db (arg_generation_id args) with
  | None => failed (NotFound (arg_generation_id args)) db fs
  | Some generation =>
      match images generation with
      | None => failed (InvalidIndex (arg_index args)) db fs
      | Some imgs =>
          if Z.of_nat (length imgs) <=? arg_index args
          then failed (InvalidIndex (arg_index args)) db fs
          else
            match array_get imgs (arg_index args) with
            | None => failed TypeError db fs
            | Some selectedImage =>
                match readLocalImage fs (preview_url selectedImage) with
                | Throw e => failed e db fs
                | Ok buf =>
                    let ext := if includes (preview_url selectedImage) (js ".png")
                               then js "png" else js "jpg" in
                    let fname :=
                      match or_null (arg_filename args) with
                      | Some f => f
                      | None => slug (prompt generation) ++ js "-" ++ intToString now_ms
                                ++ js "." ++ ext
                      end in
                    match storage {|
                            buffer := buf; filename := fname;
                            contentType := if bool_decide (ext = js "png")
                                           then js "image/png" else js "image/jpeg";
                            metadata :=
                              [(js "generation_id", arg_generation_id args);
                               (js "prompt",
                                sanitizeForHeader (prompt generation) default_maxLength)] |} with
                    | Throw m => failed (StorageError m) db fs
                    | Ok uploadResult =>
                        let db' := (markSelected db (arg_generation_id args) (arg_index args)
                                      (key uploadResult) (publicUrl uploadResult) now_iso).2 in
                        let st := cleanup_loop cleanupOthers (arg_index args) fs imgs in
                        let fs' := remove_dir cleanupOthers st in
                        let altText := match or_null (context generation) with
                                       | Some c => c
                                       | None => slice0 (prompt generation) 100
                                       end in
                        {| result := Ok {|
                             permanent_url := publicUrl uploadResult;
                             r_storage_key := key uploadResult;
                             size_bytes := size uploadResult;
                             markdown := js "![" ++ altText ++ js "](" ++ publicUrl uploadResult ++ js ")";
                             cleanup := {|
                               deleted_previews := Z.of_nat (length (deletedPreviews st));
                               retained_previews := retainedPreviews st |} |};
                           db_after := db'; fs_after := fs';
                           delete_attempts := attempts st |}
                    end
                end
            end
      end
  end.

End Workflow.
End Select.

(* ------------------------------------------------------------------ *)
(** ** Number.prototype.toFixed *)

Module JSNumber.
Import Templater.

(** The class [0-9]. *)
Definition is_digit (c : N) : bool := ((48 <=? c) && (c <=? 57))%N.

(** The digits of [n / 10^fd] for a natural [n]: at least one digit
    before the point, exactly [fd] after it. *)
Definition fixed_digits (fd : nat) (n : Z) : jsstring :=
  let m := intToString n in
  match fd with
  | O => m
  | _ =>
      let m := replicate (fd + 1 - length m)%nat 48%N ++ m in
      take (length m - fd)%nat m ++ js "." ++ drop (length m - fd)%nat m
  end.

(** The integer nearest to [m * 2^e * 10^fd], the larger one on a tie. *)
Definition round_scaled (fd : nat) (m e : Z) : Z :=
  let scaled := m * 10 ^ Z.of_nat fd in
  if 0 <=? e then scaled * 2 ^ e
  else (2 * scaled + 2 ^ (- e)) / (2 * 2 ^ (- e)).

(** Whether [m * 2^e >= 10^21]. *)
Definition at_least_1e21 (m e : Z) : bool :=
  if 0 <=? e then 10 ^ 21 <=? m * 2 ^ e
  else 10 ^ 21 * 2 ^ (- e) <=? m.

(** A finite number of magnitude below 10^21: one that [toFixed] prints
    digit by digit. *)
Definition below_1e21 (x : float) : bool :=
  match Prim2SF x with
  | S754_zero _ => true
  | S754_finite _ m e => negb (at_least_1e21 (Z.pos m) e)
  | _ => false
  end.

(** The sign [toFixed] prints. *)
Definition sign_of (x : float) : jsstring :=
  match Prim2SF x with
  | S754_finite true _ _ => js "-"
  | _ => []
  end.

Section ToFixed.
Context `{Runtime}.

(** [x.toFixed(fd)] for [0 <= fd <= 100], by the steps of ECMA-262: a
    value that is not finite prints as [toString] does, one of magnitude
    10^21 or more too, and any other as its rounded decimal digits. *)
Definition toFixed (fd : nat) (x : float) : jsstring :=
  match Prim2SF x with
  | S754_nan => js "NaN"
  | S754_infinity s => if s then js "-Infinity" else js "Infinity"
  | S754_zero _ => fixed_digits fd 0
  | S754_finite s m e =>
      (if s then js "-" else []) ++
      (if at_least_1e21 (Z.pos m) e then numberToString (PrimFloat.abs x)
       else fixed_digits fd (round_scaled fd (Z.pos m) e))
  end.

End ToFixed.
End JSNumber.

(* ------------------------------------------------------------------ *)
(** ** config/loader.ts: the part of [Config] the workflows read *)

Module Cfg.

Record Defaults := { count : Z; aspect_ratio : jsstring; auto_cleanup_days : Z }.
Record Storage := { local_preview_dir : option jsstring }.
Record Budget := { monthly_limit : float; alert_threshold : float }.
Record Config := { defaults : Defaults; storage : Storage; budget : Budget }.

End Cfg.

(* ------------------------------------------------------------------ *)
(** ** tools/generate.ts: the generation workflow *)

Module Generate.
Import Templater JSNumber.

Record GenerateArgs := {
  arg_prompt : jsstring;
  arg_negative_prompt : option jsstring;
  arg_count : option Z;
  arg_aspect_ratio : option jsstring;
  arg_context : option jsstring;
}.

(** providers/base.ts *)
Record GenerateOptions := {
  o_prompt : jsstring;
  o_negative_prompt : option jsstring;
  o_count : Z;
  o_aspect_ratio : jsstring;
}.

Record GeneratedImage := {
  index : Z;
  url : jsstring;
  width : Z;
  height : Z;
  seed : option Z;
}.

Record GenerateResult := {
  images : list GeneratedImage;
  model_used : jsstring;
  cost : float;
  provider : jsstring;
}.

Definition ImageProvider := GenerateOptions -> result jsstring GenerateResult.

(** An entry of [savedImages]. *)
Record SavedImage := {
  s_index : Z;
  localPath : jsstring;
  s_width : Z;
  s_height : Z;
  s_seed : option Z;
}.

(** An entry of the response's [images]. *)
Record Preview := { p_index : Z; p_preview_url : jsstring; p_width : Z; p_height : Z }.

Record GenerateResponse := {
  r_generation_id : jsstring;
  r_images : list Preview;
  r_cost : float;
  r_model_used : jsstring;
  budget_warning : option jsstring;
}.

(** The class [\w]. *)
Definition is_word (c : N) : bool :=
  ((97 <=? c) && (c <=? 122) || (65 <=? c) && (c <=? 90)
   || (48 <=? c) && (c <=? 57) || (c =? 95))%N.

(** What [.] does not match. *)
Definition is_line_terminator (c : N) : bool :=
  ((c =? 10) || (c =? 13) || (c =? 8232) || (c =? 8233))%N.

Fixpoint span (p : N -> bool) (s : jsstring) : jsstring * jsstring :=
  match s with
  | [] => ([], [])
  | c :: r => if p c then let '(a, b) := span p r in (c :: a, b) else ([], s)
  end.

(** The two groups of [/^data:(image\/\w+);base64,(.+)$/]: the greedy
    [\w+] stops at the first unit that is no word character, which has to
    be the semicolon. *)
Definition match_data_url (dataUrl : jsstring) : option (jsstring * jsstring) :=
  match strip_prefix (js "data:image/") dataUrl with
  | None => None
  | Some r =>
      let '(w, rest) := span is_word r in
      match w with
      | [] => None
      | _ =>
          match strip_prefix (js ";base64,") rest with
          | None => None
          | Some payload =>
              match payload with
              | [] => None
              | _ => if forallb (fun c => negb (is_line_terminator c)) payload
                     then Some (js "image/" ++ w, payload) else None
              end
          end
      end
  end.

Section Workflow.
Context {FS : Type} `{FsApi FS} `{Runtime} `{SqlSum float}.

Record DataUrl := { mimeType : jsstring; d_buffer : Buffer }.

Definition dataUrlToBuffer (dataUrl : jsstring) : option DataUrl :=
  if negb (startsWith dataUrl (js "data:")) then None
  else
    match match_data_url dataUrl with
    | None => None
    | Some (mime, payload) => Some {| mimeType := mime; d_buffer := base64Decode payload |}
    end.

(** The loop [for (const img of result.images)]: an image whose url is
    no data URL is reported on the console and skipped; a write that
    throws ends the call. *)
Fixpoint save_previews (fs : FS) (generationDir : jsstring)
    (imgs : list GeneratedImage) (savedImages : list SavedImage)
    : result jsstring (list SavedImage) * FS :=
  match imgs with
  | [] => (Ok savedImages, fs)
  | img :: rest =>
      match dataUrlToBuffer (url img) with
      | None => save_previews fs generationDir rest savedImages
      | Some data =>
          let ext := if bool_decide (mimeType data = js "image/jpeg")
                     then js "jpg" else js "png" in
          let path := join generationDir (intToString (index img) ++ js "." ++ ext) in
          match writeFileSync fs path (d_buffer data) with
          | Throw e => (Throw e, fs)
          | Ok fs' =>
              save_previews fs' generationDir rest
                (savedImages ++ [{| s_index := index img; localPath := path;
                                    s_width := width img; s_height := height img;
                                    s_seed := seed img |}])
          end
      end
  end.

(** The budget check on the month-to-date total. *)
Definition budgetWarning (total monthly_limit alert_threshold : float) : option jsstring :=
  if PrimFloat.leb (monthly_limit * alert_threshold)%float total then
    Some (js "Budget alert: " ++ toFixed 1 ((total / monthly_limit) * 100)%float
          ++ js "% of monthly limit used ($" ++ toFixed 2 total
          ++ js "/$" ++ numberToString monthly_limit ++ js ")")
  else None.

Definition to_row (img : SavedImage) : Ledger.GenerationImage :=
  {| Ledger.generation_id := [];
     Ledger.index_num := s_index img;
     Ledger.preview_url := localPath img;
     Ledger.width := Some (s_width img);
     Ledger.height := Some (s_height img);
     Ledger.seed := s_seed img |}.

Definition to_preview (img : SavedImage) : Preview :=
  {| p_index := s_index img; p_preview_url := localPath img;
     p_width := s_width img; p_height := s_height img |}.

Record GenerateRun := {
  result : outcome GenerateResponse;
  db_after : Ledger.Db float;
  fs_after : FS;
}.

Definition failed (e : error) (db : Ledger.Db float) (fs : FS) : GenerateRun :=
  {| result := Throw e; db_after := db; fs_after := fs |}.

(** What one call draws from its environment: [Date.now()], the six
    characters of [Math.random().toString(36).slice(2, 8)], the
    [randomUUID()] and creation time of the ledger row, and the first
    instant of the month as [toISOString] prints it. *)
Record Draw := {
  now_ms : Z;
  random6 : jsstring;
  uuid : jsstring;
  created_iso : jsstring;
  month_start_iso : jsstring;
}.

(** [generateImages(args, ctx)]. *)
Definition generateImages (args : GenerateArgs) (provider_generate : ImageProvider)
    (config : Cfg.Config) (db : Ledger.Db float) (fs : FS) (d : Draw) : GenerateRun :=
  let count := default (Cfg.count (Cfg.defaults config)) (arg_count args) in
  let aspect_ratio := default (Cfg.aspect_ratio (Cfg.defaults config)) (arg_aspect_ratio args) in
  match provider_generate {| o_prompt := arg_prompt args;
                             o_negative_prompt := arg_negative_prompt args;
                             o_count := count; o_aspect_ratio := aspect_ratio |} with
  | Throw m => failed (ProviderError m) db fs
  | Ok res =>
      let generationId := js "gen-" ++ intToString (now_ms d) ++ js "-" ++ random6 d in
      match Cfg.local_preview_dir (Cfg.storage config) with
      | None => failed TypeError db fs
      | Some localPreviewDir =>
          let generationDir := join localPreviewDir generationId in
          match (if existsSync fs generationDir then Ok fs else mkdirSync fs generationDir) with
          | Throw e => failed (FsError e) db fs
          | Ok fs1 =>
              match save_previews fs1 generationDir (images res) [] with
              | (Throw e, fs2) => failed (FsError e) db fs2
              | (Ok savedImages, fs2) =>
                  match Ledger.createGeneration db {|
                          Ledger.new_prompt := arg_prompt args;
                          Ledger.new_negative_prompt := arg_negative_prompt args;
                          Ledger.new_context := arg_context args;
                          Ledger.new_model := model_used res;
                          Ledger.new_provider := provider res;
                          Ledger.new_count := count;
                          Ledger.new_aspect_ratio := aspect_ratio;
                          Ledger.new_cost := cost res;
                          Ledger.new_images := map to_row savedImages |}
                          (uuid d) (created_iso d) with
                  | (Throw e, db') => failed e db' fs2
                  | (Ok generation, db') =>
                      let costs := Ledger.getCosts db' (Some (month_start_iso d)) in
                      {| result := Ok {|
                           r_generation_id := Ledger.id generation;
                           r_images := map to_preview savedImages;
                           r_cost := cost res;
                           r_model_used := model_used res;
                           budget_warning :=
                             budgetWarning (Ledger.total costs)
                               (Cfg.monthly_limit (Cfg.budget config))
                               (Cfg.alert_threshold (Cfg.budget config)) |};
                         db_after := db'; fs_after := fs2 |}
                  end
              end
          end
      end
  end.

(** The images the loop keeps: those whose url is a data URL the
    pattern matches. *)
Definition kept (img : GeneratedImage) : bool :=
  match dataUrlToBuffer (url img) with
  | Some _ => true
  | None => false
  end.

(** The extension the loop derives from the url of a kept image. *)
Definition ext_of (img : GeneratedImage) : jsstring :=
  match dataUrlToBuffer (url img) with
  | Some data => if bool_decide (mimeType data = js "image/jpeg") then js "jpg" else js "png"
  | None => js "png"
  end.

(** The entry of [savedImages] for a kept image. *)
Definition saved_of (generationDir : jsstring) (img : GeneratedImage) : SavedImage :=
  {| s_index := index img;
     localPath := join generationDir (intToString (index img) ++ js "." ++ ext_of img);
     s_width := width img; s_height := height img; s_seed := seed img |}.

(** The row [createGeneration] stores for an entry of [savedImages]. *)
Definition stored_row (gid : jsstring) (img : SavedImage) : Ledger.GenerationImage :=
  {| Ledger.generation_id := gid; Ledger.index_num := s_index img;
     Ledger.preview_url := localPath img; Ledger.width := Some (s_width img);
     Ledger.height := Some (s_height img); Ledger.seed := s_seed img |}.

End Workflow.
End Generate.

(* ------------------------------------------------------------------ *)
(** ** tools/cleanup.ts: the retention sweeper *)

Module Sweeper.
Import Templater.

Record CleanupArgs := { older_than_days : option Z; dry_run : option bool }.

(** An entry of [previewsToDelete]. *)
Record Candidate := { path : jsstring; ageDays : Z }.

(** The five payloads the tool can return. *)
Inductive Report :=
| NoPreviewDirectory (preview_dir : option jsstring)
| ReadFailed (preview_dir : jsstring) (details : jsstring)
| NothingToClean (cutoff_date : jsstring) (older_than : Z)
| DryRun (would_delete : Z) (cutoff_date : jsstring) (older_than : Z)
    (previews : list Candidate) (message : option jsstring)
| Deleted (deleted_count : Z) (cutoff_date : jsstring) (older_than : Z)
    (errors : option (list (jsstring * jsstring))).

Definition ms_per_day : Z := 1000 * 60 * 60 * 24.

Section Workflow.
Context {FS : Type} `{FsApi FS} `{Runtime}.

(** The loop over [readdirSync(previewDir)]; a [statSync] that throws
    ends it in the [catch]. *)
Fixpoint scan (fs : FS) (previewDir : jsstring) (cutoffTime now : Z)
    (entries : list jsstring) (previewsToDelete : list Candidate)
    : result jsstring (list Candidate) :=
  match entries with
  | [] => Ok previewsToDelete
  | entry :: rest =>
      if negb (startsWith entry (js "gen-")) then
        scan fs previewDir cutoffTime now rest previewsToDelete
      else
        let dirPath := join previewDir entry in
        match statSync fs dirPath with
        | Throw e => Throw e
        | Ok stats =>
            if isDirectory stats && (mtimeMs stats <? cutoffTime) then
              scan fs previewDir cutoffTime now rest
                (previewsToDelete ++
                 [{| path := dirPath; ageDays := (now - mtimeMs stats) / ms_per_day |}])
            else scan fs previewDir cutoffTime now rest previewsToDelete
        end
  end.

(** The first [try] block: list the preview area and scan it. *)
Definition find_candidates (fs : FS) (previewDir : jsstring) (cutoffTime now : Z)
    : result jsstring (list Candidate) :=
  match readdirSync fs previewDir with
  | Throw e => Throw e
  | Ok entries => scan fs previewDir cutoffTime now entries []
  end.

(** [for (const file of files) unlinkSync(join(dir, file))], up to the
    first call that throws. *)
Fixpoint unlink_all (fs : FS) (dir : jsstring) (files : list jsstring)
    : result jsstring unit * FS :=
  match files with
  | [] => (Ok tt, fs)
  | file :: rest =>
      match unlinkSync fs (join dir file) with
      | Throw e => (Throw e, fs)
      | Ok fs' => unlink_all fs' dir rest
      end
  end.

(** The [try] block for one candidate. *)
Definition delete_dir (fs : FS) (dir : jsstring) : result jsstring unit * FS :=
  match readdirSync fs dir with
  | Throw e => (Throw e, fs)
  | Ok files =>
      match unlink_all fs dir files with
      | (Throw e, fs') => (Throw e, fs')
      | (Ok _, fs') =>
          match rmdirSync fs' dir with
          | Throw e => (Throw e, fs')
          | Ok fs'' => (Ok tt, fs'')
          end
      end
  end.

(** The deleting loop: the count, the errors, and the state reached. *)
Fixpoint delete_all (fs : FS) (cands : list Candidate) (deletedCount : Z)
    (errors : list (jsstring * jsstring)) : Z * list (jsstring * jsstring) * FS :=
  match cands with
  | [] => (deletedCount, errors, fs)
  | preview :: rest =>
      match delete_dir fs (path preview) with
      | (Ok _, fs') => delete_all fs' rest (deletedCount + 1) errors
      | (Throw e, fs') => delete_all fs' rest deletedCount (errors ++ [(path preview, e)])
      end
  end.

(** [cleanupPreviews(args, ctx)] at the instant [now]: the payload and
    the file system it leaves. *)
Definition cleanupPreviews (args : CleanupArgs) (config : Cfg.Config) (fs : FS) (now : Z)
    : Report * FS :=
  let olderThanDays := default (Cfg.auto_cleanup_days (Cfg.defaults config))
                         (older_than_days args) in
  let dryRun := default false (dry_run args) in
  match Ledger.or_null (Cfg.local_preview_dir (Cfg.storage config)) with
  | None => (NoPreviewDirectory (Cfg.local_preview_dir (Cfg.storage config)), fs)
  | Some previewDir =>
      if negb (existsSync fs previewDir) then (NoPreviewDirectory (Some previewDir), fs)
      else
        let cutoffTime := daysBefore now olderThanDays in
        match find_candidates fs previewDir cutoffTime now with
        | Throw e => (ReadFailed previewDir e, fs)
        | Ok previewsToDelete =>
            let n := Z.of_nat (length previewsToDelete) in
            if n =? 0 then (NothingToClean (toISOString cutoffTime) olderThanDays, fs)
            else if dryRun then
              (DryRun n (toISOString cutoffTime) olderThanDays
                 (take 20 previewsToDelete)
                 (if 20 <? n then Some (js "...and " ++ intToString (n - 20) ++ js " more")
                  else None),
               fs)
            else
              let '(deletedCount, errors, fs') := delete_all fs previewsToDelete 0 [] in
              (Deleted deletedCount (toISOString cutoffTime) olderThanDays
                 (match errors with [] => None | _ => Some errors end),
               fs')
        end
  end.

End Workflow.
End Sweeper.

(* ------------------------------------------------------------------ *)
(** ** db/generations.ts: the listing *)

Module Listing.
Import Ledger.

(** [ORDER BY created_at DESC] as an insertion sort.  Rows with the same
    [created_at] stay in insertion order here; SQL leaves their order
    open. *)
Fixpoint insert_by_created {num} (x : Generation num) (l : list (Generation num))
    : list (Generation num) :=
  match l with
  | [] => [x]
  | y :: l' =>
      if str_leb (created_at y) (created_at x) then x :: l
      else y :: insert_by_created x l'
  end.

Definition order_by_created_desc {num} (l : list (Generation num)) : list (Generation num) :=
  foldr insert_by_created [] l.

(** [LIMIT ?]: a negative bound is no bound. *)
Definition sql_limit {A} (limit : Z) (rows : list A) : list A :=
  if limit <? 0 then rows else take (Z.to_nat limit) rows.

(** The callback of [genResult[0].values.map]: the row with the images
    of its generation, when it has any. *)
Definition attach_images {num} (db : Db num) (gen : Generation num) : Generation num :=
  match select_images db (id gen) with
  | Some imgs => with_images gen (Some imgs)
  | None => gen
  end.

(** [listGenerations(limit)]. *)
Definition listGenerations {num} (db : Db num) (limit : Z) : list (Generation num) :=
  map (attach_images db) (sql_limit limit (order_by_created_desc (generations_table db))).

End Listing.

(* ------------------------------------------------------------------ *)
(** ** tools/list.ts: the list tool *)

Module ListTool.
Import Ledger.

Record ListArgs := { arg_limit : option Z }.

Record Summary {num : Type} := {
  s_id : jsstring;
  s_prompt : jsstring;
  s_model : jsstring;
  s_created_at : jsstring;
  s_cost : num;
  s_selected : bool;
  s_public_url : option jsstring;
}.
Arguments Summary num : clear implicits.

Record ListResponse {num : Type} := {
  l_count : Z;
  l_generations : list (Summary num);
}.
Arguments ListResponse num : clear implicits.

Definition summarize {num} (gen : Generation num) : Summary num :=
  {| s_id := id gen;
     s_prompt := slice0 (prompt gen) 80
                 ++ (if 80 <? Z.of_nat (length (prompt gen)) then js "..." else []);
     s_model := model gen;
     s_created_at := created_at gen;
     s_cost := cost gen;
     s_selected := bool_decide (is_Some (selected_index gen));
     s_public_url := public_url gen |}.

(** [listGenerations(args, ctx)]. *)
Definition listGenerations {num} (args : ListArgs) (db : Db num) : ListResponse num :=
  let limit := default 10 (arg_limit args) in
  let generations := Listing.listGenerations db limit in
  let summary := map summarize generations in
  {| l_count := Z.of_nat (length summary); l_generations := summary |}.

End ListTool.

(* ------------------------------------------------------------------ *)
(** ** tools/costs.ts: the cost report *)

Module Costs.
Import JSNumber.

Record CostsArgs := { arg_period : option jsstring }.

(** The local-time setters of [Date] the report uses, on millisecond
    instants: [d.setDate(n)] and [d.setHours(0, 0, 0, 0)]. *)
Class LocalClock := {
  setDate : Z -> Z -> Z;
  setHours0 : Z -> Z;
}.

Definition is_pos_zero (x : float) : bool := PrimFloat.is_zero x && negb (PrimFloat.get_sign x).
Definition is_neg_zero (x : float) : bool := PrimFloat.is_zero x && PrimFloat.get_sign x.

(** One round of the loop of [Math.max] (ECMA-262): [+0] beats [-0],
    and a larger number beats the highest so far. *)
Definition max_step (highest number : float) : float :=
  if is_pos_zero number && is_neg_zero highest then number
  else if PrimFloat.ltb highest number then number
  else highest.

(** [Math.max(a, b)]: [NaN] if either is, else the loop from
    [-Infinity]. *)
Definition Math_max (a b : float) : float :=
  if PrimFloat.is_nan a || PrimFloat.is_nan b then PrimFloat.nan
  else max_step (max_step PrimFloat.neg_infinity a) b.

(** The object the tool prints. *)
Record CostsReport := {
  period : jsstring;
  total : float;
  generation_count : Z;
  by_provider : gmap jsstring float;
  by_model : gmap jsstring float;
  budget_limit : float;
  budget_remaining : option float;
  budget_percent : option jsstring;
}.

Section Tool.
Context `{Runtime} `{LocalClock} `{SqlSum float}.

(** The [switch (period)]: a period it does not know leaves [since]
    undefined, as ['all'] does. *)
Definition since_of (period : jsstring) (now : Z) : option Z :=
  if bool_decide (period = js "day") then Some (setHours0 now)
  else if bool_decide (period = js "week") then Some (daysBefore now 7)
  else if bool_decide (period = js "month") then Some (setHours0 (setDate now 1))
  else None.

(** [getCosts(args, ctx)] at the instant [now]. *)
Definition getCosts (args : CostsArgs) (config : Cfg.Config) (db : Ledger.Db float) (now : Z)
    : CostsReport :=
  let period := default (js "month") (arg_period args) in
  let since := since_of period now in
  let costs := Ledger.getCosts db (toISOString <$> since) in
  let monthly_limit := Cfg.monthly_limit (Cfg.budget config) in
  let budgetRemaining :=
    if bool_decide (period = js "month")
    then Some (Math_max 0 (monthly_limit - Ledger.total costs))
    else None in
  let budgetPercent :=
    if bool_decide (period = js "month")
    then Some ((Ledger.total costs / monthly_limit) * 100)%float
    else None in
  {| period := period;
     total := Ledger.total costs;
     generation_count := Ledger.generation_count costs;
     by_provider := Ledger.by_provider costs;
     by_model := Ledger.by_model costs;
     budget_limit := monthly_limit;
     budget_remaining := budgetRemaining;
     budget_percent := toFixed 1 <$> budgetPercent |}.

End Tool.
End Costs.

(* ------------------------------------------------------------------ *)
(** ** providers/gemini.ts: the Gemini provider *)

Module Gemini.

(** A part of a response, as far as [generate] reads it. *)
Record InlineData := { i_data : option jsstring; i_mimeType : option jsstring }.
Record Part := { inlineData : option InlineData }.

(** What one [generateContent] call is given. *)
Record Request := { q_model : jsstring; q_contents : jsstring; q_aspectRatio : jsstring }.

(** The client: the parts of the first candidate of the response to the
    call made in round [i] ([response.candidates?.[0]?.content?.parts ||
    []]), or the exception of the call. *)
Definition Api := Request -> Z -> result jsstring (list Part).

Definition MODEL_COSTS : list (jsstring * float) :=
  [(js "gemini-2.5-flash-image", 0.039%float);
   (js "gemini-3-pro-image-preview", 0.10%float)].

Definition SUPPORTED_ASPECT_RATIOS : list jsstring :=
  [js "1:1"; js "2:3"; js "3:2"; js "3:4"; js "4:3"; js "4:5"; js "5:4";
   js "9:16"; js "16:9"; js "21:9"].

(** The names every object literal inherits from [Object.prototype]. *)
Definition object_prototype_names : list jsstring :=
  [js "constructor"; js "__defineGetter__"; js "__defineSetter__"; js "hasOwnProperty";
   js "__lookupGetter__"; js "__lookupSetter__"; js "isPrototypeOf";
   js "propertyIsEnumerable"; js "toString"; js "valueOf"; js "__proto__";
   js "toLocaleString"].

Fixpoint assoc {A} (table : list (jsstring * A)) (k : jsstring) : option A :=
  match table with
  | [] => None
  | (k', v) :: rest => if bool_decide (k' = k) then Some v else assoc rest k
  end.

(** What [MODEL_COSTS[model] || 0.05] evaluates to: a price, or, for a
    model named like an inherited property, that property (a function or
    an object, which is truthy). *)
Inductive price := Price (usd : float) | Inherited.

Definition getCostPerImage (model : jsstring) : price :=
  match assoc MODEL_COSTS model with
  | Some c => if PrimFloat.is_zero c || PrimFloat.is_nan c then Price 0.05 else Price c
  | None =>
      if bool_decide (model ∈ object_prototype_names) then Inherited else Price 0.05
  end.

(** [price * n]: a function or an object converts to [NaN]. *)
Definition times (p : price) (n : float) : float :=
  match p with
  | Price c => (c * n)%float
  | Inherited => PrimFloat.nan
  end.

(** A length as a number (exact below 2^53). *)
Definition number_of_nat (n : nat) : float := PrimFloat.of_uint63 (Uint63.of_Z (Z.of_nat n)).

Definition getDimensionsFromAspectRatio (ratio : jsstring) : Z * Z :=
  default (1024, 1024)
    (assoc [(js "1:1", (1024, 1024)); (js "2:3", (832, 1248)); (js "3:2", (1248, 832));
            (js "3:4", (896, 1152)); (js "4:3", (1152, 896)); (js "4:5", (896, 1120));
            (js "5:4", (1120, 896)); (js "9:16", (768, 1344)); (js "16:9", (1344, 768));
            (js "21:9", (1536, 640))] ratio).

(** The first part with [part.inlineData?.data] truthy, where the inner
    loop breaks. *)
Fixpoint first_inline (parts : list Part) : option InlineData :=
  match parts with
  | [] => None
  | part :: rest =>
      match inlineData part with
      | Some d =>
          match Ledger.or_null (i_data d) with
          | Some _ => Some d
          | None => first_inline rest
          end
      | None => first_inline rest
      end
  end.

(** [n] rounds of [for (let i = ...; i < options.count; i++)] from
    round [i] on; a call that throws ends [generate]. *)
Fixpoint rounds (api : Api) (req : Request) (n : nat) (i : Z) (images : list Generate.GeneratedImage)
    : result jsstring (list Generate.GeneratedImage) :=
  match n with
  | O => Ok images
  | S n' =>
      match api req i with
      | Throw e => Throw e
      | Ok parts =>
          rounds api req n' (i + 1)
            (match first_inline parts with
             | Some d =>
                 let mimeType := default (js "image/png") (Ledger.or_null (i_mimeType d)) in
                 let dimensions := getDimensionsFromAspectRatio (q_aspectRatio req) in
                 images ++ [{| Generate.index := i;
                               Generate.url := js "data:" ++ mimeType ++ js ";base64,"
                                               ++ default [] (i_data d);
                               Generate.width := dimensions.1;
                               Generate.height := dimensions.2;
                               Generate.seed := None |}]
             | None => images
             end)
      end
  end.

(** The image the loop pushes for the inline data [d] of round [i]. *)
Definition image_of_round (req : Request) (i : Z) (d : InlineData) : Generate.GeneratedImage :=
  {| Generate.index := i;
     Generate.url := js "data:" ++ default (js "image/png") (Ledger.or_null (i_mimeType d))
                     ++ js ";base64," ++ default [] (i_data d);
     Generate.width := (getDimensionsFromAspectRatio (q_aspectRatio req)).1;
     Generate.height := (getDimensionsFromAspectRatio (q_aspectRatio req)).2;
     Generate.seed := None |}.

(** Round [i] delivered [img]: the call of that round returned, and
    [img] is the image of the first part with inline data. *)
Definition delivers (api : Api) (req : Request) (i : Z) (img : Generate.GeneratedImage) : Prop :=
  exists parts d,
    api req i = Ok parts /\ first_inline parts = Some d /\ img = image_of_round req i d.

(** [generate(options)] of a provider constructed with [defaultModel];
    [model] is [options.model]. *)
Definition generate (api : Api) (defaultModel : jsstring) (model : option jsstring)
    (options : Generate.GenerateOptions) : result jsstring Generate.GenerateResult :=
  let model := default defaultModel (Ledger.or_null model) in
  let aspectRatio :=
    if bool_decide (Generate.o_aspect_ratio options ∈ SUPPORTED_ASPECT_RATIOS)
    then Generate.o_aspect_ratio options else js "16:9" in
  let prompt :=
    match Ledger.or_null (Generate.o_negative_prompt options) with
    | Some negative => Generate.o_prompt options ++ [10%N; 10%N] ++ js "Avoid: " ++ negative
    | None => Generate.o_prompt options
    end in
  match rounds api {| q_model := model; q_contents := prompt; q_aspectRatio := aspectRatio |}
          (Z.to_nat (Generate.o_count options)) 0 [] with
  | Throw e => Throw e
  | Ok [] => Throw (js "No images generated")
  | Ok images =>
      Ok {| Generate.images := images; Generate.model_used := model;
            Generate.cost := times (getCostPerImage model) (number_of_nat (length images));
            Generate.provider := js "gemini" |}
  end.

End Gemini.

(* ------------------------------------------------------------------ *)
(** ** A small runtime to run the workflows on *)

(** An in-memory file system and pure library functions that behave
    like Node's on the inputs used below: POSIX paths that need no
    normalisation, ASCII text, UTC as the local time zone. *)
Module Sim.
Import Templater JSNumber.

(** A file can be protected against removal (a directory without write
    permission, a viewer holding the file open on Windows): [unlinkSync]
    then throws although the file exists and can be read. *)
Inductive node :=
| File (data : Buffer) (protected : bool)
| Dir (mtime : Z).

Definition MemFs := list (jsstring * node).

Fixpoint find_node (fs : MemFs) (p : jsstring) : option node :=
  match fs with
  | [] => None
  | (q, n) :: r => if bool_decide (q = p) then Some n else find_node r p
  end.

Definition remove_node (fs : MemFs) (p : jsstring) : MemFs :=
  List.filter (fun e => negb (bool_decide (e.1 = p))) fs.

(** The name under which [p] is listed in [d], if it lies directly in it. *)
Definition child_name (d p : jsstring) : option jsstring :=
  match strip_prefix (d ++ js "/") p with
  | Some (c :: n) => if existsb (N.eqb 47) (c :: n) then None else Some (c :: n)
  | _ => None
  end.

Definition children (fs : MemFs) (d : jsstring) : list jsstring :=
  omap (fun e => child_name d e.1) fs.

#[export] Instance memfs_api : FsApi MemFs := {|
  existsSync fs p := bool_decide (is_Some (find_node fs p));
  readFileSync fs p :=
    match find_node fs p with
    | Some (File data _) => Ok data
    | Some (Dir _) => Throw (js "EISDIR")
    | None => Throw (js "ENOENT")
    end;
  writeFileSync fs p data :=
    match find_node fs p with
    | Some (Dir _) => Throw (js "EISDIR")
    | Some (File _ true) => Throw (js "EACCES")
    | _ => Ok (remove_node fs p ++ [(p, File data false)])
    end;
  mkdirSync fs p :=
    match find_node fs p with
    | Some (File _ _) => Throw (js "EEXIST")
    | Some (Dir _) => Ok fs
    | None => Ok (fs ++ [(p, Dir 0)])
    end;
  unlinkSync fs p :=
    match find_node fs p with
    | Some (File _ false) => Ok (remove_node fs p)
    | Some (File _ true) => Throw (js "EACCES")
    | Some (Dir _) => Throw (js "EPERM")
    | None => Throw (js "ENOENT")
    end;
  rmdirSync fs p :=
    match find_node fs p with
    | Some (Dir _) =>
        match children fs p with
        | [] => Ok (remove_node fs p)
        | _ => Throw (js "ENOTEMPTY")
        end
    | Some (File _ _) => Throw (js "ENOTDIR")
    | None => Throw (js "ENOENT")
    end;
  readdirSync fs p :=
    match find_node fs p with
    | Some (Dir _) => Ok (children fs p)
    | Some (File _ _) => Throw (js "ENOTDIR")
    | None => Throw (js "ENOENT")
    end;
  statSync fs p :=
    match find_node fs p with
    | Some (Dir m) => Ok {| isDirectory := true; mtimeMs := m |}
    | Some (File _ _) => Ok {| isDirectory := false; mtimeMs := 0 |}
    | None => Throw (js "ENOENT")
    end;
|}.

(** The text before the last slash. *)
Fixpoint before_last_slash (s : jsstring) : option jsstring :=
  match s with
  | [] => None
  | c :: r =>
      match before_last_slash r with
      | Some d => Some (c :: d)
      | None => if (c =? 47)%N then Some [] else None
      end
  end.

Definition sim_dirname (p : jsstring) : jsstring :=
  match before_last_slash p with
  | Some [] => js "/"
  | Some d => d
  | None => js "."
  end.

(** The value of a unit of the base64 alphabet. *)
Definition base64_value (c : N) : option N :=
  (if (65 <=? c) && (c <=? 90) then Some (c - 65)
   else if (97 <=? c) && (c <=? 122) then Some (c - 71)
   else if (48 <=? c) && (c <=? 57) then Some (c + 4)
   else if (c =? 43) || (c =? 45) then Some 62
   else if (c =? 47) || (c =? 95) then Some 63
   else None)%N.

(** Six bits a unit, a byte out whenever eight are there; the padding
    ends the text and any other unit is passed over. *)
Fixpoint base64_go (s : jsstring) (acc : N) (nbits : N) : Buffer :=
  match s with
  | [] => []
  | c :: r =>
      if (c =? 61)%N then []
      else
        match base64_value c with
        | None => base64_go r acc nbits
        | Some v =>
            let acc := (acc * 64 + v)%N in
            let nbits := (nbits + 6)%N in
            if (8 <=? nbits)%N then
              let rest := (nbits - 8)%N in
              match Byte.of_N (N.shiftr acc rest) with
              | Some b => b :: base64_go r (N.land acc (N.ones rest)) rest
              | None => base64_go r (N.land acc (N.ones rest)) rest
              end
            else base64_go r acc nbits
        end
  end.

Definition ascii_lower (c : N) : N :=
  if ((65 <=? c) && (c <=? 90))%N then (c + 32)%N else c.

(** Prints a number by its exact decimal expansion: JavaScript's own
    output for the integers the examples print. *)
Definition sim_numberToString (x : float) : jsstring :=
  match Prim2SF x with
  | S754_nan => js "NaN"
  | S754_infinity s => if s then js "-Infinity" else js "Infinity"
  | S754_zero _ => js "0"
  | S754_finite s m e =>
      (if s then js "-" else []) ++
      (if 0 <=? e then intToString (Z.pos m * 2 ^ e)
       else if Z.pos m mod 2 ^ (- e) =? 0 then intToString (Z.pos m / 2 ^ (- e))
       else dropEndWhile (N.eqb 48) (fixed_digits (Z.to_nat (- e)) (Z.pos m * 5 ^ (- e))))
  end.

Definition pad (width : nat) (z : Z) : jsstring :=
  let s := intToString z in replicate (width - length s)%nat 48%N ++ s.

(** The proleptic Gregorian date of a day number counted from
    1970-01-01 (years 0000 to 9999 print as four digits). *)
Definition civil_from_days (days : Z) : Z * Z * Z :=
  let z := days + 719468 in
  let era := z / 146097 in
  let doe := z - era * 146097 in
  let yoe := (doe - doe / 1460 + doe / 36524 - doe / 146096) / 365 in
  let doy := doe - (365 * yoe + yoe / 4 - yoe / 100) in
  let mp := (5 * doy + 2) / 153 in
  let d := doy - (153 * mp + 2) / 5 + 1 in
  let m := if mp <? 10 then mp + 3 else mp - 9 in
  let y := yoe + era * 400 + (if m <=? 2 then 1 else 0) in
  (y, m, d).

Definition sim_toISOString (ms : Z) : jsstring :=
  let '(y, m, d) := civil_from_days (ms / Sweeper.ms_per_day) in
  let t := ms mod Sweeper.ms_per_day in
  pad 4 y ++ js "-" ++ pad 2 m ++ js "-" ++ pad 2 d ++ js "T"
  ++ pad 2 (t / 3600000) ++ js ":" ++ pad 2 (t / 60000 mod 60) ++ js ":"
  ++ pad 2 (t / 1000 mod 60) ++ js "." ++ pad 3 (t mod 1000) ++ js "Z".

#[export] Instance sim_runtime : Runtime := {|
  join a b := a ++ js "/" ++ b;
  dirname := sim_dirname;
  base64Decode s := base64_go s 0 0;
  toLowerCase := map ascii_lower;
  numberToString := sim_numberToString;
  toISOString := sim_toISOString;
  daysBefore now n := now - n * Sweeper.ms_per_day;
|}.

End Sim.

(* ------------------------------------------------------------------ *)
(** ** Sample data *)

(** A ledger, a preview area and collaborators to run the workflows on. *)
Module Examples.
Import Templater Ledger Sim.

Definition image (gid : string) (i : Z) (p : string) : GenerationImage :=
  {| generation_id := js gid; index_num := i; preview_url := js p;
     width := Some 1024; height := Some 576; seed := None |}.

Definition generation {num} (gid pr md : string) (c : num) (at_ : string) : Generation num :=
  {| id := js gid; prompt := js "a sunset"; negative_prompt := None; context := None;
     model := js md; provider := js pr; count := 2; aspect_ratio := js "16:9";
     cost := c; created_at := js at_;
     selected_index := None; selected_at := None; storage_key := None;
     public_url := None; images := None |}.

(** Two generations of two previews each, one generation whose only
    stored image has [index_num] 1 (the provider produced nothing for
    index 0), and one without images. *)
Definition ledger_rows {num} (c1 c2 c3 c4 : num) : Db num :=
  {| generations_table :=
       [generation "g1" "gemini" "gemini-2.5-flash-image" c1 "2025-01-05T10:00:00.000Z";
        generation "g2" "fal" "fal-ai/flux/schnell" c2 "2025-01-07T08:30:00.000Z";
        generation "g3" "gemini" "gemini-3-pro-image-preview" c3 "2025-01-09T10:00:00.000Z";
        generation "g4" "gemini" "gemini-2.5-flash-image" c4 "2025-01-09T11:00:00.000Z"];
     images_table :=
       [image "g1" 0 "/tmp/previews/gen-1/0.png";
        image "g1" 1 "/tmp/previews/gen-1/1.png";
        image "g2" 0 "/tmp/previews/gen-2/0.jpg";
        image "g2" 1 "/tmp/previews/gen-2/1.jpg";
        image "g3" 1 "/tmp/previews/gen-3/1.png"] |}.

(** Costs in thousandths of a dollar, and in dollars. *)
Definition ledger_Z : Db Z := ledger_rows 78 6 100 39.
Definition ledger : Db float := ledger_rows 0.078%float 0.006%float 0.1%float 0.039%float.

Definition png : Buffer := [Byte.x89; Byte.x50; Byte.x4e; Byte.x47].

Definition day : Z := Sweeper.ms_per_day.

(** Noon of 2025-01-09, UTC. *)
Definition noon : Z := 1736424000000.

(** The preview area: three generation directories (30, 10 and 0 days
    old at [noon]) with their previews, and a stray file. *)
Definition preview_area (protected : bool) : MemFs :=
  [(js "/tmp/previews", Dir (noon - 30 * day));
   (js "/tmp/previews/gen-1", Dir (noon - 30 * day));
   (js "/tmp/previews/gen-1/0.png", File png protected);
   (js "/tmp/previews/gen-1/1.png", File png false);
   (js "/tmp/previews/gen-2", Dir (noon - 10 * day));
   (js "/tmp/previews/gen-2/0.jpg", File png false);
   (js "/tmp/previews/gen-2/1.jpg", File png false);
   (js "/tmp/previews/gen-3", Dir noon);
   (js "/tmp/previews/gen-3/1.png", File png false);
   (js "/tmp/previews/notes.txt", File [] false)].

Definition today : LocalDate := {| getFullYear := 2025; getMonth := 0; getDate := 9 |}.

(** A Blob Store in the manner of storage/local.ts: the key is the
    expanded path template. *)
Definition blob_store : StorageProvider := fun options =>
  let k := generateStoragePath today (js "{year}/{month}/{filename}") (filename options) in
  Ok {| key := k; publicUrl := js "https://cdn.example.com/" ++ k;
        size := Z.of_nat (length (buffer options)) |}.

Definition select_args (gid : string) (i : Z) (others : option bool) : Select.SelectArgs :=
  {| Select.arg_generation_id := js gid; Select.arg_index := i;
     Select.arg_filename := None; Select.arg_cleanup_others := others |}.

Definition config (limit : float) : Cfg.Config :=
  {| Cfg.defaults := {| Cfg.count := 3; Cfg.aspect_ratio := js "16:9";
                        Cfg.auto_cleanup_days := 7 |};
     Cfg.storage := {| Cfg.local_preview_dir := Some (js "/tmp/previews") |};
     Cfg.budget := {| Cfg.monthly_limit := limit; Cfg.alert_threshold := 0.8%float |} |}.

Definition generate_args : Generate.GenerateArgs :=
  {| Generate.arg_prompt := js "a sunset"; Generate.arg_negative_prompt := None;
     Generate.arg_count := Some 2; Generate.arg_aspect_ratio := None;
     Generate.arg_context := None |}.

Definition provider_image (i : Z) (u : string) : Generate.GeneratedImage :=
  {| Generate.index := i; Generate.url := js u; Generate.width := 1344;
     Generate.height := 768; Generate.seed := None |}.

(** A provider that answers with the given images at the given cost. *)
Definition provider_of (imgs : list Generate.GeneratedImage) (c : float)
    : Generate.ImageProvider := fun _ =>
  Ok {| Generate.images := imgs; Generate.model_used := js "gemini-2.5-flash-image";
        Generate.cost := c; Generate.provider := js "gemini" |}.

Definition draw : Generate.Draw :=
  {| Generate.now_ms := noon; Generate.random6 := js "k3x9qa";
     Generate.uuid := js "g5"; Generate.created_iso := js "2025-01-09T12:00:00.000Z";
     Generate.month_start_iso := js "2025-01-01T00:00:00.000Z" |}.

Definition iso_noon : jsstring := js "2025-01-09T12:00:00.000Z".

(** What a provider may answer under the interface: one image as a data
    URL, one as a bare remote URL. *)
Definition mixed_images : list Generate.GeneratedImage :=
  [provider_image 0 "data:image/png;base64,iVBORw0KGgo=";
   provider_image 1 "https://fal.media/files/abc.png"].

(** Two images as Gemini delivers them, and a preview area with nothing
    in it. *)
Definition data_images : list Generate.GeneratedImage :=
  [provider_image 0 "data:image/png;base64,iVBORw0KGgo=";
   provider_image 1 "data:image/jpeg;base64,/9j/4AAQ"].

Definition empty_area : MemFs := [(js "/tmp/previews", Dir noon)].

(** The generation of the end-to-end scenario, and the selection of
    its second image that follows. *)
Definition scenario_generate : Generate.GenerateRun :=
  Generate.generateImages generate_args (provider_of data_images 0.078%float) (config 25)
    Ledger.empty_db empty_area draw.

Definition scenario_select : Select.SelectRun :=
  Select.selectImage (select_args "g5" 1 None) blob_store
    (Generate.db_after scenario_generate) (Generate.fs_after scenario_generate)
    noon iso_noon.

(** A preview area with 25 generation directories, all 30 days old. *)
Definition crowded_area : MemFs :=
  (js "/tmp/previews", Dir noon)
  :: map (fun i => (js "/tmp/previews/gen-" ++ intToString i, Dir (noon - 30 * day)))
       (seqZ 0 25).

(** A sweep of the preview area at [noon] with the configured seven days. *)
Definition sweep (dry : option bool) : Sweeper.Report * MemFs :=
  Sweeper.cleanupPreviews {| Sweeper.older_than_days := None; Sweeper.dry_run := dry |}
    (config 25) (preview_area false) noon.

End Examples.

(* ------------------------------------------------------------------ *)
(** ** More sample data *)

Module Fixtures.
Import Ledger Sim Examples.

(** A generation of two images to add to the sample ledger, given in
    descending index order, at 42 thousandths of a dollar. *)
Definition new_generation : NewGeneration Z :=
  {| new_prompt := js "a harbour at dawn"; new_negative_prompt := None;
     new_context := Some (js "cover image");
     new_model := js "gemini-2.5-flash-image"; new_provider := js "gemini";
     new_count := 2; new_aspect_ratio := js "16:9"; new_cost := 42;
     new_images := [image "" 1 "/tmp/previews/gen-5/1.png";
                    image "" 0 "/tmp/previews/gen-5/0.png"] |}.

(** Costs in 256ths of a dollar, which binary64 adds without rounding,
    and a ledger of such costs. *)
Definition dyadic (k : Z) : float := (PrimFloat.of_uint63 (Uint63.of_Z k) / 256)%float.

Definition ledger_dyadic : Db float :=
  ledger_rows (dyadic 10) (dyadic 1) (dyadic 16) (dyadic 5).

(** Costs as the providers compute them, the price of the model times
    the number of images: two and two images of Gemini's flash model,
    four of fal's schnell, three of Gemini's pro model. *)
Definition ledger_priced : Db float :=
  ledger_rows (0.039 * 2)%float (0.003 * 4)%float (0.1 * 3)%float (0.039 * 2)%float.

(** A provider that is out of quota. *)
Definition failing_provider : Generate.ImageProvider := fun _ => Throw (js "quota exceeded").

(** A Gemini client whose round 1 delivers text only. *)
Definition picture : Gemini.Part :=
  {| Gemini.inlineData :=
       Some {| Gemini.i_data := Some (js "iVBORw0KGgo="); Gemini.i_mimeType := None |} |}.

Definition words : Gemini.Part := {| Gemini.inlineData := None |}.

Definition patchy_api : Gemini.Api := fun _ i => Ok (if i =? 1 then [words] else [words; picture]).

Definition steady_api : Gemini.Api := fun _ _ => Ok [picture].

Definition three_images : Generate.GenerateOptions :=
  {| Generate.o_prompt := js "a sunset"; Generate.o_negative_prompt := Some (js "people");
     Generate.o_count := 3; Generate.o_aspect_ratio := js "4:3" |}.

(** A clock for the cost report: the instants are UTC, the month is
    January 2025. *)
#[export] Instance utc_clock : Costs.LocalClock := {|
  Costs.setDate now n := 1735689600000 + (n - 1) * day + now mod day;
  Costs.setHours0 now := now - now mod day;
|}.

End Fixtures.

(* ================================================================== *)
(** * Properties *)

(* ------------------------------------------------------------------ *)
(** ** Lists of code units *)

Section StringFacts.

Lemma dropEndWhile_prefix p s : exists r, s = dropEndWhile p s ++ r.
Proof.
  induction s as [|c s [r IH]]; simpl.
  - exists []. reflexivity.
  - destruct (dropEndWhile p s) as [|d t] eqn:E.
    + destruct (p c).
      * exists (c :: s). reflexivity.
      * exists s. simpl in IH. simpl. congruence.
    + exists r. simpl. f_equal. exact IH.
Qed.

Lemma dropEndWhile_length p s : (length (dropEndWhile p s) <= length s)%nat.
Proof.
  destruct (dropEndWhile_prefix p s) as [r E].
  rewrite E at 2. rewrite length_app. lia.
Qed.

(** Nothing is dropped exactly when the last unit does not satisfy [p]. *)
Lemma dropEndWhile_id p s :
  dropEndWhile p s = s <-> forall c, last s = Some c -> p c = false.
Proof.
  induction s as [|c s IH]; simpl.
  - split; [intros _ d Hd; discriminate | reflexivity].
  - destruct s as [|d t].
    + simpl. destruct (p c) eqn:Ec; split.
      * discriminate.
      * intros Hl. specialize (Hl c eq_refl). congruence.
      * intros _ x Hx. injection Hx as <-. exact Ec.
      * reflexivity.
    + change (last (c :: d :: t)) with (last (d :: t)).
      destruct (dropEndWhile p (d :: t)) as [|e u] eqn:E.
      * split.
        -- destruct (p c); discriminate.
        -- intros Hl. apply IH in Hl. discriminate.
      * rewrite <- IH. split; congruence.
Qed.

Lemma trimStart_suffix s : exists r, s = r ++ trimStart s.
Proof.
  induction s as [|c s [r IH]]; simpl.
  - exists []. reflexivity.
  - destruct (is_ws c).
    + exists (c :: r). simpl. congruence.
    + exists []. reflexivity.
Qed.

Lemma trimStart_head s c t : trimStart s = c :: t -> is_ws c = false.
Proof.
  induction s as [|d s IH]; simpl; [discriminate|].
  destruct (is_ws d) eqn:E; [exact IH|].
  intros [= <- _]. exact E.
Qed.

Lemma trimStart_id s :
  (forall c t, s = c :: t -> is_ws c = false) -> trimStart s = s.
Proof.
  destruct s as [|c t]; [reflexivity|].
  intros Hh. simpl. rewrite (Hh c t eq_refl). reflexivity.
Qed.

Lemma dropEndWhile_head p s c t d u :
  s = c :: t -> dropEndWhile p s = d :: u -> d = c.
Proof.
  intros -> Hd. simpl in Hd.
  destruct (dropEndWhile p t).
  - destruct (p c); congruence.
  - congruence.
Qed.

End StringFacts.

(* ------------------------------------------------------------------ *)
(** ** The header sanitizer *)

Module SanitizerFacts.
Import Sanitizer.

Lemma replaceClass_id p r s :
  Forall (fun c => p c = false) s -> replaceClass p r s = s.
Proof.
  unfold replaceClass. induction 1 as [|c s Hc _ IH]; simpl; [reflexivity|].
  rewrite Hc. simpl. f_equal. exact IH.
Qed.

Lemma printable_bounds c : printable c = true <-> (32 <= c <= 126)%N.
Proof. unfold printable. rewrite andb_true_iff, !N.leb_le. reflexivity. Qed.

Lemma printable_ws c : printable c = true -> is_ws c = (c =? 32)%N.
Proof.
  intros Hc%printable_bounds. unfold is_ws.
  repeat match goal with
         | |- context [(?a <=? ?b)%N] => destruct (N.leb_spec a b)
         | |- context [(?a =? ?b)%N] => destruct (N.eqb_spec a b)
         end; simpl; try reflexivity; lia.
Qed.

Lemma printable_outside l c :
  Forall (fun x => printable x = false) l -> printable c = true -> one_of l c = false.
Proof.
  intros Hl Hc. unfold one_of. induction Hl as [|x l Hx _ IH]; simpl; [reflexivity|].
  rewrite IH, orb_false_r. destruct (N.eqb_spec c x); [congruence|reflexivity].
Qed.

Lemma replace_printable l r s :
  Forall (fun x => printable x = false) l ->
  Forall (fun c => printable c = true) s ->
  replaceClass (one_of l) r s = s.
Proof.
  intros Hl Hs. apply replaceClass_id.
  eapply Forall_impl; [exact Hs|]. intros c Hc. simpl. apply printable_outside; assumption.
Qed.

Lemma filter_printable s :
  Forall (fun c => printable c = true) s -> List.filter printable s = s.
Proof.
  induction 1 as [|c s Hc _ IH]; simpl; [reflexivity|]. rewrite Hc, IH. reflexivity.
Qed.

Lemma filter_is_printable s : Forall (fun c => printable c = true) (List.filter printable s).
Proof.
  induction s as [|c s IH]; simpl; [constructor|].
  destruct (printable c) eqn:E; [constructor; assumption|assumption].
Qed.

Lemma collapseWs_printable s :
  Forall (fun c => printable c = true) s ->
  Forall (fun c => printable c = true) (collapseWs s).
Proof.
  unfold collapseWs.
  induction 1 as [|c s Hc Hs IH]; simpl; [constructor|].
  destruct (is_ws c).
  - destruct s as [|d t]; [repeat constructor|].
    destruct (is_ws d); [exact IH|]. constructor; [reflexivity|exact IH].
  - constructor; assumption.
Qed.

(** The output of [collapseWs] starts with white space only where its
    input does, and then with the one space. *)
Lemma collapseWs_head s c t :
  Forall (fun c => printable c = true) s ->
  collapseWs s = c :: t ->
  exists d u, s = d :: u /\ is_ws c = is_ws d.
Proof.
  unfold collapseWs. intros Hs.
  induction Hs as [|d s Hd Hs IH] in c, t |- *; simpl; [discriminate|].
  destruct (is_ws d) eqn:Ed.
  - destruct s as [|e u].
    + intros [= <- <-]. exists d, []. rewrite Ed. auto.
    + destruct (is_ws e) eqn:Ee.
      * intros Hc. destruct (IH _ _ Hc) as (e' & u' & [= <- <-] & Hw).
        exists d, (e :: u). split; [reflexivity|]. congruence.
      * intros [= <- <-]. exists d, (e :: u). rewrite Ed. auto.
  - intros [= <- <-]. exists d, s. auto.
Qed.

Lemma collapseWs_no_run s :
  Forall (fun c => printable c = true) s -> no_ws_run (collapseWs s).
Proof.
  intros Hs. induction Hs as [|c s Hc Hs IH]; [exact I|].
  unfold collapseWs in *. simpl.
  destruct (is_ws c) eqn:Ec.
  - destruct s as [|d t]; [exact I|].
    destruct (is_ws d) eqn:Ed; [exact IH|].
    simpl. simpl in IH. rewrite Ed in *. simpl. split; [|exact IH].
    first [exact Ed | reflexivity | apply andb_false_r].
  - simpl. destruct (collapseRuns is_ws 32%N s) as [|e u] eqn:E; [exact I|].
    split; [|exact IH]. rewrite Ec. reflexivity.
Qed.

Lemma collapseWs_id s :
  Forall (fun c => printable c = true) s -> no_ws_run s -> collapseWs s = s.
Proof.
  unfold collapseWs.
  induction 1 as [|c s Hc Hs IH]; simpl; [reflexivity|].
  destruct s as [|d t].
  - intros _. destruct (is_ws c) eqn:Ec; [|reflexivity].
    rewrite (printable_ws c Hc) in Ec. apply N.eqb_eq in Ec. congruence.
  - intros [Hcd Hr]. specialize (IH Hr).
    destruct (is_ws c) eqn:Ec.
    + simpl in Hcd. rewrite Hcd. rewrite IH.
      rewrite (printable_ws c Hc) in Ec. apply N.eqb_eq in Ec. congruence.
    + rewrite IH. reflexivity.
Qed.

Lemma no_ws_run_app a b : no_ws_run (a ++ b) -> no_ws_run a /\ no_ws_run b.
Proof.
  induction a as [|c a IH]; simpl; [auto|].
  destruct a as [|d a'].
  - simpl. destruct b; [auto|]. intros [_ Hb]. auto.
  - simpl in *. intros [Hcd Hr]. destruct (IH Hr) as [Ha Hb]. auto.
Qed.

Lemma tidy_prefix a b : tidy (a ++ b) -> tidy a.
Proof.
  intros (Hp & Hr & Hh). repeat split.
  - apply Forall_app in Hp. tauto.
  - apply no_ws_run_app in Hr. tauto.
  - intros c t ->. apply (Hh c (t ++ b)). reflexivity.
Qed.

Lemma tidy_take n s : tidy s -> tidy (take n s).
Proof. intros Hs. rewrite <- (take_drop n s) in Hs. eapply tidy_prefix, Hs. Qed.

Lemma tidy_dropEnd p s : tidy s -> tidy (dropEndWhile p s).
Proof.
  intros Hs. destruct (dropEndWhile_prefix p s) as [r E].
  rewrite E in Hs. eapply tidy_prefix, Hs.
Qed.

(** The text before truncation. *)
Lemma tidy_trim_collapse s :
  Forall (fun c => printable c = true) s -> tidy (trim (collapseWs s)).
Proof.
  intros Hs. unfold trim, trimEnd. apply tidy_dropEnd.
  destruct (trimStart_suffix (collapseWs s)) as [r E].
  pose proof (collapseWs_printable s Hs) as Hp.
  pose proof (collapseWs_no_run s Hs) as Hr.
  rewrite E in Hp, Hr. repeat split.
  - apply Forall_app in Hp. tauto.
  - apply no_ws_run_app in Hr. tauto.
  - intros c t Hc. eapply trimStart_head, Hc.
Qed.

Lemma sanitize_tidy s n : 0 <= n ->
  tidy (sanitizeForHeader s n) /\ (length (sanitizeForHeader s n) <= Z.to_nat n)%nat.
Proof.
  intros Hn. unfold sanitizeForHeader, slice0.
  destruct (Z.leb_spec 0 n); [|lia]. split.
  - apply tidy_take, tidy_trim_collapse, filter_is_printable.
  - rewrite length_take. lia.
Qed.

(** The cases of the repository's unit tests (tests/unit/storage):
    smart punctuation, a non-breaking space, tabs and newlines, emoji as
    surrogate pairs, accented letters, runs of spaces, and truncation. *)
Lemma sanitizeForHeader_unit_tests :
  sanitizeForHeader
    ([8220%N] ++ js "Hello," ++ [8221%N] ++ js " she said" ++ [8212; 8220]%N ++ js "it"
     ++ [8217%N] ++ js "s a test" ++ [8230; 8221]%N) default_maxLength
  = [34%N] ++ js "Hello," ++ [34%N] ++ js " she said--" ++ [34%N] ++ js "it's a test..."
    ++ [34%N]
  /\ sanitizeForHeader (js "hello" ++ [160%N] ++ js "world") default_maxLength
     = js "hello world"
  /\ sanitizeForHeader (js "hello" ++ [9%N] ++ js "world" ++ [10%N] ++ js "test")
       default_maxLength
     = js "hello world test"
  /\ sanitizeForHeader
       ([55356; 57256]%N ++ js " Create a beautiful sunset " ++ [55356; 57093]%N
        ++ js " with " ++ [8220%N] ++ js "warm colors" ++ [8221; 8212]%N
        ++ js "very peaceful" ++ [8230%N]) default_maxLength
     = js "Create a beautiful sunset with " ++ [34%N] ++ js "warm colors" ++ [34%N]
       ++ js "--very peaceful..."
  /\ sanitizeForHeader (js "caf" ++ [233%N] ++ js " r" ++ [233%N] ++ js "sum" ++ [233%N])
       default_maxLength
     = js "caf rsum"
  /\ sanitizeForHeader (js "  hello    world  ") default_maxLength = js "hello world"
  /\ sanitizeForHeader (js "Hello, World! (test) [1-2-3]") default_maxLength
     = js "Hello, World! (test) [1-2-3]"
  /\ length (sanitizeForHeader (replicate 600 97%N) default_maxLength) = 500%nat
  /\ length (sanitizeForHeader (replicate 100 97%N) 50) = 50%nat
  /\ sanitizeForHeader [] default_maxLength = [].
Proof. vm_compute. repeat split. Qed.

(** X3: The output is printable ASCII, whatever the maxLength. *)
Theorem sanitize_printable_ascii (s : jsstring) (n : Z) :
  Forall (fun c => printable c = true) (sanitizeForHeader s n).
Proof.
  unfold sanitizeForHeader, slice0.
  match goal with
  | |- context [List.filter printable ?t] =>
      destruct (tidy_trim_collapse _ (filter_is_printable t)) as (Hp & _)
  end.
  destruct (0 <=? n); apply Forall_take, Hp.
Qed.

(** X4: The output is no longer than a maxLength that is not negative. *)
Theorem sanitize_length (s : jsstring) (n : Z) :
  0 <= n -> Z.of_nat (length (sanitizeForHeader s n)) <= n.
Proof. intros Hn. destruct (sanitize_tidy s n Hn) as [_ Hl]. lia. Qed.

Lemma sanitize_length_witness :
  Z.of_nat (length (sanitizeForHeader (replicate 600 97%N) default_maxLength))
  <= default_maxLength.
Proof. apply (sanitize_length (replicate 600 97%N) default_maxLength). unfold default_maxLength. lia. Defined.

Lemma sanitize_is_tidy s n : tidy (sanitizeForHeader s n).
Proof.
  unfold sanitizeForHeader, slice0.
  destruct (0 <=? n); apply tidy_take, tidy_trim_collapse, filter_is_printable.
Qed.

(** On a tidy text only the trailing white space goes before the
    truncation. *)
Lemma sanitize_of_tidy t n :
  tidy t -> sanitizeForHeader t n = slice0 (trimEnd t) n.
Proof.
  intros (Hp & Hr & Hh). unfold sanitizeForHeader.
  repeat (rewrite (replace_printable _ _ t); [| repeat constructor | assumption]).
  rewrite filter_printable by assumption.
  rewrite collapseWs_id by assumption.
  unfold trim. rewrite trimStart_id by assumption. reflexivity.
Qed.

(** With a maxLength that is not negative, sanitizing a second time
    removes the white space a truncation may have left at the end, and
    nothing else. *)
Lemma sanitize_twice s n :
  0 <= n ->
  sanitizeForHeader (sanitizeForHeader s n) n = trimEnd (sanitizeForHeader s n).
Proof.
  intros Hn. destruct (sanitize_tidy s n Hn) as [Ht Hl].
  rewrite sanitize_of_tidy by assumption.
  unfold slice0. destruct (Z.leb_spec 0 n); [|lia].
  apply take_ge. unfold trimEnd.
  pose proof (dropEndWhile_length is_ws (sanitizeForHeader s n)). lia.
Qed.

(** With a negative maxLength, [slice(0, maxLength)] cuts units off the
    end on every pass: a second pass shortens whatever is left. *)
Lemma sanitize_twice_negative s n :
  n < 0 -> sanitizeForHeader s n <> [] ->
  (length (sanitizeForHeader (sanitizeForHeader s n) n) < length (sanitizeForHeader s n))%nat.
Proof.
  intros Hn Hne. rewrite (sanitize_of_tidy _ n (sanitize_is_tidy s n)).
  set (r := sanitizeForHeader s n) in *.
  unfold slice0. destruct (Z.leb_spec 0 n); [lia|].
  pose proof (dropEndWhile_length is_ws r) as Hl. fold (trimEnd r) in Hl.
  rewrite length_take. destruct r; [contradiction|]. cbn [length] in *. lia.
Qed.

Lemma dropEndWhile_snoc p t c :
  dropEndWhile p (t ++ [c]) = if p c then dropEndWhile p t else t ++ [c].
Proof.
  induction t as [|x t IH]; cbn [app dropEndWhile].
  - destruct (p c); reflexivity.
  - rewrite IH. destruct (p c); [reflexivity|].
    destruct t; reflexivity.
Qed.

(** The white space at the end of a tidy text is one space. *)
Lemma tidy_trailing_space r :
  tidy r -> last r = Some 32%N -> r = trimEnd r ++ [32%N].
Proof.
  intros (Hp & Hr & _) Hl. apply last_Some in Hl as [t ->].
  unfold trimEnd. rewrite dropEndWhile_snoc. cbn [is_ws]. f_equal.
  change (is_ws 32) with true. cbv iota.
  symmetry. apply dropEndWhile_id. intros d Hd. apply last_Some in Hd as [u ->].
  rewrite <- app_assoc in Hr. apply no_ws_run_app in Hr as [_ Hr].
  cbn in Hr. destruct Hr as [Hr _]. rewrite andb_true_r in Hr. exact Hr.
Qed.

(** C4, as the code has it.  For a maxLength [n >= 0], sanitizing the
    sanitized text gives it back unchanged exactly when it does not end in
    a space, which is what a truncation in front of a word leaves behind;
    the second pass then removes that one space and nothing else.  For a
    negative [n], where [slice(0, n)] cuts units off the end on every
    pass, it gives the text back unchanged exactly when that is empty. *)
Theorem sanitize_idempotent_iff (s : jsstring) (n : Z) :
  (sanitizeForHeader (sanitizeForHeader s n) n = sanitizeForHeader s n
   <-> if 0 <=? n then last (sanitizeForHeader s n) <> Some 32%N
       else sanitizeForHeader s n = [])
  /\ (0 <= n -> last (sanitizeForHeader s n) = Some 32%N ->
      sanitizeForHeader s n = sanitizeForHeader (sanitizeForHeader s n) n ++ [32%N]).
Proof.
  split.
  - destruct (Z.leb_spec 0 n) as [Hn|Hn].
    + rewrite sanitize_twice by assumption.
      destruct (sanitize_tidy s n Hn) as [(Hp & _ & _) _].
      unfold trimEnd. rewrite dropEndWhile_id. split.
      * intros Hl Hlast. specialize (Hl _ Hlast). discriminate.
      * intros Hl c Hc.
        assert (Hin : c ∈ sanitizeForHeader s n).
        { apply last_Some in Hc as [l' ->]. apply elem_of_app. right. constructor. }
        rewrite Forall_forall in Hp. rewrite (printable_ws c (Hp c Hin)).
        destruct (N.eqb_spec c 32); [subst; contradiction|reflexivity].
    + split.
      * intros E. destruct (sanitizeForHeader s n) as [|c r] eqn:Er; [reflexivity|].
        pose proof (sanitize_twice_negative s n Hn) as Hlt. rewrite Er in Hlt.
        rewrite E in Hlt. specialize (Hlt ltac:(discriminate)). lia.
      * intros E. rewrite E. rewrite sanitize_of_tidy by (rewrite <- E; apply sanitize_is_tidy).
        unfold slice0. destruct (0 <=? n); apply take_nil.
  - intros Hn Hl. rewrite sanitize_twice by assumption.
    apply tidy_trailing_space; [apply sanitize_is_tidy|exact Hl].
Qed.

Lemma sanitize_idempotent_iff_witness :
  sanitizeForHeader (js "a b") 2
  = sanitizeForHeader (sanitizeForHeader (js "a b") 2) 2 ++ [32%N].
Proof.
  apply (proj2 (sanitize_idempotent_iff (js "a b") 2)); [lia|vm_compute; reflexivity].
Defined.

(** C4 as stated fails: a truncation that cuts in front of a word leaves
    a trailing space, which the next pass trims (for the default length
    too); and a negative maxLength cuts from the end again on every pass. *)
Lemma sanitize_not_idempotent :
  sanitizeForHeader (sanitizeForHeader (js "a b") 2) 2 <> sanitizeForHeader (js "a b") 2
  /\ sanitizeForHeader (sanitizeForHeader (replicate 499 97%N ++ js " b") default_maxLength)
       default_maxLength
     <> sanitizeForHeader (replicate 499 97%N ++ js " b") default_maxLength
  /\ sanitizeForHeader (sanitizeForHeader (js "abc") (-1)) (-1)
     <> sanitizeForHeader (js "abc") (-1).
Proof.
  repeat split; intros E; apply (f_equal length) in E; vm_compute in E; discriminate E.
Qed.

End SanitizerFacts.

(* ------------------------------------------------------------------ *)
(** ** The generation ledger *)

Module LedgerFacts.
Import Ledger.

Lemma str_eqb_eq a b : str_eqb a b = true <-> a = b.
Proof. unfold str_eqb. apply bool_decide_eq_true. Qed.

Lemma str_eqb_refl a : str_eqb a a = true.
Proof. apply str_eqb_eq. reflexivity. Qed.

Lemma str_eqb_neq a b : str_eqb a b = false <-> a <> b.
Proof. unfold str_eqb. apply bool_decide_eq_false. Qed.

Lemma elem_of_List_filter {A} (f : A -> bool) (l : list A) x :
  x ∈ List.filter f l <-> x ∈ l /\ f x = true.
Proof. rewrite !list_elem_of_In. apply filter_In. Qed.

Lemma distinct_elem (l : list jsstring) k : k ∈ distinct l <-> k ∈ l.
Proof.
  induction l as [|x l IH]; simpl; [reflexivity|].
  rewrite !elem_of_cons, elem_of_List_filter, IH, negb_true_iff, str_eqb_neq.
  destruct (decide (k = x)); intuition.
Qed.

Lemma distinct_NoDup (l : list jsstring) : NoDup (distinct l).
Proof.
  induction l as [|x l IH]; simpl; constructor.
  - rewrite elem_of_List_filter, negb_true_iff, str_eqb_neq. intuition.
  - apply NoDup_ListNoDup, List.NoDup_filter, NoDup_ListNoDup, IH.
Qed.

Section NoMatch.
Context {num : Type} `{NumOps num} `{SqlSum num}.

Lemma where_since_none since (db : Db num) :
  matches_none since db -> where_since since db = [].
Proof.
  unfold matches_none, where_since. intros Hn. destruct since as [s|].
  - induction (generations_table db) as [|g l IH]; simpl; [reflexivity|].
    destruct (Hn g) as (s' & [= <-] & Hs); [left|]. rewrite Hs.
    apply IH. intros g' Hg'. apply Hn. right. exact Hg'.
  - destruct (generations_table db) as [|g l]; [reflexivity|].
    destruct (Hn g) as (s' & Hs & _); [left|]. discriminate.
Qed.

(** C10: a [since] bound that matches no generation (on the empty ledger
    every bound, and no bound at all) gives the zero summary: total 0,
    count 0, both groupings empty. *)
Theorem getCosts_matches_none (db : Db num) (since : option jsstring) :
  matches_none since db ->
  getCosts db since =
    {| total := nzero; by_provider := ∅; by_model := ∅; generation_count := 0 |}.
Proof.
  intros Hn. unfold getCosts, exec_total, exec_group.
  rewrite (where_since_none _ _ Hn). reflexivity.
Qed.

End NoMatch.

(** Sums over an addition that is associative and commutative with
    zero as its unit, as that of the integers is. *)
Section Monoid.
Context {num : Type} `{NumOps num}.
Hypothesis nadd_assoc : forall a b c : num, nadd a (nadd b c) = nadd (nadd a b) c.
Hypothesis nadd_comm : forall a b : num, nadd a b = nadd b a.
Hypothesis nadd_zero : forall a : num, nadd nzero a = a.

Lemma sum_list_zeros {A} (ks : list A) : sum_list (map (fun _ => nzero) ks) = nzero.
Proof. induction ks as [|k ks IH]; simpl; [reflexivity|]. rewrite IH. apply nadd_zero. Qed.

(** Adding [c] to the one group it belongs to adds [c] to the sum of
    the groups. *)
Lemma sum_groups_add (ks : list jsstring) (f : jsstring -> num) k0 c :
  NoDup ks -> k0 ∈ ks ->
  sum_list (map (fun k => if str_eqb k0 k then nadd c (f k) else f k) ks)
  = nadd c (sum_list (map f ks)).
Proof.
  induction 1 as [|k ks Hk Hnd IH]; [inversion 1|].
  intros Hin. simpl. destruct (str_eqb k0 k) eqn:E.
  - apply str_eqb_eq in E as <-.
    rewrite <- nadd_assoc. f_equal. f_equal. unfold sum_list. f_equal.
    apply map_ext_in. intros k Hin'. destruct (str_eqb k0 k) eqn:E'; [|reflexivity].
    apply str_eqb_eq in E' as <-. apply list_elem_of_In in Hin'. contradiction.
  - apply str_eqb_neq in E. apply elem_of_cons in Hin as [->|Hin]; [contradiction|].
    rewrite (IH Hin). rewrite !nadd_assoc. f_equal. apply nadd_comm.
Qed.

Lemma sum_values_insert (m : gmap jsstring num) k v :
  m !! k = None -> sum_values (<[k:=v]> m) = nadd v (sum_values m).
Proof.
  intros Hk. unfold sum_values. apply (map_fold_insert_L (fun _ v acc => nadd v acc)); [|exact Hk].
  intros j1 j2 z1 z2 y _ _ _. rewrite !nadd_assoc. f_equal. apply nadd_comm.
Qed.

Lemma collect_rows_lookup (rows : list (jsstring * num)) (m : gmap jsstring num) k :
  k ∉ rows.*1 -> fold_left (fun m row => <[row.1 := row.2]> m) rows m !! k = m !! k.
Proof.
  induction rows as [|[k' v] rows IH] in m |- *; simpl; [reflexivity|].
  intros Hk. apply not_elem_of_cons in Hk as [Hne Hk].
  rewrite (IH _ Hk). apply lookup_insert_ne. congruence.
Qed.

Lemma sum_values_collect_rows (rows : list (jsstring * num)) (m : gmap jsstring num) :
  NoDup rows.*1 -> (forall k, k ∈ rows.*1 -> m !! k = None) ->
  sum_values (fold_left (fun m row => <[row.1 := row.2]> m) rows m)
  = nadd (sum_list rows.*2) (sum_values m).
Proof.
  induction rows as [|[k v] rows IH] in m |- *; simpl.
  - intros _ _. symmetry. apply nadd_zero.
  - intros Hnd Hm. apply NoDup_cons in Hnd as [Hk Hnd].
    rewrite IH; [|exact Hnd|].
    + rewrite sum_values_insert by (apply Hm; left).
      rewrite !nadd_assoc. f_equal. apply nadd_comm.
    + intros k' Hk'. rewrite lookup_insert_ne; [apply Hm; right; exact Hk'|].
      intros ->. contradiction.
Qed.

End Monoid.

(** A sum of amounts that are not negative is not negative. *)
Lemma units_nonneg (ks : list Z) : Forall (fun k => 0 <= k) ks -> 0 <= sum_list ks.
Proof.
  induction 1 as [|k ks Hk _ IH]; [reflexivity|].
  change (sum_list (k :: ks)) with (k + sum_list ks). lia.
Qed.

(** Costs that are whole numbers of a unit in which sums of up to
    [limit] units are exact: the addition of the cost type and the
    engine's [SUM] then agree with the sum of the units. *)
Section Exact.
Context {num : Type} `{NumOps num} `{SqlSum num}.
Variable unit_cost : Z -> num.
Variable limit : Z.
Hypothesis nzero_unit : nzero = unit_cost 0.
Hypothesis nadd_units : forall m n : Z,
  0 <= m -> 0 <= n -> m + n <= limit -> nadd (unit_cost m) (unit_cost n) = unit_cost (m + n).
Hypothesis nsum_units : forall ks : list Z,
  ks <> [] -> Forall (fun k => 0 <= k) ks -> sum_list ks <= limit ->
  nsum (map unit_cost ks) = unit_cost (sum_list ks).

Local Abbreviation group_units key k rows units :=
  ((List.filter (fun p : Generation num * Z => str_eqb (key p.1) k) (zip rows units)).*2).

Lemma sum_list_units (ks : list Z) :
  Forall (fun k => 0 <= k) ks -> sum_list ks <= limit ->
  sum_list (map unit_cost ks) = unit_cost (sum_list ks).
Proof.
  induction 1 as [|k ks Hk Hks IH]; [intros _; exact nzero_unit|].
  change (sum_list (k :: ks)) with (k + sum_list ks).
  pose proof (units_nonneg ks Hks) as Hpos. intros Hl.
  change (sum_list (map unit_cost (k :: ks)))
    with (nadd (unit_cost k) (sum_list (map unit_cost ks))).
  rewrite IH by lia. apply nadd_units; lia.
Qed.

Lemma group_costs (key : Generation num -> jsstring) k rows units :
  map cost rows = map unit_cost units ->
  map cost (List.filter (fun g => str_eqb (key g) k) rows)
  = map unit_cost (group_units key k rows units).
Proof.
  induction rows as [|g rows IH] in units |- *; destruct units as [|u units];
    cbn [map]; try discriminate; [reflexivity|].
  intros [= Hc Hr]. cbn [zip_with List.filter fst].
  destruct (str_eqb (key g) k).
  - cbn [fmap list_fmap map snd]. rewrite Hc. f_equal. apply IH, Hr.
  - apply IH, Hr.
Qed.

Lemma group_units_bound (key : Generation num -> jsstring) k rows units :
  Forall (fun k => 0 <= k) units ->
  Forall (fun k => 0 <= k) (group_units key k rows units)
  /\ sum_list (group_units key k rows units) <= sum_list units.
Proof.
  induction rows as [|g rows IH] in units |- *; destruct units as [|u units]; intros Hn;
    cbn [zip_with List.filter fst]; try (split; [constructor|apply units_nonneg, Hn]).
  apply Forall_cons in Hn as [Hu Hn]. destruct (IH units Hn) as [Hg Hs].
  change (sum_list (u :: units)) with (u + sum_list units).
  destruct (str_eqb (key g) k).
  - cbn [fmap list_fmap map snd]. split; [constructor; assumption|].
    match goal with |- sum_list (u :: ?l) <= _ => change (sum_list (u :: l)) with (u + sum_list l) end.
    lia.
  - split; [exact Hg|lia].
Qed.

(** [GROUP BY] splits the rows: the units of the groups add up to the
    units of all rows. *)
Lemma group_units_partition (key : Generation num -> jsstring) ks rows units :
  length rows = length units -> NoDup ks -> (forall g, g ∈ rows -> key g ∈ ks) ->
  sum_list (map (fun k => sum_list (group_units key k rows units)) ks) = sum_list units.
Proof.
  intros Hlen Hnd.
  induction rows as [|g rows IH] in units, Hlen |- *; destruct units as [|u units];
    try discriminate; intros Hks.
  - cbn [zip_with List.filter fmap list_fmap]. apply (sum_list_zeros (H:=Z_ops) Z.add_0_l).
  - injection Hlen as Hlen.
    change (sum_list (u :: units)) with (u + sum_list units).
    rewrite <- (IH units Hlen) by (intros g' Hg'; apply Hks; right; exact Hg').
    rewrite <- (sum_groups_add (H:=Z_ops) Z.add_assoc Z.add_comm ks _ (key g) u Hnd) by (apply Hks; left).
    f_equal. apply map_ext. intros k. cbn [zip_with List.filter fst].
    destruct (str_eqb (key g) k); reflexivity.
Qed.

Lemma collect_rows_fmap (rows : list (jsstring * Z)) (m : gmap jsstring Z) :
  fold_left (fun m row => <[row.1 := row.2]> m) (map (fun r => (r.1, unit_cost r.2)) rows)
    (unit_cost <$> m)
  = unit_cost <$> fold_left (fun m row => <[row.1 := row.2]> m) rows m.
Proof.
  induction rows as [|[k z] rows IH] in m |- *; cbn [map fold_left fst snd]; [reflexivity|].
  rewrite <- IH, fmap_insert. reflexivity.
Qed.

Lemma collect_rows_nonneg (rows : list (jsstring * Z)) (m : gmap jsstring Z) :
  map_Forall (fun _ z => 0 <= z) m -> Forall (fun r => 0 <= r.2) rows ->
  map_Forall (fun _ z => 0 <= z) (fold_left (fun m row => <[row.1 := row.2]> m) rows m).
Proof.
  induction rows as [|[k z] rows IH] in m |- *; cbn [fold_left fst snd]; intros Hm Hr;
    [exact Hm|].
  apply Forall_cons in Hr as [Hz Hr]. apply IH; [|exact Hr].
  apply map_Forall_insert_2; assumption.
Qed.

(** Adding up the values of a grouping, in whatever order the object
    lists its keys. *)
Lemma sum_values_units (m : gmap jsstring Z) :
  map_Forall (fun _ z => 0 <= z) m -> sum_values m <= limit ->
  sum_values (unit_cost <$> m) = unit_cost (sum_values m).
Proof.
  unfold sum_values. rewrite map_fold_fmap, !map_fold_foldr.
  intros Hm%map_Forall_to_list. revert Hm. generalize (map_to_list m) as l. clear m.
  intros l Hm.
  enough (Hgen : 0 <= foldr (uncurry (fun (_ : jsstring) (v acc : Z) => v + acc)) 0 l
                 /\ (foldr (uncurry (fun (_ : jsstring) (v acc : Z) => v + acc)) 0 l <= limit ->
                     foldr (uncurry (fun (_ : jsstring) (z : Z) (acc : num) =>
                                       nadd (unit_cost z) acc)) nzero l
                     = unit_cost (foldr (uncurry (fun (_ : jsstring) (v acc : Z) => v + acc)) 0 l)))
    by (intros Hl; apply Hgen, Hl).
  induction Hm as [|[k z] l Hz Hl [IHp IH]]; cbn [foldr uncurry].
  - split; [reflexivity|intros _; exact nzero_unit].
  - cbn in Hz. split; [lia|]. intros Hlim. rewrite IH by lia. apply nadd_units; lia.
Qed.

(** The grouping [getCosts] builds from a [GROUP BY] adds up to the
    units of the rows it ranges over. *)
Lemma sum_values_group (key : Generation num -> jsstring) (db : Db num) (units : list Z) :
  map cost (generations_table db) = map unit_cost units ->
  Forall (fun k => 0 <= k) units -> sum_list units <= limit ->
  sum_values (collect (exec_group key None db)) = unit_cost (sum_list units).
Proof.
  intros Hc Hn Hl. unfold exec_group. cbn [where_since].
  set (rows := generations_table db) in *.
  destruct (distinct (map key rows)) as [|k0 ks0] eqn:Eks.
  - destruct rows as [|g rows']; [|cbn in Eks; discriminate].
    destruct units; [|discriminate]. cbn [collect]. unfold sum_values. rewrite map_fold_empty.
    exact nzero_unit.
  - cbn [collect]. rewrite <- Eks. clear Eks k0 ks0.
    set (ks := distinct (map key rows)).
    assert (Hlen : length rows = length units).
    { apply (f_equal length) in Hc. rewrite !length_map in Hc. exact Hc. }
    set (z := fun k => sum_list (group_units key k rows units)).
    assert (Hz : forall k, 0 <= z k <= sum_list units).
    { intros k. destruct (group_units_bound key k rows units Hn) as [Hg Hs].
      split; [apply units_nonneg, Hg|exact Hs]. }
    assert (Hin : forall k, k ∈ ks <-> k ∈ map key rows).
    { intros k. subst ks. apply distinct_elem. }
    assert (Hnd : NoDup ks) by (subst ks; apply distinct_NoDup).
    clearbody ks.
    assert (Hrows : map (fun k => (k, nsum (map cost (List.filter (fun g => str_eqb (key g) k) rows)))) ks
                    = map (fun r => (r.1, unit_cost r.2)) (map (fun k => (k, z k)) ks)).
    { rewrite map_map. apply map_ext_in. intros k Hk%list_elem_of_In%Hin. cbn [fst snd].
      f_equal. rewrite (group_costs key k rows units Hc).
      destruct (group_units_bound key k rows units Hn) as [Hg Hs].
      apply nsum_units; [|exact Hg|lia].
      intros Hnil. apply list_elem_of_fmap in Hk as (g & -> & Hg').
      assert (Hne : g ∈ List.filter (fun g' => str_eqb (key g') (key g)) rows).
      { apply elem_of_List_filter. split; [exact Hg'|apply str_eqb_refl]. }
      pose proof (group_costs key (key g) rows units Hc) as Hgc.
      rewrite Hnil in Hgc. apply map_eq_nil in Hgc. rewrite Hgc in Hne. inversion Hne. }
    rewrite Hrows. rewrite <- (fmap_empty unit_cost), collect_rows_fmap.
    assert (HZ : sum_values (fold_left (fun m row => <[row.1 := row.2]> m)
                               (map (fun k => (k, z k)) ks) ∅) = sum_list units).
    { rewrite (sum_values_collect_rows (H:=Z_ops) Z.add_assoc Z.add_comm Z.add_0_l).
      - unfold sum_values at 1. rewrite map_fold_empty. cbn [nadd nzero Z_ops].
        rewrite Z.add_0_r, <- list_fmap_compose.
        apply (group_units_partition key ks rows units Hlen Hnd).
        intros g Hg. apply Hin, list_elem_of_fmap. eauto.
      - rewrite <- list_fmap_compose. cbn. rewrite list_fmap_id. exact Hnd.
      - intros k _. apply lookup_empty. }
    rewrite sum_values_units.
    + rewrite HZ. reflexivity.
    + apply collect_rows_nonneg; [apply map_Forall_empty|].
      apply Forall_fmap, Forall_forall. intros k _. cbn. apply Hz.
    + rewrite HZ. exact Hl.
Qed.


(** A plain running sum is exact on such costs. *)
Lemma fold_left_units (ks : list Z) :
  Forall (fun k => 0 <= k) ks -> sum_list ks <= limit ->
  fold_left nadd (map unit_cost ks) nzero = unit_cost (sum_list ks).
Proof.
  intros Hn Hl. rewrite nzero_unit.
  assert (Hgen : forall a, 0 <= a -> a + sum_list ks <= limit ->
            fold_left nadd (map unit_cost ks) (unit_cost a) = unit_cost (a + sum_list ks)).
  { clear Hl. induction Hn as [|k ks Hk Hks IH]; intros a Ha Hl.
    - cbn [map fold_left]. f_equal. change (sum_list []) with 0. lia.
    - change (sum_list (k :: ks)) with (k + sum_list ks) in *.
      pose proof (units_nonneg ks Hks).
      cbn [map fold_left]. rewrite nadd_units by lia. rewrite IH by lia. f_equal. lia. }
  apply (Hgen 0); [lia|]. lia.
Qed.

End Exact.
End LedgerFacts.

(* ------------------------------------------------------------------ *)
(** ** The selection workflow *)

Module SelectFacts.
Import Ledger Select.

Section Generic.
Context {num : Type} `{NumOps num} {FS : Type} `{FsApi FS} `{Runtime}.

Lemma cleanup_fold_attempts co index imgs (st : CleanupState) :
  map at_path (attempts (fold_left (cleanup_step co index) imgs st))
  = map at_path (attempts st) ++ map preview_url (List.filter (targeted co index) imgs).
Proof.
  induction imgs as [|img imgs IH] in st |- *; simpl.
  - symmetry. apply app_nil_r.
  - rewrite IH. unfold cleanup_step, targeted at 2.
    destruct (isLocalPath (preview_url img)); simpl; [|reflexivity].
    destruct (co || (index_num img =? index)); simpl; [|reflexivity].
    destruct (existsSync (cs_fs st) (preview_url img)); [destruct (unlinkSync _ _)|];
      simpl; rewrite map_app, <- app_assoc; reflexivity.
Qed.

Lemma cleanup_fold_retained co index imgs (st : CleanupState) :
  retainedPreviews (fold_left (cleanup_step co index) imgs st)
  = retainedPreviews st ++ map preview_url (List.filter (spared co index) imgs).
Proof.
  induction imgs as [|img imgs IH] in st |- *; simpl.
  - symmetry. apply app_nil_r.
  - rewrite IH. unfold cleanup_step, spared at 2.
    destruct (isLocalPath (preview_url img)); simpl; [|reflexivity].
    destruct (co || (index_num img =? index)); simpl.
    + destruct (existsSync (cs_fs st) (preview_url img)); [destruct (unlinkSync _ _)|];
        reflexivity.
    + rewrite <- app_assoc. reflexivity.
Qed.

(** The count reported is the number of attempts that found the file
    and unlinked it. *)
Lemma cleanup_fold_deleted co index imgs (st : CleanupState) :
  length (deletedPreviews st) = length (List.filter deleted (attempts st)) ->
  length (deletedPreviews (fold_left (cleanup_step co index) imgs st))
  = length (List.filter deleted (attempts (fold_left (cleanup_step co index) imgs st))).
Proof.
  induction imgs as [|img imgs IH] in st |- *; simpl; [auto|].
  intros Hst. apply IH. unfold cleanup_step.
  destruct (isLocalPath (preview_url img)); simpl; [|exact Hst].
  destruct (co || (index_num img =? index)); simpl; [|exact Hst].
  destruct (existsSync (cs_fs st) (preview_url img)); [destruct (unlinkSync _ _)|];
    simpl; rewrite ?List.filter_app, ?length_app; simpl; lia.
Qed.

(** Each attempt records what the file system answered at that moment:
    the file was unlinked only if it was found. *)
Lemma cleanup_fold_sound co index imgs (st : CleanupState) :
  Forall (fun a => at_unlinked a = true -> at_existed a = true) (attempts st) ->
  Forall (fun a => at_unlinked a = true -> at_existed a = true)
    (attempts (fold_left (cleanup_step co index) imgs st)).
Proof.
  induction imgs as [|img imgs IH] in st |- *; simpl; [auto|].
  intros Hst. apply IH. unfold cleanup_step.
  destruct (isLocalPath (preview_url img)); simpl; [|exact Hst].
  destruct (co || (index_num img =? index)); simpl; [|exact Hst].
  destruct (existsSync (cs_fs st) (preview_url img)); [destruct (unlinkSync _ _)|];
    simpl; apply Forall_app; split; try exact Hst; repeat constructor; auto.
Qed.

(** What a call that returned went through. *)
Lemma selectImage_ok args storage (db : Db num) (fs : FS) now_ms now_iso r :
  result (selectImage args storage db fs now_ms now_iso) = Ok r ->
  exists g imgs sel,
    getGeneration db (arg_generation_id args) = Some g
    /\ images g = Some imgs
    /\ arg_index args < Z.of_nat (length imgs)
    /\ array_get imgs (arg_index args) = Some sel
    /\ let st := cleanup_loop
                   (negb (bool_decide (arg_cleanup_others args = Some false)))
                   (arg_index args) fs imgs in
       delete_attempts (selectImage args storage db fs now_ms now_iso) = attempts st
       /\ deleted_previews (cleanup r) = Z.of_nat (length (deletedPreviews st))
       /\ retained_previews (cleanup r) = retainedPreviews st.
Proof.
  unfold selectImage.
  destruct (getGeneration db (arg_generation_id args)) as [g|]; [|discriminate].
  destruct (images g) as [imgs|] eqn:Ei; [|discriminate].
  destruct (Z.leb_spec (Z.of_nat (length imgs)) (arg_index args)); [discriminate|].
  destruct (array_get imgs (arg_index args)) as [sel|] eqn:Es; [|discriminate].
  destruct (readLocalImage fs (preview_url sel)); [|discriminate].
  match goal with |- context [storage ?o] => destruct (storage o) end; [|discriminate].
  simpl. intros [= <-]. exists g, imgs, sel. simpl. repeat split; auto.
Qed.

(** X1: When is the error InvalidIndex: the generation is stored and its
    image list is absent or not longer than the index. *)
Lemma selectImage_InvalidIndex_iff args storage (db : Db num) (fs : FS) now_ms now_iso i :
  result (selectImage args storage db fs now_ms now_iso) = Throw (InvalidIndex i)
  <-> i = arg_index args /\
      exists g, getGeneration db (arg_generation_id args) = Some g
        /\ match images g with
           | None => True
           | Some imgs => Z.of_nat (length imgs) <= arg_index args
           end.
Proof.
  unfold selectImage.
  destruct (getGeneration db (arg_generation_id args)) as [g|]; simpl.
  2: { split; [discriminate|]. intros (_ & g & Hg & _). discriminate. }
  destruct (images g) as [imgs|] eqn:Ei; simpl.
  2: { split; [intros [= <-]|intros [-> _]]; eauto. split; [reflexivity|].
       exists g. rewrite Ei. auto. }
  destruct (Z.leb_spec (Z.of_nat (length imgs)) (arg_index args)); simpl.
  { split; [intros [= <-]|intros [-> _]]; eauto. split; [reflexivity|].
    exists g. rewrite Ei. auto. }
  assert (Hno : ~ (i = arg_index args /\
                   exists g0, Some g = Some g0 /\
                     match images g0 with
                     | None => True
                     | Some imgs0 => Z.of_nat (length imgs0) <= arg_index args
                     end)).
  { intros (_ & g0 & [= <-] & Hl). rewrite Ei in Hl. lia. }
  destruct (array_get imgs (arg_index args)) as [sel|]; simpl.
  2: { split; [discriminate|]. intros Hc. destruct (Hno Hc). }
  unfold readLocalImage.
  destruct (existsSync fs (preview_url sel)); simpl.
  2: { split; [discriminate|]. intros Hc. destruct (Hno Hc). }
  destruct (readFileSync fs (preview_url sel)); simpl.
  2: { split; [discriminate|]. intros Hc. destruct (Hno Hc). }
  match goal with |- context [storage ?o] => destruct (storage o) end; simpl.
  all: split; [discriminate|]; intros Hc; destruct (Hno Hc).
Qed.

(** A negative index passes the range check and fails on the property
    read of the element that is not there. *)
Lemma selectImage_negative args storage (db : Db num) (fs : FS) now_ms now_iso g imgs :
  getGeneration db (arg_generation_id args) = Some g ->
  images g = Some imgs ->
  arg_index args < 0 ->
  result (selectImage args storage db fs now_ms now_iso) = Throw TypeError.
Proof.
  intros Hg Hi Hneg. unfold selectImage. rewrite Hg, Hi.
  destruct (Z.leb_spec (Z.of_nat (length imgs)) (arg_index args)); [lia|].
  unfold array_get. destruct (Z.ltb_spec (arg_index args) 0); [reflexivity|lia].
Qed.

Lemma filter_none {A} (f : A -> bool) (l : list A) :
  Forall (fun x => f x = false) l -> List.filter f l = [].
Proof. induction 1 as [|x l Hx _ IH]; simpl; [reflexivity|]. rewrite Hx. exact IH. Qed.

Lemma filter_all {A} (f : A -> bool) (l : list A) :
  Forall (fun x => f x = true) l -> List.filter f l = l.
Proof. induction 1 as [|x l Hx _ IH]; simpl; [reflexivity|]. rewrite Hx, IH. reflexivity. Qed.

(** In a list whose images carry their position as [index_num], the
    image at position [i] is the only one with [index_num = i]. *)
Lemma position_split (imgs : list GenerationImage) (i : nat) sel :
  (forall j img, imgs !! j = Some img -> index_num img = Z.of_nat j) ->
  imgs !! i = Some sel ->
  imgs = take i imgs ++ sel :: drop (S i) imgs
  /\ Forall (fun img => (index_num img =? Z.of_nat i) = false) (take i imgs)
  /\ Forall (fun img => (index_num img =? Z.of_nat i) = false) (drop (S i) imgs)
  /\ (index_num sel =? Z.of_nat i) = true.
Proof.
  intros Hpos Hsel. repeat split.
  - symmetry. apply take_drop_middle. exact Hsel.
  - apply Forall_lookup. intros j img Hj.
    apply lookup_take_Some in Hj as [Hj Hlt].
    rewrite (Hpos _ _ Hj). apply Z.eqb_neq. lia.
  - apply Forall_lookup. intros j img Hj.
    rewrite lookup_drop in Hj.
    rewrite (Hpos _ _ Hj). apply Z.eqb_neq. lia.
  - rewrite (Hpos _ _ Hsel). apply Z.eqb_refl.
Qed.

(** C2, as the code has it.  A call that returned, on a generation whose
    [k] previews are all local paths: the count it reports is the number
    of attempts that found the file and unlinked it (an [unlinkSync] that
    throws is not counted); with [cleanup_others] not false there is one
    attempt per preview, [k] in all, in order; with [cleanup_others] false
    and every image carrying its position as [index_num], the one attempt
    is on the selected preview and the other [k - 1] paths are the
    retained ones. *)
Theorem selectImage_cleanup_counts
    args storage (db : Db num) (fs : FS) now_ms now_iso r g imgs :
  result (selectImage args storage db fs now_ms now_iso) = Ok r ->
  getGeneration db (arg_generation_id args) = Some g ->
  images g = Some imgs ->
  Forall (fun img => isLocalPath (preview_url img) = true) imgs ->
  deleted_previews (cleanup r)
    = Z.of_nat (length (List.filter deleted
                          (delete_attempts (selectImage args storage db fs now_ms now_iso))))
  /\ (arg_cleanup_others args <> Some false ->
        map at_path (delete_attempts (selectImage args storage db fs now_ms now_iso))
        = map preview_url imgs)
  /\ (arg_cleanup_others args = Some false ->
        (forall j img, imgs !! j = Some img -> index_num img = Z.of_nat j) ->
        exists sel,
          imgs !! Z.to_nat (arg_index args) = Some sel
          /\ map at_path (delete_attempts (selectImage args storage db fs now_ms now_iso))
             = [preview_url sel]
          /\ retained_previews (cleanup r)
             = map preview_url (take (Z.to_nat (arg_index args)) imgs
                                ++ drop (S (Z.to_nat (arg_index args))) imgs)).
Proof.
  intros Hok Hg Hi Hloc.
  destruct (selectImage_ok _ _ _ _ _ _ _ Hok) as (g' & imgs' & sel & Hg' & Hi' & Hlt & Hsel & Hst).
  rewrite Hg in Hg'. injection Hg' as <-. rewrite Hi in Hi'. injection Hi' as <-.
  simpl in Hst. destruct Hst as (Ha & Hd & Hr). rewrite Ha, Hd, Hr. clear Ha Hd Hr.
  unfold cleanup_loop. repeat split.
  - f_equal. apply cleanup_fold_deleted. reflexivity.
  - intros Hco. rewrite cleanup_fold_attempts. simpl. f_equal.
    apply filter_all. eapply Forall_impl; [exact Hloc|]. intros img Himg. simpl in *.
    unfold targeted. rewrite Himg.
    destruct (bool_decide_reflect (arg_cleanup_others args = Some false)); [contradiction|].
    reflexivity.
  - intros Hco Hpos. exists sel.
    unfold array_get in Hsel.
    destruct (Z.ltb_spec (arg_index args) 0); [discriminate|].
    destruct (position_split imgs _ sel Hpos Hsel) as (Himgs & Hbefore & Hafter & Hat).
    rewrite Z2Nat.id in Hbefore, Hafter, Hat by assumption.
    split; [exact Hsel|].
    rewrite cleanup_fold_attempts, cleanup_fold_retained. simpl.
    rewrite Hco. simpl.
    assert (Hloc' := Hloc). rewrite Himgs in Hloc'.
    apply Forall_app in Hloc' as [Hl1 Hl2]. apply Forall_cons in Hl2 as [Hls Hl2].
    split.
    + rewrite Himgs at 1. rewrite List.filter_app. simpl.
      unfold targeted at 2. rewrite Hls, Hat. simpl.
      rewrite !filter_none; [reflexivity| |].
      * eapply Forall_impl; [exact Hafter|]. intros img Himg. simpl in *.
        unfold targeted. rewrite Himg. apply andb_false_r.
      * eapply Forall_impl; [exact Hbefore|]. intros img Himg. simpl in *.
        unfold targeted. rewrite Himg. apply andb_false_r.
    + rewrite Himgs at 1. rewrite List.filter_app. simpl.
      unfold spared at 2. rewrite Hls, Hat. simpl.
      rewrite !filter_all; [reflexivity| |].
      * apply Forall_forall. intros img Himg.
        rewrite Forall_forall in Hafter, Hl2. unfold spared.
        rewrite (Hl2 _ Himg), (Hafter _ Himg). reflexivity.
      * apply Forall_forall. intros img Himg.
        rewrite Forall_forall in Hbefore, Hl1. unfold spared.
        rewrite (Hl1 _ Himg), (Hbefore _ Himg). reflexivity.
Qed.

(** C9: for an id that is not stored, [markSelected] returns normally and
    leaves both tables as they were; the missing id is noticed one layer
    up, where [getGeneration] answers [null] and [selectImage] throws
    NotFound. *)
Theorem markSelected_absent_id
    (db : Db num) gid index storageKey publicUrl now_iso storage (fs : FS) now_ms args :
  Forall (fun g => id g <> gid) (generations_table db) ->
  arg_generation_id args = gid ->
  markSelected db gid index storageKey publicUrl now_iso = (Ok tt, db)
  /\ getGeneration db gid = None
  /\ result (selectImage args storage db fs now_ms now_iso) = Throw (NotFound gid).
Proof.
  intros Habs Hargs.
  assert (Hnone : getGeneration db gid = None).
  { unfold getGeneration. rewrite filter_none; [reflexivity|].
    eapply Forall_impl; [exact Habs|]. intros g Hg. simpl.
    apply LedgerFacts.str_eqb_neq. exact Hg. }
  repeat split.
  - clear Hnone. unfold markSelected. f_equal. destruct db as [gens imgs]. simpl in *. f_equal.
    induction Habs as [|g l Hg _ IH]; simpl; [reflexivity|].
    rewrite IH. apply LedgerFacts.str_eqb_neq in Hg. rewrite Hg. reflexivity.
  - exact Hnone.
  - unfold selectImage. rewrite Hargs, Hnone. reflexivity.
Qed.

End Generic.
End SelectFacts.

Module SelectRuns.
Import Ledger Select SelectFacts Sim Examples.

(** C1, where the code departs from it: index -1 on a stored
    generation with two images.  The range check lets it through
    ([-1 >= 2] is false), no image is found at that position, and the
    call ends in the runtime's TypeError, not in InvalidIndex. *)
Theorem selectImage_negative_index :
  result (selectImage (select_args "g1" (-1) None) blob_store ledger
            (preview_area false) noon iso_noon)
  = Throw TypeError.
Proof. vm_compute. reflexivity. Qed.

(** The upper boundary and the absent list do fail with InvalidIndex. *)
Lemma selectImage_index_at_length :
  result (selectImage (select_args "g1" 2 None) blob_store ledger
            (preview_area false) noon iso_noon)
  = Throw (InvalidIndex 2)
  /\ result (selectImage (select_args "g4" 0 None) blob_store ledger
               (preview_area false) noon iso_noon)
     = Throw (InvalidIndex 0)
  /\ result (selectImage (select_args "g4" (-1) None) blob_store ledger
               (preview_area false) noon iso_noon)
     = Throw (InvalidIndex (-1)).
Proof. vm_compute. repeat split. Qed.

(** C2 as stated fails: with [0.png] write-protected both previews of
    generation g1 exist when their deletion is tried, and the call reports
    one deleted preview, not two. *)
Lemma cleanup_count_counterexample :
  exists r,
    result (selectImage (select_args "g1" 1 None) blob_store ledger
              (preview_area true) noon iso_noon) = Ok r
    /\ map at_existed
         (delete_attempts (selectImage (select_args "g1" 1 None) blob_store ledger
                             (preview_area true) noon iso_noon))
       = [true; true]
    /\ deleted_previews (cleanup r) = 1.
Proof. eexists. vm_compute. repeat split. Qed.

(** The loop finds the selected preview by [index_num], the upload by
    position.  Generation g3 holds one image, with [index_num] 1: selecting
    position 0 with [cleanup_others] false uploads it, tries no deletion
    and reports the selected preview as retained. *)
Lemma selectImage_index_num_mismatch :
  exists r,
    result (selectImage (select_args "g3" 0 (Some false)) blob_store ledger
              (preview_area false) noon iso_noon) = Ok r
    /\ delete_attempts (selectImage (select_args "g3" 0 (Some false)) blob_store ledger
                          (preview_area false) noon iso_noon) = []
    /\ retained_previews (cleanup r) = [js "/tmp/previews/gen-3/1.png"].
Proof. eexists. vm_compute. repeat split. Qed.

Lemma g1_images :
  getGeneration ledger (js "g1")
  = Some (with_images (Examples.generation "g1" "gemini" "gemini-2.5-flash-image"
                         0.078%float "2025-01-05T10:00:00.000Z")
            (Some [image "g1" 0 "/tmp/previews/gen-1/0.png";
                   image "g1" 1 "/tmp/previews/gen-1/1.png"])).
Proof. vm_compute. reflexivity. Qed.

Lemma selectImage_cleanup_counts_witness :
  exists r,
    result (selectImage (select_args "g1" 1 (Some false)) blob_store ledger
              (preview_area false) noon iso_noon) = Ok r
    /\ deleted_previews (cleanup r) = 1
    /\ map at_path
         (delete_attempts (selectImage (select_args "g1" 1 (Some false)) blob_store ledger
                             (preview_area false) noon iso_noon))
       = [js "/tmp/previews/gen-1/1.png"]
    /\ retained_previews (cleanup r) = [js "/tmp/previews/gen-1/0.png"].
Proof.
  eexists. split; [vm_compute; reflexivity|].
  edestruct (selectImage_cleanup_counts (select_args "g1" 1 (Some false)) blob_store
               ledger (preview_area false) noon iso_noon)
    as (Hd & _ & Hone).
  - vm_compute. reflexivity.
  - exact g1_images.
  - reflexivity.
  - repeat constructor.
  - destruct Hone as (sel & Hsel & Ha & Hr).
    + reflexivity.
    + intros [|[|j]] img [= <-]; reflexivity.
    + injection Hsel as <-. split; [exact Hd|]. split; [exact Ha|exact Hr].
Defined.

Lemma markSelected_absent_id_witness :
  markSelected ledger (js "g9") 0 (js "k") (js "https://cdn.example.com/k") iso_noon
  = (Ok tt, ledger)
  /\ getGeneration ledger (js "g9") = None
  /\ result (selectImage (select_args "g9" 0 None) blob_store ledger
               (preview_area false) noon iso_noon)
     = Throw (NotFound (js "g9")).
Proof.
  apply (markSelected_absent_id ledger (js "g9")).
  - repeat constructor; discriminate.
  - reflexivity.
Defined.

End SelectRuns.


(* ------------------------------------------------------------------ *)
(** ** Numbers printed with a fixed number of decimals *)

Module NumberFacts.
Import Templater JSNumber.

Lemma uint_digits (d : Decimal.uint) :
  Forall (fun c => is_digit c = true) (js (NilEmpty.string_of_uint d)).
Proof. induction d; simpl; constructor; (reflexivity || assumption). Qed.

Lemma intToString_digits (n : Z) :
  0 <= n -> Forall (fun c => is_digit c = true) (intToString n).
Proof.
  intros Hn. unfold intToString. destruct n as [|p|p]; [repeat constructor| |lia].
  simpl. unfold NilZero.string_of_uint.
  destruct (Pos.to_uint p) eqn:E; try apply uint_digits. repeat constructor.
Qed.

(** With at least one decimal asked for, the digits come as a non-empty
    integer part, the point, and exactly that many decimals. *)
Lemma fixed_digits_shape (fd : nat) (n : Z) :
  0 <= n ->
  exists a b,
    fixed_digits (S fd) n = a ++ js "." ++ b
    /\ a <> [] /\ length b = S fd
    /\ Forall (fun c => is_digit c = true) (a ++ b).
Proof.
  intros Hn. unfold fixed_digits.
  set (m := replicate (S fd + 1 - length (intToString n)) 48%N ++ intToString n).
  assert (Hlen : (S fd + 1 <= length m)%nat).
  { unfold m. rewrite length_app, length_replicate. lia. }
  exists (take (length m - S fd) m), (drop (length m - S fd) m).
  repeat split.
  - intros E. apply (f_equal length) in E. rewrite length_take in E. simpl in E. lia.
  - rewrite length_drop. lia.
  - rewrite take_drop. unfold m. apply Forall_app. split.
    + apply Forall_replicate. reflexivity.
    + apply intToString_digits. exact Hn.
Qed.

Lemma round_scaled_nonneg fd m e : 0 <= m -> 0 <= round_scaled fd m e.
Proof.
  intros Hm. unfold round_scaled.
  destruct (Z.leb_spec 0 e).
  - apply Z.mul_nonneg_nonneg; [apply Z.mul_nonneg_nonneg; [lia|]|]; apply Z.pow_nonneg; lia.
  - assert (0 < 2 ^ (- e)) by (apply Z.pow_pos_nonneg; lia).
    assert (0 <= m * 10 ^ Z.of_nat fd)
      by (apply Z.mul_nonneg_nonneg; [lia | apply Z.pow_nonneg; lia]).
    apply Z.div_pos; lia.
Qed.

Section ToFixed.
Context `{Runtime}.

(** A finite number of magnitude below 10^21 prints, with one decimal
    asked for, as an optional sign, one or more digits, the point and one
    digit. *)
Lemma toFixed_one_decimal (x : float) :
  below_1e21 x = true ->
  exists a d,
    toFixed 1 x = sign_of x ++ a ++ js "." ++ [d]
    /\ a <> [] /\ Forall (fun c => is_digit c = true) (a ++ [d]).
Proof.
  unfold below_1e21, toFixed, sign_of.
  destruct (Prim2SF x) as [z| | |s m e]; try discriminate; intros Hx.
  - exists (js "0"), 48%N. repeat split; [discriminate | repeat constructor].
  - apply negb_true_iff in Hx. rewrite Hx.
    destruct (fixed_digits_shape 0 (round_scaled 1 (Z.pos m) e)) as (a & b & E & Ha & Hb & Hd).
    { apply round_scaled_nonneg. lia. }
    destruct b as [|d [|]]; try discriminate.
    exists a, d. rewrite E. destruct s; auto.
Qed.

End ToFixed.
End NumberFacts.

(* ------------------------------------------------------------------ *)
(** ** The path templater *)

Module TemplaterFacts.
Import Templater Examples.

(** The example of the specification: on 2025-01-09 the code and the
    described expansion both give [2025/01/09/x.png]. *)
Lemma generateStoragePath_example :
  generateStoragePath today (js "{year}/{month}/{day}/{filename}") (js "x.png")
  = js "2025/01/09/x.png"
  /\ expand_spec today (js "{year}/{month}/{day}/{filename}") (js "x.png")
     = js "2025/01/09/x.png".
Proof. vm_compute. split; reflexivity. Qed.

(** C5, where the code departs from it.  [String.prototype.replace] with
    a string pattern replaces the first occurrence only, so a second
    [{year}] stays in the path; and it reads [$&] in the replacement
    text as the matched token, so a file name is not always put in
    verbatim. *)
Theorem generateStoragePath_first_occurrence_only :
  generateStoragePath today (js "{year}/{year}-{month}/{filename}") (js "x.png")
  = js "2025/{year}-01/x.png"
  /\ expand_spec today (js "{year}/{year}-{month}/{filename}") (js "x.png")
     = js "2025/2025-01/x.png"
  /\ generateStoragePath today (js "{day}/{filename}") (js "a$&b.png")
     = js "09/a{filename}b.png"
  /\ expand_spec today (js "{day}/{filename}") (js "a$&b.png")
     = js "09/a$&b.png".
Proof. vm_compute. repeat split. Qed.

(** The cases of the repository's unit tests. *)
Lemma generateStoragePath_unit_tests :
  generateStoragePath {| getFullYear := 2025; getMonth := 2; getDate := 15 |}
    (js "{year}/{month}/{day}/{filename}") (js "test.png")
  = js "2025/03/15/test.png"
  /\ generateStoragePath {| getFullYear := 2025; getMonth := 0; getDate := 5 |}
       (js "{year}/{month}/{day}/{filename}") (js "image.jpg")
     = js "2025/01/05/image.jpg"
  /\ generateStoragePath {| getFullYear := 2025; getMonth := 5; getDate := 20 |}
       (js "images/{filename}") (js "photo.png")
     = js "images/photo.png".
Proof. vm_compute. repeat split. Qed.

(** Text without a token is left as it is, unrecognized tokens included. *)
Lemma generateStoragePath_other_text :
  generateStoragePath today (js "images/{hour}/{Year}/static.png") (js "x.png")
  = js "images/{hour}/{Year}/static.png".
Proof. vm_compute. reflexivity. Qed.

(* Templates given by their pieces. *)

Lemma quiet_app c2 a b : quiet c2 a = true -> quiet c2 b = true -> quiet c2 (a ++ b) = true.
Proof.
  induction a as [|x r IH]; [auto|].
  cbn [quiet app]. intros [Hx Hr]%andb_true_iff Hb.
  rewrite (IH Hr Hb), andb_true_r.
  destruct (x =? 123)%N; [|reflexivity].
  destruct r as [|y r']; [discriminate|exact Hx].
Qed.

Lemma quiet_concat c2 (l : list jsstring) :
  Forall (fun s => quiet c2 s = true) l -> quiet c2 (concat l) = true.
Proof.
  induction 1 as [|s l Hs _ IH]; [reflexivity|]. cbn [concat]. apply quiet_app; assumption.
Qed.

Lemma brace_free_quiet c2 s : Forall (fun c => c <> 123%N) s -> quiet c2 s = true.
Proof.
  induction 1 as [|c s Hc _ IH]; [reflexivity|]. cbn [quiet]. rewrite IH, andb_true_r.
  destruct (N.eqb_spec c 123); [contradiction|reflexivity].
Qed.

Lemma startsWith_app_self (t u : jsstring) : startsWith (t ++ u) t = true.
Proof.
  induction t as [|x t IH]; [destruct u; reflexivity|].
  cbn [app startsWith]. rewrite N.eqb_refl. exact IH.
Qed.

Lemma startsWith_blocked c2 tl a r rest :
  (if (a =? 123)%N
   then match r with
        | b :: _ => negb (b =? c2)%N
        | [] => false
        end
   else true) = true ->
  startsWith (a :: r ++ rest) (123%N :: c2 :: tl) = false.
Proof.
  intros Ha. cbn [startsWith]. rewrite N.eqb_sym.
  destruct (a =? 123)%N; [|reflexivity].
  destruct r as [|b r']; [discriminate|]. cbn [app startsWith].
  apply negb_true_iff in Ha. rewrite N.eqb_sym, Ha. reflexivity.
Qed.

(** In front of the first place where a token marked [c2] can start. *)
Lemma splitFirst_found c2 tl tok pre post :
  tok = 123%N :: c2 :: tl ->
  quiet c2 pre = true ->
  splitFirst (pre ++ tok ++ post) tok = Some (pre, post).
Proof.
  intros Etok. induction pre as [|a r IH].
  - intros _. cbn [app].
    assert (Hsplit : forall s, splitFirst s tok
                     = if startsWith s tok then Some ([], drop (length tok) s)
                       else match s with
                            | [] => None
                            | c :: r => match splitFirst r tok with
                                        | Some (a, b) => Some (c :: a, b)
                                        | None => None
                                        end
                            end)
      by (intros [|? ?]; reflexivity).
    rewrite Hsplit, startsWith_app_self, drop_app_length. reflexivity.
  - cbn [quiet]. intros [Ha Hr]%andb_true_iff.
    change ((a :: r) ++ tok ++ post) with (a :: (r ++ tok ++ post)).
    cbn [splitFirst]. rewrite (IH Hr). rewrite Etok at 2.
    rewrite (startsWith_blocked c2 tl a r (tok ++ post) Ha). reflexivity.
Qed.

Lemma splitFirst_absent c2 tl s :
  quiet c2 s = true -> splitFirst s (123%N :: c2 :: tl) = None.
Proof.
  induction s as [|a r IH]; [reflexivity|].
  cbn [quiet]. intros [Ha Hr]%andb_true_iff.
  cbn [splitFirst]. rewrite (IH Hr).
  pose proof (startsWith_blocked c2 tl a r [] Ha) as Hb. rewrite app_nil_r in Hb.
  rewrite Hb. reflexivity.
Qed.

(** A replacement text without a dollar sign is put in as it is. *)
Lemma getSubstitution_plain matched pre post v :
  Forall (fun c => c <> 36%N) v -> getSubstitution matched pre post v = v.
Proof.
  induction 1 as [|c v Hc _ IH]; [reflexivity|]. cbn [getSubstitution].
  destruct (N.eqb_spec c 36); [contradiction|]. rewrite IH. reflexivity.
Qed.

Lemma token_text_mark k : exists tl, token_text k = 123%N :: token_mark k :: tl.
Proof. destruct k; eexists; reflexivity. Qed.

Lemma other_token_quiet k k' : k' <> k -> quiet (token_mark k) (token_text k') = true.
Proof. destruct k, k'; intros Hne; try contradiction; reflexivity. Qed.

(** The digits of a date have neither brace nor dollar sign. *)
Lemma intToString_plain (n : Z) :
  Forall (fun c => c <> 123%N /\ c <> 36%N) (intToString n).
Proof.
  assert (Hd : forall s, Forall (fun c => JSNumber.is_digit c = true) s ->
                         Forall (fun c => c <> 123%N /\ c <> 36%N) s).
  { intros s Hs. eapply Forall_impl; [exact Hs|].
    intros c Hc. split; intros ->; discriminate. }
  unfold intToString. destruct n as [|p|p].
  - repeat constructor; discriminate.
  - apply Hd. apply (NumberFacts.intToString_digits (Z.pos p)). lia.
  - cbn [Z.to_int NilZero.string_of_int]. unfold js; fold js. constructor.
    + split; discriminate.
    + apply Hd. unfold NilZero.string_of_uint.
      destruct (Pos.to_uint p) eqn:E; try apply NumberFacts.uint_digits. repeat constructor.
Qed.

Lemma padStart2_plain s :
  Forall (fun c => c <> 123%N /\ c <> 36%N) s ->
  Forall (fun c => c <> 123%N /\ c <> 36%N) (padStart2 s).
Proof.
  intros Hs. unfold padStart2. apply Forall_app. split; [|exact Hs].
  apply Forall_replicate. split; discriminate.
Qed.

Lemma date_value_plain now filename k :
  k <> TFilename ->
  Forall (fun c => c <> 123%N /\ c <> 36%N) (token_value now filename k).
Proof.
  destruct k; intros Hk; try contradiction; cbn [token_value];
    repeat apply padStart2_plain; apply intToString_plain.
Qed.

Lemma render_app now filename done a b :
  render now filename done (a ++ b)
  = render now filename done a ++ render now filename done b.
Proof. unfold render. rewrite map_app, concat_app. reflexivity. Qed.

Lemma render_ext now filename done done' pieces :
  (forall k, k ∈ tokens_of pieces -> done k = done' k) ->
  render now filename done pieces = render now filename done' pieces.
Proof.
  unfold render, tokens_of. induction pieces as [|[t|k] pieces IH]; intros Hd.
  - reflexivity.
  - cbn [map concat]. f_equal. apply IH. exact Hd.
  - cbn [map concat]. rewrite (Hd k) by (cbn; left). f_equal.
    apply IH. intros k' Hk'. apply Hd. cbn. right. exact Hk'.
Qed.

Lemma tokens_of_app a b : tokens_of (a ++ b) = tokens_of a ++ tokens_of b.
Proof. unfold tokens_of. apply omap_app. Qed.

(** The first occurrence of a token among the pieces, if there is one. *)
Lemma first_token k pieces :
  k ∉ tokens_of pieces
  \/ exists before after, pieces = before ++ Tok k :: after /\ k ∉ tokens_of before.
Proof.
  induction pieces as [|p pieces [IH|(before & after & -> & Hb)]].
  - left. cbn. apply not_elem_of_nil.
  - destruct p as [t|k'].
    + left. exact IH.
    + destruct (decide (k' = k)) as [->|Hne].
      * right. exists [], pieces. split; [reflexivity|]. cbn. apply not_elem_of_nil.
      * left. cbn. apply not_elem_of_cons. split; [congruence|exact IH].
  - destruct p as [t|k'].
    + right. exists (Text t :: before), after. split; [reflexivity|exact Hb].
    + destruct (decide (k' = k)) as [->|Hne].
      * right. exists [], (before ++ Tok k :: after). split; [reflexivity|].
        cbn. apply not_elem_of_nil.
      * right. exists (Tok k' :: before), after. split; [reflexivity|].
        cbn. apply not_elem_of_cons. split; [congruence|exact Hb].
Qed.

Section Pieces.
Variables (now : LocalDate) (filename : jsstring).

(** Pieces in which no token marked like [k] can start: brace-free text,
    other tokens, and brace-free values. *)
Lemma render_quiet done k pieces :
  Forall (fun p => match p with Text t => Forall (fun c => c <> 123%N) t | Tok _ => True end)
    pieces ->
  (forall k', done k' = true -> Forall (fun c => c <> 123%N) (token_value now filename k')) ->
  k ∉ tokens_of pieces ->
  quiet (token_mark k) (render now filename done pieces) = true.
Proof.
  intros Htext Hval Hk. unfold render. apply quiet_concat.
  apply Forall_fmap. apply Forall_forall. intros [t|k'] Hin; cbn.
  - apply brace_free_quiet. rewrite Forall_forall in Htext. apply (Htext (Text t) Hin).
  - destruct (done k') eqn:Ed.
    + apply brace_free_quiet, Hval, Ed.
    + apply other_token_quiet. intros ->. apply Hk.
      unfold tokens_of. apply list_elem_of_omap. exists (Tok k). auto.
Qed.

(** One [replace] of [generateStoragePath]: among pieces that hold the
    token at most once, it gives way to its value. *)
Lemma replace_step done k pieces :
  done k = false ->
  NoDup (tokens_of pieces) ->
  Forall (fun p => match p with Text t => Forall (fun c => c <> 123%N) t | Tok _ => True end)
    pieces ->
  (forall k', done k' = true -> Forall (fun c => c <> 123%N) (token_value now filename k')) ->
  Forall (fun c => c <> 36%N) (token_value now filename k) ->
  replace (render now filename done pieces) (token_text k) (token_value now filename k)
  = render now filename (fun k' => if decide (k' = k) then true else done k') pieces.
Proof.
  intros Hk Hnd Htext Hval Hplain.
  destruct (token_text_mark k) as [tl Etok]. unfold replace.
  destruct (first_token k pieces) as [Habs|(before & after & -> & Hb)].
  - rewrite Etok, splitFirst_absent by (apply render_quiet; assumption).
    apply render_ext. intros k' Hk'. destruct (decide (k' = k)) as [->|]; [contradiction|reflexivity].
  - rewrite tokens_of_app in Hnd. cbn in Hnd.
    apply NoDup_app in Hnd as (_ & Hdis & Hnd'). apply NoDup_cons in Hnd' as [Ha _].
    apply Forall_app in Htext as [Htb Hta]. apply Forall_cons in Hta as [_ Hta].
    rewrite render_app. unfold render at 2. cbn [map concat]. rewrite Hk.
    fold (render now filename done after).
    rewrite (splitFirst_found (token_mark k) tl) by (try apply render_quiet; assumption).
    rewrite getSubstitution_plain by assumption.
    rewrite render_app. unfold render at 4. cbn [map concat].
    destruct (decide (k = k)); [|contradiction].
    fold (render now filename (fun k' => if decide (k' = k) then true else done k') after).
    f_equal; [|f_equal]; apply render_ext; intros k' Hk';
      destruct (decide (k' = k)) as [->|]; try reflexivity; contradiction.
Qed.

End Pieces.

(** Month and day come out two units wide. *)
Lemma padStart2_width (m : Z) :
  0 <= m < 100 -> length (padStart2 (intToString m)) = 2%nat.
Proof.
  assert (Hall : Forall (fun m => length (padStart2 (intToString m)) = 2%nat) (seqZ 0 100))
    by (vm_compute; repeat constructor).
  intros Hm. rewrite Forall_forall in Hall. apply Hall, elem_of_seqZ. lia.
Qed.

(** X5: The path template property, where the code has it: a template made
    of brace-free text and of tokens, none of them twice, and a file name
    without a dollar sign.  Then every token gives way to its value (the
    year, the month and the day padded to two digits, the file name as it
    is) and the text stays. *)
Theorem generateStoragePath_pieces (now : LocalDate) (filename : jsstring)
    (pieces : list piece) :
  NoDup (tokens_of pieces) ->
  Forall (fun p => match p with Text t => Forall (fun c => c <> 123%N) t | Tok _ => True end)
    pieces ->
  Forall (fun c => c <> 36%N) filename ->
  generateStoragePath now (render now filename (fun _ => false) pieces) filename
  = render now filename (fun _ => true) pieces.
Proof.
  intros Hnd Htext Hfile.
  assert (Hdate : forall k, k <> TFilename ->
            Forall (fun c => c <> 123%N) (token_value now filename k)
            /\ Forall (fun c => c <> 36%N) (token_value now filename k)).
  { intros k Hk. pose proof (date_value_plain now filename k Hk) as Hp.
    split; (eapply Forall_impl; [exact Hp|]); intros c [? ?]; assumption. }
  change (replace
            (replace
               (replace
                  (replace (render now filename (fun _ => false) pieces)
                     (token_text TYear) (token_value now filename TYear))
                  (token_text TMonth) (token_value now filename TMonth))
               (token_text TDay) (token_value now filename TDay))
            (token_text TFilename) (token_value now filename TFilename)
          = render now filename (fun _ => true) pieces).
  rewrite (replace_step now filename _ TYear pieces); try assumption;
    [|reflexivity|discriminate|apply Hdate; discriminate].
  rewrite (replace_step now filename _ TMonth pieces); try assumption;
    [|reflexivity| |apply Hdate; discriminate].
  2: { intros [] Hd; try discriminate Hd; apply Hdate; discriminate. }
  rewrite (replace_step now filename _ TDay pieces); try assumption;
    [|reflexivity| |apply Hdate; discriminate].
  2: { intros [] Hd; try discriminate Hd; apply Hdate; discriminate. }
  rewrite (replace_step now filename _ TFilename pieces); try assumption;
    [|reflexivity|].
  2: { intros [] Hd; try discriminate Hd; apply Hdate; discriminate. }
  apply render_ext. intros [] _; reflexivity.
Qed.

Lemma generateStoragePath_pieces_witness :
  generateStoragePath today
    (render today (js "x.png") (fun _ => false)
       [Text (js "images/"); Tok TYear; Text (js "/"); Tok TMonth; Text (js "/");
        Tok TDay; Text (js "-"); Tok TFilename])
    (js "x.png")
  = render today (js "x.png") (fun _ => true)
      [Text (js "images/"); Tok TYear; Text (js "/"); Tok TMonth; Text (js "/");
       Tok TDay; Text (js "-"); Tok TFilename].
Proof.
  apply (generateStoragePath_pieces today (js "x.png")).
  - apply (bool_decide_unpack _). vm_compute. exact I.
  - repeat constructor; discriminate.
  - repeat constructor; discriminate.
Defined.

End TemplaterFacts.

(* ------------------------------------------------------------------ *)
(** ** The generation workflow *)

Module GenerateFacts.
Import Templater JSNumber Generate.

Section Generic.
Context {FS : Type} `{FsApi FS} `{Runtime} `{SqlSum float}.

(** A url that does not start with [data:] is not kept. *)
Lemma bare_url_not_kept (img : GeneratedImage) :
  startsWith (url img) (js "data:") = false -> kept img = false.
Proof. intros Hu. unfold kept, dataUrlToBuffer. rewrite Hu. reflexivity. Qed.

Lemma save_previews_ok (fs fs' : FS) dir imgs saved out :
  save_previews fs dir imgs saved = (Ok out, fs') ->
  out = saved ++ map (saved_of dir) (List.filter kept imgs).
Proof.
  induction imgs as [|img imgs IH] in fs, saved |- *; cbn [save_previews List.filter map].
  - intros [= <- _]. symmetry. apply app_nil_r.
  - unfold kept at 1.
    destruct (dataUrlToBuffer (url img)) as [data|] eqn:Ed; [|apply IH].
    destruct (writeFileSync fs _ (d_buffer data)) as [fs1|e]; [|discriminate].
    intros Hs. apply IH in Hs. rewrite Hs, <- app_assoc. f_equal.
    cbn [map app]. f_equal. unfold saved_of, ext_of. rewrite Ed. reflexivity.
Qed.

(** What the loop keeps.  In a call that returned, the returned
    per-image list and the image rows added to the ledger are, in order,
    those of the provider's images whose url is a data URL, each with the
    path of its local preview; an image delivered as a bare remote URL is
    skipped and appears in neither. *)
Lemma generateImages_keeps_data_urls_only
    args provider_generate config db (fs : FS) d r :
  result (generateImages args provider_generate config db fs d) = Ok r ->
  exists res localPreviewDir,
    provider_generate
      {| o_prompt := arg_prompt args; o_negative_prompt := arg_negative_prompt args;
         o_count := default (Cfg.count (Cfg.defaults config)) (arg_count args);
         o_aspect_ratio := default (Cfg.aspect_ratio (Cfg.defaults config))
                             (arg_aspect_ratio args) |} = Ok res
    /\ Cfg.local_preview_dir (Cfg.storage config) = Some localPreviewDir
    /\ let generationDir :=
         join localPreviewDir (js "gen-" ++ intToString (now_ms d) ++ js "-" ++ random6 d) in
       r_images r
         = map (fun img => to_preview (saved_of generationDir img))
             (List.filter kept (images res))
       /\ Ledger.images_table (db_after (generateImages args provider_generate config db fs d))
          = Ledger.images_table db
            ++ map (fun img => stored_row (uuid d) (saved_of generationDir img))
                 (List.filter kept (images res))
       /\ forall img, img ∈ images res ->
            startsWith (url img) (js "data:") = false ->
            img ∉ List.filter kept (images res).
Proof.
  unfold generateImages.
  match goal with |- context [provider_generate ?o] => destruct (provider_generate o) as [res|] end;
    [|discriminate].
  destruct (Cfg.local_preview_dir (Cfg.storage config)) as [pd|]; [|discriminate].
  match goal with |- context [join pd ?g] => set (dir := join pd g) end.
  destruct (if existsSync fs dir then Ok fs else mkdirSync fs dir) as [fs1|]; [|discriminate].
  destruct (save_previews fs1 dir (images res) []) as [[saved|] fs2] eqn:Es; [|discriminate].
  apply save_previews_ok in Es. simpl in Es. subst saved.
  unfold Ledger.createGeneration. simpl.
  destruct (existsb _ (Ledger.generations_table db)); [discriminate|].
  simpl. intros [= <-]. exists res, pd. simpl. repeat split.
  - rewrite map_map. reflexivity.
  - f_equal. rewrite !map_map. reflexivity.
  - intros img _ Hu Hin. apply LedgerFacts.elem_of_List_filter in Hin as [_ Hk].
    rewrite (bare_url_not_kept img Hu) in Hk. discriminate.
Qed.

(** The warning is there exactly when the total has reached the
    threshold, in binary64 arithmetic. *)
Lemma budgetWarning_iff (total monthly_limit alert_threshold : float) :
  is_Some (budgetWarning total monthly_limit alert_threshold)
  <-> PrimFloat.leb (monthly_limit * alert_threshold)%float total = true.
Proof.
  unfold budgetWarning.
  destruct (PrimFloat.leb (monthly_limit * alert_threshold) total); split; intros Hw;
    try reflexivity; try discriminate; eauto.
  destruct Hw as [? ?]. discriminate.
Qed.

(** X2: A warning on a percentage that is finite and below 10^21 shows it
    with one decimal. *)
Lemma budgetWarning_one_decimal (total monthly_limit alert_threshold : float) :
  PrimFloat.leb (monthly_limit * alert_threshold)%float total = true ->
  below_1e21 ((total / monthly_limit) * 100)%float = true ->
  exists a d,
    budgetWarning total monthly_limit alert_threshold
    = Some (js "Budget alert: " ++ sign_of ((total / monthly_limit) * 100)%float
            ++ a ++ js "." ++ [d]
            ++ js "% of monthly limit used ($" ++ toFixed 2 total
            ++ js "/$" ++ numberToString monthly_limit ++ js ")")
    /\ a <> [] /\ Forall (fun c => is_digit c = true) (a ++ [d]).
Proof.
  intros Hle Hfin. unfold budgetWarning. rewrite Hle.
  destruct (NumberFacts.toFixed_one_decimal _ Hfin) as (a & d & E & Ha & Hd).
  exists a, d. rewrite E. repeat split; try assumption.
  rewrite <- !app_assoc. reflexivity.
Qed.

End Generic.
End GenerateFacts.

Module GenerateRuns.
Import Generate GenerateFacts Sim Examples.

(** The example of the specification: with a limit of 25 and a
    threshold of 0.8 a total of 22 gives a warning with [88.0%], a total
    of 5 gives none. *)
Lemma budgetWarning_example :
  budgetWarning 22 25 0.8
  = Some (js "Budget alert: 88.0% of monthly limit used ($22.00/$25)")
  /\ budgetWarning 5 25 0.8 = None.
Proof. vm_compute. split; reflexivity. Qed.

Lemma budgetWarning_one_decimal_witness :
  exists a d,
    budgetWarning 22 25 0.8
    = Some (js "Budget alert: " ++ JSNumber.sign_of ((22 / 25) * 100)%float
            ++ a ++ js "." ++ [d]
            ++ js "% of monthly limit used ($" ++ JSNumber.toFixed 2 22
            ++ js "/$" ++ numberToString 25%float ++ js ")")
    /\ a <> [] /\ Forall (fun c => JSNumber.is_digit c = true) (a ++ [d]).
Proof. apply (budgetWarning_one_decimal 22 25 0.8); vm_compute; reflexivity. Defined.

(** C3, where the code departs from it: a monthly limit of 0, which the
    README and the setup wizard use for "no limit".  The threshold is
    then 0, every call carries a warning, and the percentage in it is
    the quotient by zero: no number with one decimal. *)
Theorem generateImages_zero_limit_warning :
  exists r,
    result (generateImages generate_args (provider_of mixed_images 0.039) (config 0)
              ledger (preview_area false) draw) = Ok r
    /\ budget_warning r
       = Some (js "Budget alert: Infinity% of monthly limit used ($0.26/$0)").
Proof. eexists. vm_compute. split; reflexivity. Qed.

(** C6, where the code departs from it: the provider answers with two
    images, image 0 as a data URL and image 1 as a bare remote URL (as the
    fal provider delivers every image).  The call returns, and only image
    0 comes back and is stored: the remote URL of image 1 is neither in
    the returned list nor in the image rows of the new generation. *)
Theorem generateImages_drops_remote_url :
  map (fun i => (index i, url i)) mixed_images
  = [(0, js "data:image/png;base64,iVBORw0KGgo=");
     (1, js "https://fal.media/files/abc.png")]
  /\ exists r,
    result (generateImages generate_args (provider_of mixed_images 0.039) (config 25)
              ledger (preview_area false) draw) = Ok r
    /\ map (fun p => (p_index p, p_preview_url p)) (r_images r)
       = [(0, js "/tmp/previews/gen-1736424000000-k3x9qa/0.png")]
    /\ map (fun i => (Ledger.index_num i, Ledger.preview_url i))
         (List.filter (fun i => Ledger.str_eqb (Ledger.generation_id i) (js "g5"))
            (Ledger.images_table
               (db_after (generateImages generate_args (provider_of mixed_images 0.039)
                            (config 25) ledger (preview_area false) draw))))
       = [(0, js "/tmp/previews/gen-1736424000000-k3x9qa/0.png")].
Proof. split; [reflexivity|]. eexists. vm_compute. repeat split. Qed.

Lemma generateImages_keeps_data_urls_only_example :
  exists r,
    result (generateImages generate_args (provider_of mixed_images 0.039) (config 25)
              ledger (preview_area false) draw) = Ok r
    /\ exists res localPreviewDir,
         provider_of mixed_images 0.039
           {| o_prompt := js "a sunset"; o_negative_prompt := None;
              o_count := 2; o_aspect_ratio := js "16:9" |} = Ok res
         /\ Some (js "/tmp/previews") = Some localPreviewDir
         /\ r_images r
            = map (fun img => to_preview
                     (saved_of (join localPreviewDir (js "gen-1736424000000-k3x9qa")) img))
                (List.filter kept (images res))
         /\ Ledger.images_table
              (db_after (generateImages generate_args (provider_of mixed_images 0.039)
                           (config 25) ledger (preview_area false) draw))
            = Ledger.images_table ledger
              ++ map (fun img => stored_row (js "g5")
                        (saved_of (join localPreviewDir (js "gen-1736424000000-k3x9qa")) img))
                   (List.filter kept (images res))
         /\ forall img, img ∈ images res ->
              startsWith (url img) (js "data:") = false ->
              img ∉ List.filter kept (images res).
Proof.
  eexists. split; [vm_compute; reflexivity|].
  apply (generateImages_keeps_data_urls_only generate_args (provider_of mixed_images 0.039)
           (config 25) ledger (preview_area false) draw).
  vm_compute. reflexivity.
Defined.

End GenerateRuns.

(* ------------------------------------------------------------------ *)
(** ** The retention sweeper *)

Module SweeperFacts.
Import Templater Sweeper.

Section Generic.
Context {FS : Type} `{FsApi FS} `{Runtime}.

(** The payload of a dry run over the candidates [found]. *)
Lemma dry_run_listing (args : CleanupArgs) (config : Cfg.Config) (fs : FS) (now : Z)
    previewDir found :
  dry_run args = Some true ->
  Ledger.or_null (Cfg.local_preview_dir (Cfg.storage config)) = Some previewDir ->
  existsSync fs previewDir = true ->
  find_candidates fs previewDir
    (daysBefore now (default (Cfg.auto_cleanup_days (Cfg.defaults config))
                       (older_than_days args))) now = Ok found ->
  found <> [] ->
  (cleanupPreviews args config fs now).1
  = DryRun (Z.of_nat (length found))
      (toISOString (daysBefore now (default (Cfg.auto_cleanup_days (Cfg.defaults config))
                                      (older_than_days args))))
      (default (Cfg.auto_cleanup_days (Cfg.defaults config)) (older_than_days args))
      (take 20 found)
      (if 20 <? Z.of_nat (length found)
       then Some (js "...and " ++ intToString (Z.of_nat (length found) - 20) ++ js " more")
       else None).
Proof.
  intros Hdry Hpd Hex Hfound Hne. unfold cleanupPreviews.
  rewrite Hdry, Hpd, Hex, Hfound. cbn [negb default fst].
  destruct (Z.eqb_spec (Z.of_nat (length found)) 0) as [E|_]; [|reflexivity].
  destruct found; [contradiction|discriminate E].
Qed.

(** C8: a dry run leaves the file system as it found it, whatever it
    answers, and never answers with the payload of a deletion; when the
    scan finds candidates, the payload lists the first 20 of them (so at
    most 20), says how many there are in all, and adds the count of the
    rest exactly when there are more than 20. *)
Theorem cleanupPreviews_dry_run (args : CleanupArgs) (config : Cfg.Config) (fs : FS) (now : Z) :
  dry_run args = Some true ->
  (cleanupPreviews args config fs now).2 = fs
  /\ (forall n c o e, (cleanupPreviews args config fs now).1 <> Deleted n c o e)
  /\ (forall previewDir found,
        Ledger.or_null (Cfg.local_preview_dir (Cfg.storage config)) = Some previewDir ->
        existsSync fs previewDir = true ->
        find_candidates fs previewDir
          (daysBefore now (default (Cfg.auto_cleanup_days (Cfg.defaults config))
                             (older_than_days args))) now = Ok found ->
        found <> [] ->
        exists cutoff_date older_than previews message,
          (cleanupPreviews args config fs now).1
          = DryRun (Z.of_nat (length found)) cutoff_date older_than previews message
          /\ previews = take 20 found
          /\ (length previews <= 20)%nat
          /\ message = (if 20 <? Z.of_nat (length found)
                        then Some (js "...and "
                                   ++ intToString (Z.of_nat (length found) - 20)
                                   ++ js " more")
                        else None)).
Proof.
  intros Hdry. split; [|split].
  - unfold cleanupPreviews. rewrite Hdry. cbn [default].
    destruct (Ledger.or_null _) as [pd|]; [|reflexivity].
    destruct (existsSync fs pd); cbn [negb]; [|reflexivity].
    destruct (find_candidates fs pd _ now) as [found|e]; [|reflexivity].
    destruct (Z.of_nat (length found) =? 0); reflexivity.
  - intros n c o e. unfold cleanupPreviews. rewrite Hdry. cbn [default].
    destruct (Ledger.or_null _) as [pd|]; [|discriminate].
    destruct (existsSync fs pd); cbn [negb]; [|discriminate].
    destruct (find_candidates fs pd _ now) as [found|e']; [|discriminate].
    destruct (Z.of_nat (length found) =? 0); discriminate.
  - intros previewDir found Hpd Hex Hfound Hne.
    rewrite (dry_run_listing args config fs now previewDir found) by assumption.
    do 4 eexists. split; [reflexivity|]. split; [reflexivity|]. split; [|reflexivity].
    rewrite length_take. lia.
Qed.

End Generic.
End SweeperFacts.

Module SweeperRuns.
Import Sweeper SweeperFacts Sim Examples.

Lemma cleanupPreviews_dry_run_witness :
  (sweep (Some true)).2 = preview_area false
  /\ (sweep (Some true)).1
     = DryRun 2 (js "2025-01-02T12:00:00.000Z") 7
         [{| path := js "/tmp/previews/gen-1"; ageDays := 30 |};
          {| path := js "/tmp/previews/gen-2"; ageDays := 10 |}]
         None.
Proof.
  destruct (cleanupPreviews_dry_run {| older_than_days := None; dry_run := Some true |}
              (config 25) (preview_area false) noon) as (Hfs & _ & _).
  - reflexivity.
  - split; [exact Hfs|]. vm_compute. reflexivity.
Defined.

(** With 25 old directories the listing stops at 20 and counts the
    other five. *)
Lemma cleanupPreviews_dry_run_more_than_20 :
  exists c o ps,
    (cleanupPreviews {| older_than_days := Some 7; dry_run := Some true |} (config 25)
       crowded_area noon).1
    = DryRun 25 c o ps (Some (js "...and 5 more"))
    /\ length ps = 20%nat
    /\ (cleanupPreviews {| older_than_days := Some 7; dry_run := Some true |} (config 25)
          crowded_area noon).2 = crowded_area.
Proof. do 3 eexists. vm_compute. repeat split. Qed.

(** The same sweep for real removes both directories and what is in
    them, and nothing else. *)
Lemma cleanupPreviews_real_run :
  (sweep None).1 = Deleted 2 (js "2025-01-02T12:00:00.000Z") 7 None
  /\ map fst (sweep None).2
     = [js "/tmp/previews"; js "/tmp/previews/gen-3"; js "/tmp/previews/gen-3/1.png";
        js "/tmp/previews/notes.txt"].
Proof. vm_compute. split; reflexivity. Qed.

End SweeperRuns.

Module LedgerRuns.
Import Ledger LedgerFacts Examples Fixtures.

(** Sums of up to 32 of the 256ths are exact in binary64. *)
Lemma dyadic_add_nat (a b : nat) :
  (a + b <= 32)%nat ->
  (dyadic (Z.of_nat a) + dyadic (Z.of_nat b))%float = dyadic (Z.of_nat (a + b)).
Proof.
  intros Hs.
  do 33 (destruct a as [|a];
         [do 33 (destruct b as [|b]; [first [vm_compute; reflexivity | lia]|]); lia|]).
  lia.
Qed.

Lemma dyadic_add (m n : Z) :
  0 <= m -> 0 <= n -> m + n <= 32 -> (dyadic m + dyadic n)%float = dyadic (m + n).
Proof.
  intros Hm Hn Hs.
  rewrite <- (Z2Nat.id m Hm), <- (Z2Nat.id n Hn), <- Nat2Z.inj_add.
  apply dyadic_add_nat. lia.
Qed.

(** The plain running sum is exact on them. *)
Lemma plain_sum_dyadic (ks : list Z) :
  ks <> [] -> Forall (fun k => 0 <= k) ks -> sum_list ks <= 32 ->
  nsum (map dyadic ks) = dyadic (sum_list ks).
Proof.
  intros _ Hn Hl.
  exact (fold_left_units (H:=float_ops) dyadic 32 eq_refl dyadic_add ks Hn Hl).
Qed.



Lemma getCosts_matches_none_witness :
  getCosts ledger (Some (js "2025-02-01T00:00:00.000Z"))
  = {| total := 0%float; by_provider := ∅; by_model := ∅; generation_count := 0 |}.
Proof.
  apply (@getCosts_matches_none float float_ops plain_sum ledger
           (Some (js "2025-02-01T00:00:00.000Z"))).
  intros g Hg. eexists. split; [reflexivity|].
  repeat (apply elem_of_cons in Hg as [->|Hg]; [vm_compute; reflexivity|]).
  inversion Hg.
Defined.

(** The groupings of the sample ledger. *)
Lemma getCosts_sample :
  by_provider (getCosts ledger_Z None) !! js "gemini" = Some 217
  /\ by_provider (getCosts ledger_Z None) !! js "fal" = Some 6
  /\ by_model (getCosts ledger_Z None) !! js "gemini-2.5-flash-image" = Some 117
  /\ total (getCosts ledger_Z (Some (js "2025-01-09T00:00:00.000Z"))) = 139.
Proof. vm_compute. repeat split. Qed.

(** Binary64 addition is not associative: with costs stored as SQL
    [REAL], a total and the sum of its groups can differ in the last
    place when the engine adds them in different orders. *)
Lemma float_add_not_associative :
  ((0.1 + 0.2) + 0.3 <> 0.1 + (0.2 + 0.3))%float.
Proof. vm_compute. intros E. discriminate E. Qed.

End LedgerRuns.

(* ------------------------------------------------------------------ *)
(** ** The end-to-end scenario *)

Module Scenario.
Import Ledger Sim Examples.

(** Generating two images stores one generation with image rows 0 and 1
    and writes the two previews into the generation's directory. *)
Lemma scenario_generation :
  (exists r, Generate.result scenario_generate = Ok r
     /\ Generate.r_generation_id r = js "g5"
     /\ map Generate.p_index (Generate.r_images r) = [0; 1])
  /\ map id (generations_table (Generate.db_after scenario_generate)) = [js "g5"]
  /\ map (fun i => (generation_id i, index_num i, preview_url i))
       (images_table (Generate.db_after scenario_generate))
     = [(js "g5", 0, js "/tmp/previews/gen-1736424000000-k3x9qa/0.png");
        (js "g5", 1, js "/tmp/previews/gen-1736424000000-k3x9qa/1.jpg")]
  /\ map fst (Generate.fs_after scenario_generate)
     = [js "/tmp/previews"; js "/tmp/previews/gen-1736424000000-k3x9qa";
        js "/tmp/previews/gen-1736424000000-k3x9qa/0.png";
        js "/tmp/previews/gen-1736424000000-k3x9qa/1.jpg"].
Proof. split; [eexists|]; vm_compute; repeat split. Qed.

(** Selecting index 1 uploads the bytes of the second preview, marks
    the generation with index 1 and the key and url the store returned,
    deletes both previews and removes the directory. *)
Lemma scenario_selection :
  (exists r, Select.result scenario_select = Ok r
     /\ Select.r_storage_key r = js "2025/01/a-sunset-1736424000000.jpg"
     /\ Select.permanent_url r
        = js "https://cdn.example.com/2025/01/a-sunset-1736424000000.jpg"
     /\ Select.size_bytes r = 6
     /\ Select.cleanup r
        = {| Select.deleted_previews := 2; Select.retained_previews := [] |})
  /\ map (fun g => (selected_index g, storage_key g, public_url g))
       (generations_table (Select.db_after scenario_select))
     = [(Some 1, Some (js "2025/01/a-sunset-1736424000000.jpg"),
         Some (js "https://cdn.example.com/2025/01/a-sunset-1736424000000.jpg"))]
  /\ Select.fs_after scenario_select = empty_area.
Proof. split; [eexists|]; vm_compute; repeat split. Qed.

End Scenario.

(* ------------------------------------------------------------------ *)
(** ** The ledger: retrieval after a write *)

Module StoreFacts.
Import Ledger LedgerFacts.

Lemma insert_by_index_perm x l : insert_by_index x l ≡ₚ x :: l.
Proof.
  induction l as [|y l IH]; simpl; [reflexivity|].
  destruct (index_num x <=? index_num y); [reflexivity|].
  rewrite IH. apply Permutation_swap.
Qed.

Lemma order_by_index_perm l : order_by_index l ≡ₚ l.
Proof.
  induction l as [|x l IH]; simpl; [reflexivity|].
  rewrite insert_by_index_perm, IH. reflexivity.
Qed.

Lemma insert_by_index_sorted x l :
  StronglySorted (fun a b => index_num a <= index_num b) l ->
  StronglySorted (fun a b => index_num a <= index_num b) (insert_by_index x l).
Proof.
  induction 1 as [|y l Hl IH Hy]; simpl; [repeat constructor|].
  destruct (Z.leb_spec (index_num x) (index_num y)).
  - constructor; [constructor; assumption|].
    constructor; [assumption|].
    eapply Forall_impl; [exact Hy|]. simpl. intros; lia.
  - constructor; [exact IH|].
    rewrite insert_by_index_perm. constructor; [lia|exact Hy].
Qed.

Lemma order_by_index_sorted l :
  StronglySorted (fun a b => index_num a <= index_num b) (order_by_index l).
Proof.
  induction l as [|x l IH]; simpl; [constructor|].
  apply insert_by_index_sorted, IH.
Qed.

Lemma filter_map_commute {A B} (p : B -> bool) (f : A -> B) (l : list A) :
  List.filter p (map f l) = map f (List.filter (fun x => p (f x)) l).
Proof.
  induction l as [|x l IH]; simpl; [reflexivity|].
  rewrite IH. destruct (p (f x)); reflexivity.
Qed.

Lemma filter_ext_Forall {A} (p q : A -> bool) (l : list A) :
  Forall (fun x => p x = q x) l -> List.filter p l = List.filter q l.
Proof.
  induction 1 as [|x l Hx _ IH]; simpl; [reflexivity|].
  rewrite Hx, IH. reflexivity.
Qed.

Section Store.
Context {num : Type} `{NumOps num} `{SqlSum num}.

(** X6: what [getGeneration] returns for a stored id: the first row with
    that id, carrying the image rows of that generation, all of them
    and in ascending [index_num] order, or no image list at all when
    there is no such row. *)
Theorem getGeneration_images (db : Db num) (gid : jsstring) (g : Generation num) :
  getGeneration db gid = Some g ->
  id g = gid
  /\ (List.filter (fun i => str_eqb (generation_id i) gid) (images_table db) = [] ->
      g ∈ generations_table db)
  /\ (List.filter (fun i => str_eqb (generation_id i) gid) (images_table db) <> [] ->
      exists imgs,
        images g = Some imgs
        /\ imgs ≡ₚ List.filter (fun i => str_eqb (generation_id i) gid) (images_table db)
        /\ StronglySorted (fun a b => index_num a <= index_num b) imgs).
Proof.
  unfold getGeneration, select_images.
  destruct (List.filter (fun g0 => str_eqb (id g0) gid) (generations_table db))
    as [|row rows] eqn:Eg; [discriminate|].
  assert (Hrow : row ∈ generations_table db /\ str_eqb (id row) gid = true).
  { apply (proj1 (elem_of_List_filter (fun g0 => str_eqb (id g0) gid) (generations_table db) row)).
    rewrite Eg. left. }
  destruct Hrow as [Hin Hid]. apply str_eqb_eq in Hid.
  destruct (List.filter _ (images_table db)) as [|i l] eqn:Ei.
  - intros [= <-]. split; [exact Hid|]. split; [auto|]. intros Hc. contradiction.
  - intros [= <-]. split; [exact Hid|]. split; [discriminate|]. intros _.
    exists (order_by_index (i :: l)). split; [reflexivity|]. split.
    + apply (order_by_index_perm (i :: l)).
    + apply (order_by_index_sorted (i :: l)).
Qed.

Lemma getGeneration_absent (db : Db num) gid :
  Forall (fun g => id g <> gid) (generations_table db) -> getGeneration db gid = None.
Proof.
  intros Habs. unfold getGeneration. rewrite SelectFacts.filter_none; [reflexivity|].
  eapply Forall_impl; [exact Habs|]. intros g Hg. simpl. apply str_eqb_neq. exact Hg.
Qed.

Lemma existsb_absent (gens : list (Generation num)) uuid :
  Forall (fun g => id g <> uuid) gens ->
  existsb (fun g => str_eqb (id g) uuid) gens = false.
Proof.
  induction 1 as [|g l Hg _ IH]; simpl; [reflexivity|].
  apply str_eqb_neq in Hg. rewrite Hg, IH. reflexivity.
Qed.

Lemma existsb_present (gens : list (Generation num)) uuid :
  existsb (fun g => str_eqb (id g) uuid) gens = false ->
  Forall (fun g => id g <> uuid) gens.
Proof.
  induction gens as [|g l IH]; simpl; [constructor|].
  intros Hex. apply orb_false_iff in Hex as [Hg Hl].
  constructor; [apply str_eqb_neq, Hg|apply IH, Hl].
Qed.

(** What a successful [createGeneration] returns and stores. *)
Lemma createGeneration_inv (db db' : Db num) (data : NewGeneration num) uuid now_iso g :
  createGeneration db data uuid now_iso = (Ok g, db') ->
  Forall (fun g0 => id g0 <> uuid) (generations_table db)
  /\ id g = uuid /\ created_at g = now_iso /\ images g = Some (new_images data)
  /\ exists row rows,
       generations_table db' = generations_table db ++ [row]
       /\ images_table db' = images_table db ++ rows
       /\ id row = uuid /\ created_at row = now_iso
       /\ prompt row = new_prompt data /\ model row = new_model data
       /\ provider row = new_provider data /\ cost row = new_cost data
       /\ context row = or_null (new_context data)
       /\ selected_index row = None /\ public_url row = None /\ images row = None
       /\ rows = map (fun img => {| generation_id := uuid; index_num := index_num img;
                                    preview_url := preview_url img; width := width img;
                                    height := height img; seed := seed img |})
                   (new_images data).
Proof.
  unfold createGeneration.
  destruct (existsb _ (generations_table db)) eqn:Ex; [discriminate|].
  intros [= <- <-]. split; [apply existsb_present, Ex|].
  cbn [id created_at images]. repeat (split; [reflexivity|]).
  eexists. eexists. cbn [generations_table images_table].
  split; [reflexivity|]. split; [reflexivity|]. cbn. repeat split.
Qed.

Lemma createGeneration_fresh (db : Db num) (data : NewGeneration num) uuid now_iso :
  Forall (fun g => id g <> uuid) (generations_table db) ->
  exists g db', createGeneration db data uuid now_iso = (Ok g, db').
Proof.
  intros Hg. unfold createGeneration. rewrite (existsb_absent _ _ Hg). eauto.
Qed.

(** Reading an id other than that of an appended row. *)
Lemma getGeneration_snoc_other (db db' : Db num) row rows gid :
  generations_table db' = generations_table db ++ [row] ->
  images_table db' = images_table db ++ rows ->
  Forall (fun i => generation_id i = id row) rows ->
  gid <> id row ->
  getGeneration db' gid = getGeneration db gid.
Proof.
  intros Hg Hi Hrows Hne. unfold getGeneration, select_images. rewrite Hg, Hi.
  rewrite !List.filter_app. cbn [List.filter].
  assert (Hu : str_eqb (id row) gid = false) by (apply str_eqb_neq; congruence).
  rewrite Hu, app_nil_r.
  rewrite (SelectFacts.filter_none (fun i => str_eqb (generation_id i) gid) rows).
  - rewrite app_nil_r. reflexivity.
  - eapply Forall_impl; [exact Hrows|]. intros i0 Hi0. simpl in *. rewrite Hi0. exact Hu.
Qed.

(** Reading the id of an appended row that is new to both tables. *)
Lemma getGeneration_snoc_same (db db' : Db num) row rows :
  generations_table db' = generations_table db ++ [row] ->
  images_table db' = images_table db ++ rows ->
  Forall (fun g => id g <> id row) (generations_table db) ->
  Forall (fun i => generation_id i <> id row) (images_table db) ->
  Forall (fun i => generation_id i = id row) rows ->
  getGeneration db' (id row)
  = Some (match rows with
          | [] => row
          | _ => with_images row (Some (order_by_index rows))
          end).
Proof.
  intros Hg Hi Hfg Hfi Hrows. unfold getGeneration, select_images. rewrite Hg, Hi.
  rewrite !List.filter_app.
  rewrite (SelectFacts.filter_none (fun g => str_eqb (id g) (id row)) (generations_table db))
    by (eapply Forall_impl; [exact Hfg|]; intros g0 Hg0; apply str_eqb_neq, Hg0).
  rewrite (SelectFacts.filter_none (fun i => str_eqb (generation_id i) (id row)) (images_table db))
    by (eapply Forall_impl; [exact Hfi|]; intros i0 Hi0; apply str_eqb_neq, Hi0).
  cbn [List.filter app]. rewrite str_eqb_refl.
  rewrite SelectFacts.filter_all
    by (eapply Forall_impl; [exact Hrows|]; intros i0 Hi0; apply str_eqb_eq, Hi0).
  destruct rows; reflexivity.
Qed.

(** X7: a generation created under a fresh id can be read back: the row
    has the data given, no selection, and the images given, re-tagged
    with the new id and sorted by [index_num] (or no image list when
    none was given); every other id reads as before. *)
Theorem createGeneration_getGeneration
    (db : Db num) (data : NewGeneration num) (uuid now_iso : jsstring) :
  Forall (fun g => id g <> uuid) (generations_table db) ->
  Forall (fun i => generation_id i <> uuid) (images_table db) ->
  exists g db',
    createGeneration db data uuid now_iso = (Ok g, db')
    /\ id g = uuid /\ created_at g = now_iso /\ images g = Some (new_images data)
    /\ (exists g',
          getGeneration db' uuid = Some g'
          /\ id g' = uuid /\ created_at g' = now_iso
          /\ prompt g' = new_prompt data /\ model g' = new_model data
          /\ provider g' = new_provider data /\ cost g' = new_cost data
          /\ selected_index g' = None /\ public_url g' = None
          /\ match images g' with
             | None => new_images data = []
             | Some imgs =>
                 imgs <> []
                 /\ Forall (fun i => generation_id i = uuid) imgs
                 /\ map (fun i => (index_num i, preview_url i, width i, height i, seed i)) imgs
                    ≡ₚ map (fun i => (index_num i, preview_url i, width i, height i, seed i))
                         (new_images data)
                 /\ StronglySorted (fun a b => index_num a <= index_num b) imgs
             end)
    /\ forall gid, gid <> uuid -> getGeneration db' gid = getGeneration db gid.
Proof.
  intros Hg Hi.
  destruct (createGeneration_fresh db data uuid now_iso Hg) as (g & db' & Hc).
  exists g, db'. split; [exact Hc|].
  destruct (createGeneration_inv _ _ _ _ _ _ Hc)
    as (_ & Hid & Hat & Him & row & rows & Hgt & Hit & Hrid & Hrat & Hrp & Hrm & Hrpr & Hrc
        & _ & Hrs & Hru & Hri & Hrows).
  assert (Htag : Forall (fun i => generation_id i = id row) rows).
  { rewrite Hrows, Hrid. apply Forall_forall. intros i0 Hi0.
    apply list_elem_of_fmap in Hi0 as (i1 & -> & _). reflexivity. }
  repeat (split; [assumption|]). split.
  - rewrite <- Hrid in Hg, Hi.
    pose proof (getGeneration_snoc_same db db' row rows Hgt Hit Hg Hi Htag) as Hget.
    rewrite Hrid in Hget. eexists. split; [exact Hget|].
    destruct rows as [|r rs] eqn:Er.
    + repeat (split; [assumption|]). rewrite Hri.
      destruct (new_images data); [reflexivity|discriminate].
    + rewrite <- Er in *. clear Hget.
      cbn [with_images id created_at prompt model provider cost selected_index
           public_url images].
      repeat (split; [assumption|]). split; [|split; [|split]].
      * intros Hnil. pose proof (order_by_index_perm rows) as Hp.
        rewrite Hnil, Er in Hp. apply Permutation_nil_cons in Hp. exact Hp.
      * rewrite order_by_index_perm, <- Hrid. exact Htag.
      * rewrite order_by_index_perm, Hrows, map_map. reflexivity.
      * apply order_by_index_sorted.
  - intros gid Hne. apply (getGeneration_snoc_other db db' row rows); try assumption.
    congruence.
Qed.

(** Reading after the [UPDATE] of [markSelected]. *)
Lemma getGeneration_marked
    (db : Db num) (gid : jsstring) (index : Z) (storageKey publicUrl now_iso gid' : jsstring) :
  getGeneration (markSelected db gid index storageKey publicUrl now_iso).2 gid'
  = if bool_decide (gid' = gid)
    then (fun g => set_selected g index now_iso storageKey publicUrl) <$> getGeneration db gid'
    else getGeneration db gid'.
Proof.
  unfold markSelected, getGeneration, select_images. cbn [snd generations_table images_table].
  rewrite filter_map_commute.
  rewrite (List.filter_ext _ (fun g => str_eqb (id g) gid'))
    by (intros g; destruct (str_eqb (id g) gid); reflexivity).
  destruct (List.filter (fun g => str_eqb (id g) gid') (generations_table db))
    as [|row rows] eqn:Eg; cbn [map].
  - destruct (bool_decide (gid' = gid)); reflexivity.
  - assert (Hrow : str_eqb (id row) gid' = true).
    { apply (proj1 (elem_of_List_filter (fun g0 => str_eqb (id g0) gid')
                      (generations_table db) row)). rewrite Eg. left. }
    apply str_eqb_eq in Hrow.
    destruct (bool_decide_reflect (gid' = gid)) as [E|E].
    + assert (Hr : str_eqb (id row) gid = true) by (apply str_eqb_eq; congruence).
      rewrite Hr. destruct (List.filter _ (images_table db)); reflexivity.
    + assert (Hr : str_eqb (id row) gid = false) by (apply str_eqb_neq; congruence).
      rewrite Hr. reflexivity.
Qed.

(** X8: after [markSelected], the marked id reads as the generation it
    read as before with the four selection fields set (images and all
    other fields as they were), an id that read as [null] still does,
    and every other id reads as before. *)
Theorem markSelected_getGeneration
    (db : Db num) (gid : jsstring) (index : Z) (storageKey publicUrl now_iso : jsstring) :
  (forall g, getGeneration db gid = Some g ->
     getGeneration (markSelected db gid index storageKey publicUrl now_iso).2 gid
     = Some {| id := id g; prompt := prompt g; negative_prompt := negative_prompt g;
               context := context g; model := model g; provider := provider g;
               count := count g; aspect_ratio := aspect_ratio g; cost := cost g;
               created_at := created_at g; selected_index := Some index;
               selected_at := Some now_iso; storage_key := Some storageKey;
               public_url := Some publicUrl; images := images g |})
  /\ (getGeneration db gid = None ->
      getGeneration (markSelected db gid index storageKey publicUrl now_iso).2 gid = None)
  /\ (forall gid', gid' <> gid ->
      getGeneration (markSelected db gid index storageKey publicUrl now_iso).2 gid'
      = getGeneration db gid').
Proof.
  split; [|split].
  - intros g Hg. rewrite getGeneration_marked, Hg.
    destruct (bool_decide_reflect (gid = gid)); [reflexivity|contradiction].
  - intros Hg. rewrite getGeneration_marked, Hg.
    destruct (bool_decide (gid = gid)); reflexivity.
  - intros gid' Hne. rewrite getGeneration_marked.
    destruct (bool_decide_reflect (gid' = gid)); [contradiction|reflexivity].
Qed.

(** The rows inside a period after a row was appended. *)
Lemma where_since_snoc (db db' : Db num) (row : Generation num) (since : option jsstring) :
  generations_table db' = generations_table db ++ [row] ->
  where_since since db'
  = where_since since db
    ++ (if match since with None => true | Some s => str_leb s (created_at row) end
        then [row] else []).
Proof.
  intros Hg. unfold where_since. rewrite Hg. destruct since as [s|]; [|reflexivity].
  rewrite List.filter_app. cbn [List.filter]. destruct (str_leb s (created_at row)); reflexivity.
Qed.

(** The accounts after a row was appended. *)
Lemma getCosts_snoc (db db' : Db num) (row : Generation num) (since : option jsstring) :
  generations_table db' = generations_table db ++ [row] ->
  if match since with None => true | Some s => str_leb s (created_at row) end
  then generation_count (getCosts db' since) = generation_count (getCosts db since) + 1
       /\ total (getCosts db' since) = nsum (map cost (where_since since db) ++ [cost row])
  else getCosts db' since = getCosts db since.
Proof.
  intros Hg. pose proof (where_since_snoc db db' row since Hg) as Hw.
  destruct (match since with None => true | Some s => str_leb s (created_at row) end).
  - unfold getCosts, exec_total. cbn [total generation_count fst snd].
    rewrite Hw, map_app, length_app. cbn [map length]. split; [lia|].
    destruct (map cost (where_since since db)); reflexivity.
  - rewrite app_nil_r in Hw. unfold getCosts, exec_total, exec_group. rewrite Hw. reflexivity.
Qed.

(** X9: a generation that was created is accounted for: with a bound
    that its creation time reaches (or none), [getCosts] counts one
    generation more, and its total is the engine's [SUM] over the costs it
    ranged over before and the new cost; with a bound after its creation
    time the whole summary stays as it was. *)
Theorem createGeneration_getCosts
    (db db' : Db num) (data : NewGeneration num) (uuid now_iso : jsstring)
    (g : Generation num) (since : option jsstring) :
  createGeneration db data uuid now_iso = (Ok g, db') ->
  if match since with None => true | Some s => str_leb s now_iso end
  then generation_count (getCosts db' since) = generation_count (getCosts db since) + 1
       /\ total (getCosts db' since) = nsum (map cost (where_since since db) ++ [new_cost data])
  else getCosts db' since = getCosts db since.
Proof.
  intros Hc.
  destruct (createGeneration_inv _ _ _ _ _ _ Hc)
    as (_ & _ & _ & _ & row & rows & Hgt & _ & _ & Hrat & _ & _ & _ & Hrc & _).
  rewrite <- Hrat, <- Hrc. apply getCosts_snoc. exact Hgt.
Qed.

(** X10: marking a selection does not change the accounts: [getCosts]
    answers the same before and after, for every bound. *)
Theorem markSelected_getCosts
    (db : Db num) (gid : jsstring) (index : Z) (storageKey publicUrl now_iso : jsstring)
    (since : option jsstring) :
  getCosts (markSelected db gid index storageKey publicUrl now_iso).2 since = getCosts db since.
Proof.
  unfold markSelected. cbn [snd].
  set (f := fun g : Generation num =>
              if str_eqb (id g) gid then set_selected g index now_iso storageKey publicUrl else g).
  assert (Hc : forall g, cost (f g) = cost g) by (intros g; unfold f; destruct (str_eqb _ _); reflexivity).
  assert (Hp : forall g, provider (f g) = provider g)
    by (intros g; unfold f; destruct (str_eqb _ _); reflexivity).
  assert (Hm : forall g, model (f g) = model g)
    by (intros g; unfold f; destruct (str_eqb _ _); reflexivity).
  assert (Ht : forall g, created_at (f g) = created_at g)
    by (intros g; unfold f; destruct (str_eqb _ _); reflexivity).
  assert (Hw : where_since since
                 {| generations_table := map f (generations_table db);
                    images_table := images_table db |}
               = map f (where_since since db)).
  { unfold where_since. cbn [generations_table]. destruct since as [s|]; [|reflexivity].
    rewrite filter_map_commute. f_equal. apply List.filter_ext. intros g. rewrite Ht. reflexivity. }
  assert (Hcost : forall rows, map cost (map f rows) = map cost rows).
  { intros rows. rewrite map_map. apply map_ext. exact Hc. }
  assert (Hgroup : forall key : Generation num -> jsstring,
             (forall g, key (f g) = key g) ->
             exec_group key since {| generations_table := map f (generations_table db);
                                     images_table := images_table db |}
             = exec_group key since db).
  { intros key Hk. unfold exec_group. rewrite Hw.
    rewrite (map_map f key), (map_ext _ key Hk).
    destruct (distinct (map key (where_since since db))) as [|k ks]; [reflexivity|].
    f_equal. apply map_ext. intros k'. f_equal. f_equal.
    rewrite filter_map_commute, Hcost. f_equal. apply List.filter_ext.
    intros g0. rewrite Hk. reflexivity. }
  unfold getCosts, exec_total. rewrite Hw, Hcost, length_map.
  rewrite (Hgroup provider Hp), (Hgroup model Hm). reflexivity.
Qed.

End Store.
End StoreFacts.

(* ------------------------------------------------------------------ *)
(** ** The listing *)

Module ListingFacts.
Import Ledger LedgerFacts Listing.

Lemma str_leb_total a b : str_leb a b = false -> str_leb b a = true.
Proof.
  induction a as [|x a IH] in b |- *; destruct b as [|y b]; simpl; try discriminate; auto.
  destruct (N.ltb_spec x y); [discriminate|]. simpl.
  destruct (N.eqb_spec x y) as [->|Hne]; simpl.
  - intros Hab. rewrite N.eqb_refl, (IH _ Hab). apply orb_true_r.
  - intros _. destruct (N.ltb_spec y x); [reflexivity|lia].
Qed.

Lemma str_leb_trans a b c : str_leb a b = true -> str_leb b c = true -> str_leb a c = true.
Proof.
  induction a as [|x a IH] in b, c |- *; destruct b as [|y b], c as [|z c];
    simpl; try discriminate; auto.
  intros Hab Hbc.
  apply orb_true_iff in Hab as [Hab|Hab], Hbc as [Hbc|Hbc].
  - apply N.ltb_lt in Hab, Hbc. destruct (N.ltb_spec x z); [reflexivity|lia].
  - apply andb_true_iff in Hbc as [Hyz _]. apply N.eqb_eq in Hyz as <-.
    rewrite Hab. reflexivity.
  - apply andb_true_iff in Hab as [Hxy _]. apply N.eqb_eq in Hxy as ->.
    rewrite Hbc. reflexivity.
  - apply andb_true_iff in Hab as [Hxy Hab], Hbc as [Hyz Hbc].
    apply N.eqb_eq in Hxy as ->. apply N.eqb_eq in Hyz as ->.
    rewrite N.eqb_refl, (IH _ _ Hab Hbc). apply orb_true_r.
Qed.

Section Store.
Context {num : Type}.

Lemma insert_by_created_perm (x : Generation num) l : insert_by_created x l ≡ₚ x :: l.
Proof.
  induction l as [|y l IH]; simpl; [reflexivity|].
  destruct (str_leb (created_at y) (created_at x)); [reflexivity|].
  rewrite IH. apply Permutation_swap.
Qed.

Lemma order_by_created_perm (l : list (Generation num)) : order_by_created_desc l ≡ₚ l.
Proof.
  induction l as [|x l IH]; simpl; [reflexivity|].
  rewrite insert_by_created_perm, IH. reflexivity.
Qed.

Lemma insert_by_created_sorted (x : Generation num) l :
  StronglySorted (fun a b => str_leb (created_at b) (created_at a) = true) l ->
  StronglySorted (fun a b => str_leb (created_at b) (created_at a) = true)
    (insert_by_created x l).
Proof.
  induction 1 as [|y l Hl IH Hy]; simpl; [repeat constructor|].
  destruct (str_leb (created_at y) (created_at x)) eqn:E.
  - constructor; [constructor; assumption|].
    constructor; [assumption|].
    eapply Forall_impl; [exact Hy|]. simpl. intros z Hz.
    eapply str_leb_trans; [exact Hz|exact E].
  - constructor; [exact IH|].
    rewrite insert_by_created_perm. constructor; [|exact Hy].
    apply str_leb_total, E.
Qed.

Lemma order_by_created_sorted (l : list (Generation num)) :
  StronglySorted (fun a b => str_leb (created_at b) (created_at a) = true)
    (order_by_created_desc l).
Proof.
  induction l as [|x l IH]; simpl; [constructor|].
  apply insert_by_created_sorted, IH.
Qed.

Lemma attach_images_fields (db : Db num) (g : Generation num) :
  id (attach_images db g) = id g
  /\ created_at (attach_images db g) = created_at g
  /\ selected_index (attach_images db g) = selected_index g
  /\ public_url (attach_images db g) = public_url g.
Proof. unfold attach_images. destruct (select_images db (id g)); repeat split. Qed.

(** What [LIMIT] keeps and what it cuts off. *)
Lemma sql_limit_split {A} (limit : Z) (rows : list A) :
  exists rest, rows = sql_limit limit rows ++ rest
    /\ length (sql_limit limit rows)
       = (if limit <? 0 then length rows else Nat.min (Z.to_nat limit) (length rows)).
Proof.
  unfold sql_limit. destruct (limit <? 0).
  - exists []. rewrite app_nil_r. auto.
  - exists (drop (Z.to_nat limit) rows). rewrite take_drop, length_take. auto.
Qed.

Lemma listGenerations_sorted (db : Db num) (limit : Z) :
  StronglySorted (fun a b => str_leb (created_at b) (created_at a) = true)
    (listGenerations db limit).
Proof.
  unfold listGenerations.
  destruct (sql_limit_split limit (order_by_created_desc (generations_table db)))
    as (rest & Hsplit & _).
  pose proof (order_by_created_sorted (generations_table db)) as Hsorted.
  rewrite Hsplit in Hsorted.
  apply (StronglySorted_fmap _
           (fun a b => str_leb (created_at b) (created_at a) = true)).
  - intros a b Hab.
    destruct (attach_images_fields db a) as (_ & -> & _).
    destruct (attach_images_fields db b) as (_ & -> & _). exact Hab.
  - eapply StronglySorted_app_1_l. exact Hsorted.
Qed.

Lemma listGenerations_length (db : Db num) (limit : Z) :
  length (listGenerations db limit)
  = (if limit <? 0 then length (generations_table db)
     else Nat.min (Z.to_nat limit) (length (generations_table db))).
Proof.
  unfold listGenerations. rewrite length_map.
  destruct (sql_limit_split limit (order_by_created_desc (generations_table db)))
    as (rest & _ & Hlen).
  rewrite Hlen, (Permutation_length (order_by_created_perm _)). reflexivity.
Qed.

(** X12: [listGenerations(limit)] answers with the newest generations,
    newest first: the list is in descending [created_at] order, it is
    made of [limit] of the stored rows (of all of them when there are
    fewer, or when [limit] is negative), each with its images attached,
    and no row left out is newer than a row listed. *)
Theorem listGenerations_newest_first (db : Db num) (limit : Z) :
  StronglySorted (fun a b => str_leb (created_at b) (created_at a) = true)
    (listGenerations db limit)
  /\ exists kept rest,
       listGenerations db limit = map (attach_images db) kept
       /\ kept ++ rest ≡ₚ generations_table db
       /\ length kept = (if limit <? 0 then length (generations_table db)
                         else Nat.min (Z.to_nat limit) (length (generations_table db)))
       /\ forall a b, a ∈ kept -> b ∈ rest -> str_leb (created_at b) (created_at a) = true.
Proof.
  split; [apply listGenerations_sorted|].
  destruct (sql_limit_split limit (order_by_created_desc (generations_table db)))
    as (rest & Hsplit & Hlen).
  pose proof (order_by_created_sorted (generations_table db)) as Hsorted.
  rewrite Hsplit in Hsorted.
  exists (sql_limit limit (order_by_created_desc (generations_table db))), rest.
  split; [reflexivity|]. split; [|split].
  - rewrite <- Hsplit. apply order_by_created_perm.
  - rewrite Hlen. rewrite (Permutation_length (order_by_created_perm _)). reflexivity.
  - intros a b Ha Hb.
    apply (StronglySorted_app_1_elem_of _ _ _ a b Hsorted Ha Hb).
Qed.

Lemma filter_unique_id (gens : list (Generation num)) (row : Generation num) :
  NoDup (map id gens) -> row ∈ gens ->
  List.filter (fun g => str_eqb (id g) (id row)) gens = [row].
Proof.
  induction gens as [|g gens IH]; [inversion 2|].
  cbn [map]. intros Hnd Hin. apply NoDup_cons in Hnd as [Hg Hnd].
  apply elem_of_cons in Hin as [->|Hin]; cbn [List.filter].
  - rewrite str_eqb_refl. f_equal. apply SelectFacts.filter_none.
    apply Forall_forall. intros g' Hg'. apply str_eqb_neq. intros E.
    apply Hg. rewrite <- E. apply list_elem_of_fmap. eauto.
  - assert (Hne : str_eqb (id g) (id row) = false).
    { apply str_eqb_neq. intros E. apply Hg. rewrite E. apply list_elem_of_fmap. eauto. }
    rewrite Hne. apply IH; assumption.
Qed.

(** X13: in a ledger whose ids are unique (the primary key), every entry
    of the listing is what [getGeneration] answers for its id. *)
Theorem listGenerations_getGeneration (db : Db num) (limit : Z) :
  NoDup (map id (generations_table db)) ->
  Forall (fun e => getGeneration db (id e) = Some e) (listGenerations db limit).
Proof.
  intros Hnd. unfold listGenerations. apply Forall_forall. intros e He.
  apply list_elem_of_fmap in He as (row & -> & Hrow).
  assert (Hin : row ∈ generations_table db).
  { rewrite <- (order_by_created_perm (generations_table db)).
    destruct (sql_limit_split limit (order_by_created_desc (generations_table db)))
      as (rest & Hsplit & _).
    rewrite Hsplit. apply elem_of_app. left. exact Hrow. }
  destruct (attach_images_fields db row) as (-> & _).
  unfold getGeneration. rewrite (filter_unique_id _ _ Hnd Hin).
  unfold attach_images. destruct (select_images db (id row)); reflexivity.
Qed.

(** The list tool reports as many entries as it lists, [limit] of
    them (10 when none is given) or all there are when fewer, newest
    first. *)
Theorem listGenerationsTool_newest_first (args : ListTool.ListArgs) (db : Db num) :
  ListTool.l_count (ListTool.listGenerations args db)
  = Z.of_nat (length (ListTool.l_generations (ListTool.listGenerations args db)))
  /\ (0 <= default 10 (ListTool.arg_limit args) ->
      ListTool.l_count (ListTool.listGenerations args db)
      = Z.min (default 10 (ListTool.arg_limit args)) (Z.of_nat (length (generations_table db))))
  /\ StronglySorted
       (fun a b => str_leb (ListTool.s_created_at b) (ListTool.s_created_at a) = true)
       (ListTool.l_generations (ListTool.listGenerations args db)).
Proof.
  unfold ListTool.listGenerations. cbn [ListTool.l_count ListTool.l_generations].
  split; [reflexivity|]. split.
  - intros Hpos. rewrite length_map, listGenerations_length.
    destruct (Z.ltb_spec (default 10 (ListTool.arg_limit args)) 0); lia.
  - apply (StronglySorted_fmap _
             (fun a b => str_leb (created_at b) (created_at a) = true));
      [|apply listGenerations_sorted].
    intros a b Hab. exact Hab.
Qed.

(** X15: a selection shows in the listing: after [markSelected], every
    entry the list tool gives for the marked id is flagged as selected
    and carries the public url. *)
Theorem listGenerationsTool_shows_selection
    (args : ListTool.ListArgs) (db : Db num) (gid : jsstring) (index : Z)
    (storageKey publicUrl now_iso : jsstring) :
  Forall (fun s => ListTool.s_id s = gid ->
                   ListTool.s_selected s = true /\ ListTool.s_public_url s = Some publicUrl)
    (ListTool.l_generations
       (ListTool.listGenerations args (markSelected db gid index storageKey publicUrl now_iso).2)).
Proof.
  unfold ListTool.listGenerations, listGenerations. cbn [ListTool.l_generations].
  set (db' := (markSelected db gid index storageKey publicUrl now_iso).2).
  apply Forall_forall. intros s Hs.
  apply list_elem_of_fmap in Hs as (e & -> & He).
  apply list_elem_of_fmap in He as (row & -> & Hrow).
  assert (Hin : row ∈ generations_table db').
  { rewrite <- (order_by_created_perm (generations_table db')).
    destruct (sql_limit_split (default 10 (ListTool.arg_limit args))
                (order_by_created_desc (generations_table db'))) as (rest & Hsplit & _).
    rewrite Hsplit. apply elem_of_app. left. exact Hrow. }
  unfold ListTool.summarize. cbn [ListTool.s_id ListTool.s_selected ListTool.s_public_url].
  destruct (attach_images_fields db' row) as (-> & _ & -> & ->).
  intros Hid. subst db'. unfold markSelected in Hin. cbn [snd generations_table] in Hin.
  apply list_elem_of_fmap in Hin as (g & -> & _).
  destruct (str_eqb (id g) gid) eqn:E.
  - cbn [selected_index public_url set_selected]. split; [|reflexivity].
    apply bool_decide_eq_true. eauto.
  - apply str_eqb_neq in E. contradiction.
Qed.

End Store.
End ListingFacts.

(* ------------------------------------------------------------------ *)
(** ** The accounts, entry by entry *)

Module AccountFacts.
Import Ledger LedgerFacts StoreFacts.

Section Groups.
Context {num : Type} `{NumOps num} `{SqlSum num}.

Lemma collect_rows_entry (ks : list jsstring) (f : jsstring -> num) (m : gmap jsstring num) k :
  fold_left (fun m row => <[row.1 := row.2]> m) (map (fun k' => (k', f k')) ks) m !! k
  = if bool_decide (k ∈ ks) then Some (f k) else m !! k.
Proof.
  induction ks as [|k0 ks IH] in m |- *; cbn [map fold_left].
  - rewrite bool_decide_eq_false_2 by (intros Hk; inversion Hk). reflexivity.
  - rewrite IH. cbn [fst snd].
    destruct (bool_decide_reflect (k ∈ ks)) as [Hin|Hin].
    + rewrite bool_decide_eq_true_2 by (right; exact Hin). reflexivity.
    + destruct (decide (k = k0)) as [->|Hne].
      * rewrite bool_decide_eq_true_2 by left. apply lookup_insert_eq.
      * rewrite bool_decide_eq_false_2
          by (intros Hk; apply elem_of_cons in Hk as [?|?]; contradiction).
        apply lookup_insert_ne. congruence.
Qed.

Lemma filter_filter {A} (p q : A -> bool) (l : list A) :
  List.filter q (List.filter p l) = List.filter (fun x => p x && q x) l.
Proof.
  induction l as [|x l IH]; cbn [List.filter]; [reflexivity|].
  destruct (p x); cbn [List.filter andb]; rewrite IH; reflexivity.
Qed.

Lemma where_since_filter (since : option jsstring) (db : Db num) :
  where_since since db
  = List.filter (fun g => match since with None => true | Some s => str_leb s (created_at g) end)
      (generations_table db).
Proof.
  unfold where_since. destruct since; [reflexivity|].
  symmetry. apply SelectFacts.filter_all. apply Forall_forall. auto.
Qed.

Lemma group_entry (key : Generation num -> jsstring) (since : option jsstring) (db : Db num) k :
  collect (exec_group key since db) !! k
  = match List.filter
            (fun g => match since with None => true | Some s => str_leb s (created_at g) end
                      && str_eqb (key g) k)
            (generations_table db) with
    | [] => None
    | grp => Some (nsum (map cost grp))
    end.
Proof.
  unfold exec_group. rewrite <- filter_filter, <- where_since_filter.
  set (rows := where_since since db).
  assert (Hk : k ∈ distinct (map key rows)
               <-> List.filter (fun g => str_eqb (key g) k) rows <> []).
  { rewrite distinct_elem, list_elem_of_fmap. split.
    - intros (g & -> & Hg) Hnil.
      assert (Hin : g ∈ List.filter (fun g0 => str_eqb (key g0) (key g)) rows)
        by (apply elem_of_List_filter; split; [exact Hg|apply str_eqb_refl]).
      rewrite Hnil in Hin. inversion Hin.
    - intros Hne. destruct (List.filter _ rows) as [|g l] eqn:Ef; [contradiction|].
      assert (Hin : g ∈ rows /\ str_eqb (key g) k = true).
      { apply (proj1 (elem_of_List_filter (fun g0 => str_eqb (key g0) k) rows g)).
        rewrite Ef. left. }
      destruct Hin as [Hin Hkey]. apply str_eqb_eq in Hkey. eauto. }
  destruct (distinct (map key rows)) as [|k0 ks] eqn:Ed.
  - unfold collect. rewrite lookup_empty.
    destruct (List.filter _ rows) as [|g l]; [reflexivity|].
    assert (Hc : k ∈ @nil jsstring) by (apply Hk; discriminate). inversion Hc.
  - rewrite <- Ed in *. unfold collect.
    rewrite (collect_rows_entry (distinct (map key rows))
               (fun k' => nsum (map cost (List.filter (fun g => str_eqb (key g) k') rows)))).
    destruct (bool_decide_reflect (k ∈ distinct (map key rows))) as [Hin|Hin].
    + apply Hk in Hin. destruct (List.filter _ rows); [contradiction|reflexivity].
    + rewrite lookup_empty. destruct (List.filter _ rows) as [|g l] eqn:Ef; [reflexivity|].
      exfalso. apply Hin, Hk. discriminate.
Qed.


End Groups.
End AccountFacts.

(* ------------------------------------------------------------------ *)
(** ** The selection workflow: what a call leaves behind *)

Module SelectionFacts.
Import Templater Sanitizer Ledger LedgerFacts Select StoreFacts.

Lemma dropEndWhile_last p s t c : dropEndWhile p s = t ++ [c] -> p c = false.
Proof.
  induction s as [|x s IH] in t |- *; simpl.
  - destruct t; discriminate.
  - destruct (dropEndWhile p s) as [|y r] eqn:E.
    + destruct (p x) eqn:Ex.
      * destruct t; discriminate.
      * destruct t as [|a [|b t]]; intros [= -> ]; try exact Ex.
        all: try (destruct t; discriminate).
    + destruct t as [|a t]; [discriminate|].
      intros [= <- Ht]. apply (IH t). exact Ht.
Qed.

Lemma collapseRuns_units p r s :
  Forall (fun c => p c = false \/ c = r) (collapseRuns p r s).
Proof.
  induction s as [|c t IH]; simpl; [constructor|].
  destruct (p c) eqn:Ec.
  - destruct t as [|d t']; [constructor; [right; reflexivity|constructor]|].
    destruct (p d); [exact IH|]. constructor; [auto|exact IH].
  - constructor; [auto|exact IH].
Qed.

Section Generic.
Context {num : Type} `{NumOps num} {FS : Type} `{FsApi FS} `{Runtime}.

(** X16: the slug of the default file name has at most 50 units, each a
    lower-case letter, a digit or a hyphen, and does not end in a
    hyphen, whatever the prompt (and whatever [toLowerCase] makes of
    it). *)
Theorem slug_shape (prompt : jsstring) :
  (length (slug prompt) <= 50)%nat
  /\ Forall (fun c => is_lower_alnum c = true \/ c = 45%N) (slug prompt)
  /\ forall t, slug prompt <> t ++ [45%N].
Proof.
  unfold slug. set (s := collapseRuns _ 45%N (toLowerCase prompt)).
  assert (Hs : Forall (fun c => is_lower_alnum c = true \/ c = 45%N) s).
  { eapply Forall_impl; [apply collapseRuns_units|]. simpl. intros c [Hc| ->]; [|auto].
    left. apply negb_false_iff. exact Hc. }
  change (slice0 s 50) with (take 50 s).
  split; [|split].
  - etransitivity; [apply dropEndWhile_length|]. rewrite length_take. lia.
  - destruct (dropEndWhile_prefix (N.eqb 45) (take 50 s)) as [r Hr].
    assert (Ht : Forall (fun c => is_lower_alnum c = true \/ c = 45%N) (take 50 s))
      by (apply Forall_take, Hs).
    rewrite Hr in Ht. apply Forall_app in Ht as [Ht _]. exact Ht.
  - intros t Ht. apply dropEndWhile_last in Ht. discriminate Ht.
Qed.

(** X17: a call that throws before the upload (the generation is not
    stored, the index is invalid or negative, the preview file is missing
    or cannot be read) leaves the ledger and the file system as they were
    and has tried no deletion; the storage had no part in it, the call
    fails the same way with any other.  An exception of the upload or of
    the ledger is another matter. *)
Theorem selectImage_failure_changes_nothing
    (args : SelectArgs) (storage : StorageProvider) (db : Db num) (fs : FS)
    (now_ms : Z) (now_iso : jsstring) (e : error) :
  result (selectImage args storage db fs now_ms now_iso) = Throw e ->
  (forall m, e <> StorageError m) ->
  (forall m, e <> PersistenceError m) ->
  db_after (selectImage args storage db fs now_ms now_iso) = db
  /\ fs_after (selectImage args storage db fs now_ms now_iso) = fs
  /\ delete_attempts (selectImage args storage db fs now_ms now_iso) = []
  /\ forall storage' : StorageProvider,
       result (selectImage args storage' db fs now_ms now_iso) = Throw e.
Proof.
  unfold selectImage.
  destruct (getGeneration db (arg_generation_id args)) as [g|]; [|intros [= <-] _ _; repeat split].
  destruct (images g) as [imgs|]; [|intros [= <-] _ _; repeat split].
  destruct (Z.of_nat (length imgs) <=? arg_index args); [intros [= <-] _ _; repeat split|].
  destruct (array_get imgs (arg_index args)) as [sel|]; [|intros [= <-] _ _; repeat split].
  destruct (readLocalImage fs (preview_url sel)); [|intros [= <-] _ _; repeat split].
  match goal with |- context [storage ?o] => destruct (storage o) end; [discriminate|].
  intros [= <-] Hne _. exfalso. eapply Hne. reflexivity.
Qed.

(** X18: a call that returned uploaded the bytes of the preview at
    position [index] of the generation's images, read from its local
    file, under the file name given (when one was given), with the
    content type that goes with the extension and the sanitized prompt
    as metadata; the url, key and size it reports are those the storage
    answered, and the markdown links that url. *)
Theorem selectImage_uploads_selected_preview
    (args : SelectArgs) (storage : StorageProvider) (db : Db num) (fs : FS)
    (now_ms : Z) (now_iso : jsstring) (r : SelectResponse) :
  result (selectImage args storage db fs now_ms now_iso) = Ok r ->
  exists g imgs sel o u,
    getGeneration db (arg_generation_id args) = Some g
    /\ images g = Some imgs
    /\ 0 <= arg_index args
    /\ imgs !! Z.to_nat (arg_index args) = Some sel
    /\ existsSync fs (preview_url sel) = true
    /\ readFileSync fs (preview_url sel) = Ok (buffer o)
    /\ storage o = Ok u
    /\ (forall f, arg_filename args = Some f -> f <> [] -> filename o = f)
    /\ contentType o = (if includes (preview_url sel) (js ".png")
                        then js "image/png" else js "image/jpeg")
    /\ metadata o = [(js "generation_id", arg_generation_id args);
                     (js "prompt", sanitizeForHeader (prompt g) 500)]
    /\ permanent_url r = publicUrl u
    /\ r_storage_key r = key u
    /\ size_bytes r = size u
    /\ exists alt, markdown r = js "![" ++ alt ++ js "](" ++ publicUrl u ++ js ")".
Proof.
  unfold selectImage.
  destruct (getGeneration db (arg_generation_id args)) as [g|]; [|discriminate].
  destruct (images g) as [imgs|] eqn:Ei; [|discriminate].
  destruct (Z.of_nat (length imgs) <=? arg_index args); [discriminate|].
  unfold array_get.
  destruct (Z.ltb_spec (arg_index args) 0) as [|Hpos]; [discriminate|].
  destruct (imgs !! Z.to_nat (arg_index args)) as [sel|] eqn:Es; [|discriminate].
  unfold readLocalImage.
  destruct (existsSync fs (preview_url sel)) eqn:Eex; cbn [negb]; [|discriminate].
  destruct (readFileSync fs (preview_url sel)) as [buf|] eqn:Er; cbn [lift]; [|discriminate].
  match goal with |- context [storage ?o] =>
    set (o' := o); destruct (storage o') as [u|] eqn:Eu end; [|discriminate].
  cbn [result]. intros [= <-].
  exists g, imgs, sel, o', u. cbn [permanent_url r_storage_key size_bytes markdown].
  repeat (split; [first [reflexivity | assumption]|]).
  split; [|split; [|split]].
  - intros f Hf Hne. subst o'. cbn [filename]. rewrite Hf.
    destruct f; [contradiction|reflexivity].
  - subst o'. cbn [contentType].
    destruct (includes (preview_url sel) (js ".png")); reflexivity.
  - reflexivity.
  - repeat (split; [reflexivity|]). eexists. reflexivity.
Qed.

(** X19: a call that returned has recorded the selection: the generation
    then reads as before with [selected_index] the index asked for,
    [selected_at] the instant of the call, and [storage_key] and
    [public_url] those reported in the response; every other generation
    reads as before. *)
Theorem selectImage_records_selection
    (args : SelectArgs) (storage : StorageProvider) (db : Db num) (fs : FS)
    (now_ms : Z) (now_iso : jsstring) (r : SelectResponse) :
  result (selectImage args storage db fs now_ms now_iso) = Ok r ->
  (exists g,
     getGeneration db (arg_generation_id args) = Some g
     /\ getGeneration (db_after (selectImage args storage db fs now_ms now_iso))
          (arg_generation_id args)
        = Some {| id := id g; prompt := prompt g; negative_prompt := negative_prompt g;
                  context := context g; model := model g; provider := provider g;
                  count := count g; aspect_ratio := aspect_ratio g; cost := cost g;
                  created_at := created_at g; selected_index := Some (arg_index args);
                  selected_at := Some now_iso; storage_key := Some (r_storage_key r);
                  public_url := Some (permanent_url r); images := images g |})
  /\ forall gid, gid <> arg_generation_id args ->
       getGeneration (db_after (selectImage args storage db fs now_ms now_iso)) gid
       = getGeneration db gid.
Proof.
  unfold selectImage.
  destruct (getGeneration db (arg_generation_id args)) as [g|] eqn:Eg; [|discriminate].
  destruct (images g) as [imgs|] eqn:Ei; [|discriminate].
  destruct (Z.of_nat (length imgs) <=? arg_index args); [discriminate|].
  destruct (array_get imgs (arg_index args)) as [sel|]; [|discriminate].
  destruct (readLocalImage fs (preview_url sel)); [|discriminate].
  match goal with |- context [storage ?o] => destruct (storage o) as [u|] end; [|discriminate].
  cbn [result db_after]. intros [= <-]. cbn [r_storage_key permanent_url]. split.
  - exists g. split; [reflexivity|]. rewrite getGeneration_marked, Eg.
    destruct (bool_decide_reflect (arg_generation_id args = arg_generation_id args));
      [reflexivity|contradiction].
  - intros gid Hne. rewrite getGeneration_marked.
    destruct (bool_decide_reflect (gid = arg_generation_id args)); [contradiction|reflexivity].
Qed.

End Generic.
End SelectionFacts.

(* ------------------------------------------------------------------ *)
(** ** The generation workflow: what a call leaves behind *)

Module GenerationFacts.
Import Templater JSNumber Generate LedgerFacts StoreFacts.

Lemma startsWith_split (s p : jsstring) : startsWith s p = true -> s = p ++ drop (length p) s.
Proof.
  induction p as [|a p IH] in s |- *; [reflexivity|].
  destruct s as [|b s]; [discriminate|]. cbn [startsWith].
  intros Hs. apply andb_true_iff in Hs as [Hab Hs]. apply N.eqb_eq in Hab as ->.
  cbn [length drop app]. f_equal. apply IH, Hs.
Qed.

Lemma strip_prefix_Some (p s r : jsstring) : strip_prefix p s = Some r <-> s = p ++ r.
Proof.
  unfold strip_prefix. split.
  - destruct (startsWith s p) eqn:E; [|discriminate].
    intros [= <-]. apply startsWith_split, E.
  - intros ->. rewrite TemplaterFacts.startsWith_app_self, drop_app_length. reflexivity.
Qed.

Lemma span_spec (p : N -> bool) (s a b : jsstring) :
  span p s = (a, b) ->
  s = a ++ b /\ Forall (fun c => p c = true) a
  /\ match b with [] => True | c :: _ => p c = false end.
Proof.
  induction s as [|c s IH] in a, b |- *; cbn [span].
  - intros [= <- <-]. repeat split. constructor.
  - destruct (p c) eqn:Ec.
    + destruct (span p s) as [a' b'] eqn:Es. intros [= <- <-].
      destruct (IH a' b' eq_refl) as (-> & Ha & Hb).
      repeat split; [constructor; assumption|exact Hb].
    + intros [= <- <-]. repeat split; [constructor|exact Ec].
Qed.

Lemma span_app (p : N -> bool) (a b : jsstring) (c : N) :
  Forall (fun x => p x = true) a -> p c = false -> span p (a ++ c :: b) = (a, c :: b).
Proof.
  intros Ha Hc. induction Ha as [|x a Hx _ IH]; cbn [app span].
  - rewrite Hc. reflexivity.
  - rewrite Hx, IH. reflexivity.
Qed.

Section Generic.
Context {FS : Type} `{FsApi FS} `{Runtime} `{SqlSum float}.

(** X20: the urls [dataUrlToBuffer] accepts are exactly the texts
    [data:image/<word>;base64,<payload>] with a non-empty word of letters,
    digits and underscores and a non-empty payload without line
    terminators; the mime type is then [image/<word>] and the buffer the
    decoded payload. *)
Theorem dataUrlToBuffer_accepts (dataUrl : jsstring) (data : DataUrl) :
  dataUrlToBuffer dataUrl = Some data
  <-> exists w payload,
        dataUrl = js "data:image/" ++ w ++ js ";base64," ++ payload
        /\ w <> [] /\ Forall (fun c => is_word c = true) w
        /\ payload <> [] /\ Forall (fun c => is_line_terminator c = false) payload
        /\ data = {| mimeType := js "image/" ++ w; d_buffer := base64Decode payload |}.
Proof.
  unfold dataUrlToBuffer, match_data_url. split.
  - destruct (startsWith dataUrl (js "data:")); cbn [negb]; [|discriminate].
    destruct (strip_prefix (js "data:image/") dataUrl) as [r|] eqn:Er; [|discriminate].
    apply strip_prefix_Some in Er.
    destruct (span is_word r) as [w rest] eqn:Es.
    apply span_spec in Es as (-> & Hw & _).
    destruct w as [|c w]; [discriminate|].
    destruct (strip_prefix (js ";base64,") rest) as [payload|] eqn:Ep; [|discriminate].
    apply strip_prefix_Some in Ep as ->.
    destruct payload as [|x payload]; [discriminate|].
    destruct (forallb _ (x :: payload)) eqn:Ef; [|discriminate].
    intros [= <-]. exists (c :: w), (x :: payload).
    split; [exact Er|]. split; [discriminate|]. split; [exact Hw|].
    split; [discriminate|]. split; [|reflexivity].
    apply Forall_forall. intros y Hy. rewrite forallb_forall in Ef.
    apply negb_true_iff, Ef, list_elem_of_In, Hy.
  - intros (w & payload & -> & Hw & Hword & Hp & Hline & ->).
    assert (Hd : startsWith (js "data:image/" ++ w ++ js ";base64," ++ payload) (js "data:") = true).
    { change (js "data:image/") with (js "data:" ++ js "image/"). rewrite <- app_assoc.
      apply TemplaterFacts.startsWith_app_self. }
    rewrite Hd. cbn [negb].
    rewrite (proj2 (strip_prefix_Some _ _ (w ++ js ";base64," ++ payload)) eq_refl).
    change (js ";base64,") with (59%N :: js "base64,").
    rewrite <- app_comm_cons, (span_app is_word w _ 59%N Hword eq_refl).
    destruct w as [|c w]; [contradiction|].
    change (59%N :: js "base64," ++ payload) with (js ";base64," ++ payload).
    rewrite (proj2 (strip_prefix_Some _ _ payload) eq_refl).
    destruct payload as [|x payload]; [contradiction|].
    assert (Hf : forallb (fun c0 => negb (is_line_terminator c0)) (x :: payload) = true).
    { apply forallb_forall. intros y Hy. apply negb_true_iff.
      rewrite Forall_forall in Hline. apply Hline, list_elem_of_In, Hy. }
    rewrite Hf. reflexivity.
Qed.

(** What a call that returned went through. *)
Lemma generateImages_inv args provider_generate config db (fs : FS) d r :
  result (generateImages args provider_generate config db fs d) = Ok r ->
  exists res dir fs1 saved data g,
    (fs1 = fs \/ mkdirSync fs dir = Ok fs1)
    /\ save_previews fs1 dir (images res) []
       = (Ok saved, fs_after (generateImages args provider_generate config db fs d))
    /\ Ledger.createGeneration db data (uuid d) (created_iso d)
       = (Ok g, db_after (generateImages args provider_generate config db fs d))
    /\ Ledger.new_prompt data = arg_prompt args
    /\ Ledger.new_context data = arg_context args
    /\ Ledger.new_model data = model_used res
    /\ Ledger.new_cost data = cost res
    /\ Ledger.new_images data = map to_row saved
    /\ r = {| r_generation_id := Ledger.id g;
              r_images := map to_preview saved;
              r_cost := cost res;
              r_model_used := model_used res;
              budget_warning :=
                budgetWarning
                  (Ledger.total
                     (Ledger.getCosts
                        (db_after (generateImages args provider_generate config db fs d))
                        (Some (month_start_iso d))))
                  (Cfg.monthly_limit (Cfg.budget config))
                  (Cfg.alert_threshold (Cfg.budget config)) |}.
Proof.
  unfold generateImages.
  match goal with |- context [provider_generate ?o] => destruct (provider_generate o) as [res|] end;
    [|discriminate].
  destruct (Cfg.local_preview_dir (Cfg.storage config)) as [pd|]; [|discriminate].
  match goal with |- context [join pd ?g] => set (dir := join pd g) end.
  destruct (existsSync fs dir) eqn:Eex.
  - destruct (save_previews fs dir (images res) []) as [[saved|] fs2] eqn:Es; [|discriminate].
    match goal with |- context [Ledger.createGeneration db ?x ?u ?c] =>
      set (data := x); destruct (Ledger.createGeneration db data u c) as [[g|] db'] eqn:Ec end;
      [|discriminate].
    cbn [result fs_after db_after]. intros [= <-].
    exists res, dir, fs, saved, data, g. repeat (split; [first [reflexivity|assumption|auto]|]).
    reflexivity.
  - destruct (mkdirSync fs dir) as [fs1|] eqn:Em; [|discriminate].
    destruct (save_previews fs1 dir (images res) []) as [[saved|] fs2] eqn:Es; [|discriminate].
    match goal with |- context [Ledger.createGeneration db ?x ?u ?c] =>
      set (data := x); destruct (Ledger.createGeneration db data u c) as [[g|] db'] eqn:Ec end;
      [|discriminate].
    cbn [result fs_after db_after]. intros [= <-].
    exists res, dir, fs1, saved, data, g. repeat (split; [first [reflexivity|assumption|auto]|]).
    reflexivity.
Qed.

(** X21: a call that throws before it reaches the ledger (the provider
    failed, the preview directory is not configured, or the directory or
    a preview could not be written) leaves the ledger as it was; when it
    is the provider that failed, or the directory is not configured, the
    file system too.  An exception of the ledger itself is another
    matter. *)
Theorem generateImages_failure_keeps_ledger
    (args : GenerateArgs) (provider_generate : ImageProvider) (config : Cfg.Config)
    (db : Ledger.Db float) (fs : FS) (d : Draw) (e : error) :
  result (generateImages args provider_generate config db fs d) = Throw e ->
  (forall m, e <> PersistenceError m) ->
  db_after (generateImages args provider_generate config db fs d) = db
  /\ ((exists m, provider_generate
                   {| o_prompt := arg_prompt args;
                      o_negative_prompt := arg_negative_prompt args;
                      o_count := default (Cfg.count (Cfg.defaults config)) (arg_count args);
                      o_aspect_ratio := default (Cfg.aspect_ratio (Cfg.defaults config))
                                          (arg_aspect_ratio args) |} = Throw m
                 /\ e = ProviderError m)
      \/ (Cfg.local_preview_dir (Cfg.storage config) = None /\ e = TypeError)
      \/ exists code, e = FsError code)
  /\ match e with
     | ProviderError _ | TypeError =>
         fs_after (generateImages args provider_generate config db fs d) = fs
     | _ => True
     end.
Proof.
  unfold generateImages.
  match goal with |- context [provider_generate ?o] =>
    destruct (provider_generate o) as [res|m] eqn:Ep end;
    [|intros [= <-] _; split; [reflexivity|split; [left; eauto|reflexivity]]].
  destruct (Cfg.local_preview_dir (Cfg.storage config)) as [pd|];
    [|intros [= <-] _; split; [reflexivity|split; [right; left; auto|reflexivity]]].
  match goal with |- context [join pd ?g] => set (dir := join pd g) end.
  destruct (if existsSync fs dir then Ok fs else mkdirSync fs dir) as [fs1|];
    [|intros [= <-] _; split; [reflexivity|split; [right; right; eauto|exact I]]].
  destruct (save_previews fs1 dir (images res) []) as [[saved|] fs2];
    [|intros [= <-] _; split; [reflexivity|split; [right; right; eauto|exact I]]].
  unfold Ledger.createGeneration.
  destruct (existsb _ (Ledger.generations_table db)); [|discriminate].
  intros [= <-] Hne. exfalso. eapply Hne. reflexivity.
Qed.

(** X22: a call that returned under an id new to the image table has
    stored what it reports: the id returned reads as a generation with
    the prompt asked for, the cost and model reported, no selection, and
    as images the previews reported, sorted by index (no image list when
    no preview was kept); every other id reads as before. *)
Theorem generateImages_stores_generation
    (args : GenerateArgs) (provider_generate : ImageProvider) (config : Cfg.Config)
    (db : Ledger.Db float) (fs : FS) (d : Draw) (r : GenerateResponse) :
  result (generateImages args provider_generate config db fs d) = Ok r ->
  Forall (fun i => Ledger.generation_id i <> uuid d) (Ledger.images_table db) ->
  r_generation_id r = uuid d
  /\ (exists g,
        Ledger.getGeneration (db_after (generateImages args provider_generate config db fs d))
          (r_generation_id r) = Some g
        /\ Ledger.prompt g = arg_prompt args
        /\ Ledger.cost g = r_cost r
        /\ Ledger.model g = r_model_used r
        /\ Ledger.created_at g = created_iso d
        /\ Ledger.selected_index g = None
        /\ match Ledger.images g with
           | None => r_images r = []
           | Some imgs =>
               map (fun i => (Ledger.index_num i, Ledger.preview_url i,
                              Ledger.width i, Ledger.height i)) imgs
               ≡ₚ map (fun p => (p_index p, p_preview_url p, Some (p_width p), Some (p_height p)))
                    (r_images r)
               /\ StronglySorted (fun a b => Ledger.index_num a <= Ledger.index_num b) imgs
           end)
  /\ forall gid, gid <> uuid d ->
       Ledger.getGeneration (db_after (generateImages args provider_generate config db fs d)) gid
       = Ledger.getGeneration db gid.
Proof.
  intros Hok Hfresh.
  destruct (generateImages_inv _ _ _ _ _ _ _ Hok)
    as (res & dir & fs1 & saved & data & g & _ & _ & Hc & Hp & _ & Hm & Hcost & Himgs & ->).
  set (db' := db_after (generateImages args provider_generate config db fs d)) in *.
  destruct (createGeneration_inv _ _ _ _ _ _ Hc)
    as (Hg & Hid & _ & _ & row & rows & Hgt & Hit & Hrid & Hrat & Hrp & Hrm & _ & Hrc
        & _ & Hrs & _ & Hri & Hrows).
  cbn [r_generation_id r_images r_cost r_model_used].
  assert (Htag : Forall (fun i => Ledger.generation_id i = Ledger.id row) rows).
  { rewrite Hrows, Hrid. apply Forall_forall. intros i0 Hi0.
    apply list_elem_of_fmap in Hi0 as (i1 & -> & _). reflexivity. }
  split; [exact Hid|]. split.
  - rewrite Hid. rewrite <- Hrid in Hg, Hfresh.
    pose proof (getGeneration_snoc_same db db' row rows Hgt Hit Hg Hfresh Htag) as Hget.
    rewrite Hrid in Hget. eexists. split; [exact Hget|].
    destruct rows as [|r0 rs] eqn:Er.
    + rewrite Hrp, Hrc, Hrm, Hrat, Hrs, Hri, Hp, Hcost, Hm.
      repeat (split; [reflexivity|]).
      rewrite Himgs in Hrows. destruct saved; [reflexivity|discriminate].
    + rewrite <- Er in *. clear Hget.
      cbn [Ledger.with_images Ledger.prompt Ledger.cost Ledger.model Ledger.created_at
           Ledger.selected_index Ledger.images].
      rewrite Hrp, Hrc, Hrm, Hrat, Hrs, Hp, Hcost, Hm.
      repeat (split; [reflexivity|]). split.
      * rewrite order_by_index_perm, Hrows, Himgs, !map_map. reflexivity.
      * apply order_by_index_sorted.
  - intros gid Hne. apply (getGeneration_snoc_other db db' row rows); try assumption.
    congruence.
Qed.

(** X23: the budget check of a call that returned looks at the accounts
    of the month as they are after the generation was stored: when its
    creation time is in the month, that total is the engine's [SUM] over
    the month's costs before the call and the cost of this generation,
    one generation more is counted, and so the warning can be triggered
    by the generation that was just made; otherwise the accounts of the
    month are those before the call. *)
Theorem generateImages_budget_counts_new_cost
    (args : GenerateArgs) (provider_generate : ImageProvider) (config : Cfg.Config)
    (db : Ledger.Db float) (fs : FS) (d : Draw) (r : GenerateResponse) :
  result (generateImages args provider_generate config db fs d) = Ok r ->
  budget_warning r
  = budgetWarning
      (Ledger.total
         (Ledger.getCosts (db_after (generateImages args provider_generate config db fs d))
            (Some (month_start_iso d))))
      (Cfg.monthly_limit (Cfg.budget config))
      (Cfg.alert_threshold (Cfg.budget config))
  /\ if Ledger.str_leb (month_start_iso d) (created_iso d)
     then Ledger.generation_count
            (Ledger.getCosts (db_after (generateImages args provider_generate config db fs d))
               (Some (month_start_iso d)))
          = Ledger.generation_count (Ledger.getCosts db (Some (month_start_iso d))) + 1
          /\ Ledger.total
               (Ledger.getCosts (db_after (generateImages args provider_generate config db fs d))
                  (Some (month_start_iso d)))
             = nsum (map Ledger.cost (Ledger.where_since (Some (month_start_iso d)) db)
                     ++ [r_cost r])
     else Ledger.getCosts (db_after (generateImages args provider_generate config db fs d))
            (Some (month_start_iso d))
          = Ledger.getCosts db (Some (month_start_iso d)).
Proof.
  intros Hok.
  destruct (generateImages_inv _ _ _ _ _ _ _ Hok)
    as (res & dir & fs1 & saved & data & g & _ & _ & Hc & _ & _ & _ & Hcost & _ & ->).
  cbn [budget_warning r_cost]. split; [reflexivity|].
  destruct (createGeneration_inv _ _ _ _ _ _ Hc)
    as (_ & _ & _ & _ & row & rows & Hgt & _ & _ & Hrat & _ & _ & _ & Hrc & _).
  pose proof (getCosts_snoc db _ row (Some (month_start_iso d)) Hgt) as Hs.
  rewrite Hrat, Hrc, Hcost in Hs. exact Hs.
Qed.

End Generic.
End GenerationFacts.

(* ------------------------------------------------------------------ *)
(** ** From a generation to its selection *)

Module WorkflowFacts.
Import Templater Ledger LedgerFacts StoreFacts GenerationFacts.

Section Laws.
Context {FS : Type} `{FsApi FS} `{Runtime} `{SqlSum float}.

(** What the workflows rely on in [fs]: a file that was written is there
    and reads back, and writing one file leaves the others alone. *)
Hypothesis write_same : forall (fs fs' : FS) p b,
  writeFileSync fs p b = Ok fs' -> existsSync fs' p = true /\ readFileSync fs' p = Ok b.
Hypothesis write_other : forall (fs fs' : FS) p b q,
  writeFileSync fs p b = Ok fs' -> q <> p ->
  existsSync fs' q = existsSync fs q /\ readFileSync fs' q = readFileSync fs q.

Lemma write_keeps_readable (fs fs' : FS) p b q :
  writeFileSync fs p b = Ok fs' ->
  (existsSync fs q = true /\ exists c, readFileSync fs q = Ok c) ->
  existsSync fs' q = true /\ exists c, readFileSync fs' q = Ok c.
Proof.
  intros Hw [Hex [c Hc]]. destruct (decide (q = p)) as [->|Hne].
  - destruct (write_same _ _ _ _ Hw) as [He Hr]. eauto.
  - destruct (write_other _ _ _ _ q Hw Hne) as [He Hr]. rewrite He, Hr. eauto.
Qed.

(** Every preview the loop saved is on disk when the loop ends. *)
Lemma save_previews_readable (fs fs' : FS) dir imgs saved out :
  Generate.save_previews fs dir imgs saved = (Ok out, fs') ->
  Forall (fun s => existsSync fs (Generate.localPath s) = true
                   /\ exists c, readFileSync fs (Generate.localPath s) = Ok c) saved ->
  Forall (fun s => existsSync fs' (Generate.localPath s) = true
                   /\ exists c, readFileSync fs' (Generate.localPath s) = Ok c) out.
Proof.
  induction imgs as [|img imgs IH] in fs, saved |- *; cbn [Generate.save_previews].
  - intros [= <- <-]. auto.
  - destruct (Generate.dataUrlToBuffer (Generate.url img)) as [data|]; [|apply IH].
    destruct (writeFileSync fs _ (Generate.d_buffer data)) as [fs1|] eqn:Ew; [|discriminate].
    intros Hs Hsaved. apply (IH _ _ Hs). apply Forall_app. split.
    + eapply Forall_impl; [exact Hsaved|]. intros s. apply (write_keeps_readable _ _ _ _ _ Ew).
    + constructor; [|constructor]. cbn [Generate.localPath].
      destruct (write_same _ _ _ _ Ew) as [He Hr]. eauto.
Qed.

(** X24: on a file system that keeps what is written, a generation that
    returned can be selected from: under an id new to the image table,
    and with a storage that accepts the upload, [selectImage] with the
    generation id returned and any index from 0 to the number of previews
    reported (excluded) returns normally. *)
Theorem generate_then_select
    (args : Generate.GenerateArgs) (provider_generate : Generate.ImageProvider)
    (config : Cfg.Config) (db : Db float) (fs : FS) (d : Generate.Draw)
    (r : Generate.GenerateResponse)
    (storage : StorageProvider) (i : Z) (name : option jsstring) (others : option bool)
    (now_ms : Z) (now_iso : jsstring) :
  Generate.result (Generate.generateImages args provider_generate config db fs d) = Ok r ->
  Forall (fun img => generation_id img <> Generate.uuid d) (images_table db) ->
  0 <= i < Z.of_nat (length (Generate.r_images r)) ->
  (forall o, exists u, storage o = Ok u) ->
  exists r',
    Select.result
      (Select.selectImage
         {| Select.arg_generation_id := Generate.r_generation_id r; Select.arg_index := i;
            Select.arg_filename := name; Select.arg_cleanup_others := others |}
         storage
         (Generate.db_after (Generate.generateImages args provider_generate config db fs d))
         (Generate.fs_after (Generate.generateImages args provider_generate config db fs d))
         now_ms now_iso)
    = Ok r'.
Proof.
  intros Hok Hfresh Hi Hstorage.
  destruct (generateImages_inv _ _ _ _ _ _ _ Hok)
    as (res & dir & fs1 & saved & data & g & _ & Hsave & Hc & _ & _ & _ & _ & Himgs & ->).
  set (db' := Generate.db_after _) in *. set (fs' := Generate.fs_after _) in *.
  cbn [Generate.r_generation_id Generate.r_images] in *.
  rewrite length_map in Hi.
  apply save_previews_readable in Hsave; [|constructor].
  destruct (createGeneration_inv _ _ _ _ _ _ Hc)
    as (Hg & Hid & _ & _ & row & rows & Hgt & Hit & Hrid & _ & _ & _ & _ & _
        & _ & _ & _ & _ & Hrows).
  assert (Htag : Forall (fun img => generation_id img = id row) rows).
  { rewrite Hrows, Hrid. apply Forall_forall. intros i0 Hi0.
    apply list_elem_of_fmap in Hi0 as (i1 & -> & _). reflexivity. }
  rewrite <- Hrid in Hg, Hfresh.
  pose proof (getGeneration_snoc_same db db' row rows Hgt Hit Hg Hfresh Htag) as Hget.
  rewrite Hrid, <- Hid in Hget.
  assert (Hlen : length rows = length saved) by (rewrite Hrows, Himgs, !length_map; reflexivity).
  destruct rows as [|r0 rs] eqn:Er; [simpl in Hlen; lia|]. rewrite <- Er in *.
  assert (Hpaths : Forall (fun img => existsSync fs' (preview_url img) = true
                                      /\ exists c, readFileSync fs' (preview_url img) = Ok c)
                     (order_by_index rows)).
  { rewrite order_by_index_perm, Hrows, Himgs. apply Forall_forall. intros img Himg.
    apply list_elem_of_fmap in Himg as (i1 & -> & Hi1).
    apply list_elem_of_fmap in Hi1 as (s & -> & Hs). cbn [preview_url Generate.to_row].
    rewrite Forall_forall in Hsave. apply Hsave, Hs. }
  assert (Hl : length (order_by_index rows) = length saved)
    by (rewrite (Permutation_length (order_by_index_perm rows)); exact Hlen).
  unfold Select.selectImage. cbn [Select.arg_generation_id Select.arg_index].
  rewrite Hget. cbn [with_images images]. rewrite Hl.
  destruct (Z.leb_spec (Z.of_nat (length saved)) i); [lia|].
  unfold Select.array_get. destruct (Z.ltb_spec i 0); [lia|].
  destruct (lookup_lt_is_Some_2 (order_by_index rows) (Z.to_nat i)) as [sel Hsel]; [lia|].
  rewrite Hsel. rewrite Forall_forall in Hpaths.
  destruct (Hpaths sel) as [Hex [c Hc']]; [eapply list_elem_of_lookup_2; exact Hsel|].
  unfold Select.readLocalImage. rewrite Hex, Hc'. cbn [negb lift].
  match goal with |- context [storage ?o] => destruct (Hstorage o) as [u ->] end.
  eexists. reflexivity.
Qed.

End Laws.

Section Removal.
Context {num : Type} `{NumOps num} {FS : Type} `{FsApi FS} `{Runtime}.

(** What the cleanup relies on in [fs]: an unlinked file is gone, and
    neither [unlinkSync] nor [rmdirSync] brings a path into being. *)
Hypothesis unlink_gone : forall (fs fs' : FS) p,
  unlinkSync fs p = Ok fs' -> existsSync fs' p = false.
Hypothesis unlink_creates_nothing : forall (fs fs' : FS) p q,
  unlinkSync fs p = Ok fs' -> existsSync fs q = false -> existsSync fs' q = false.
Hypothesis rmdir_creates_nothing : forall (fs fs' : FS) d q,
  rmdirSync fs d = Ok fs' -> existsSync fs q = false -> existsSync fs' q = false.

(** The previews the loop deleted are gone when it ends. *)
Lemma cleanup_fold_gone co index imgs (st : Select.CleanupState) :
  Forall (fun a => Select.deleted a = true ->
                   existsSync (Select.cs_fs st) (Select.at_path a) = false)
    (Select.attempts st) ->
  Forall (fun a => Select.deleted a = true ->
                   existsSync (Select.cs_fs (fold_left (Select.cleanup_step co index) imgs st))
                     (Select.at_path a) = false)
    (Select.attempts (fold_left (Select.cleanup_step co index) imgs st)).
Proof.
  induction imgs as [|img imgs IH] in st |- *; cbn [fold_left]; [auto|].
  intros Hst. apply IH. unfold Select.cleanup_step.
  destruct (Select.isLocalPath (preview_url img)); cbn [negb]; [|exact Hst].
  destruct (co || (index_num img =? index)); [|exact Hst].
  destruct (existsSync (Select.cs_fs st) (preview_url img)) eqn:Eex.
  - destruct (unlinkSync (Select.cs_fs st) (preview_url img)) as [fs'|] eqn:Eu;
      cbn [Select.cs_fs Select.attempts]; apply Forall_app; split.
    + eapply Forall_impl; [exact Hst|]. intros a Ha Hd. cbn beta in *.
      apply (unlink_creates_nothing _ _ _ _ Eu), Ha, Hd.
    + constructor; [|constructor]. intros _. cbn [Select.at_path].
      apply (unlink_gone _ _ _ Eu).
    + exact Hst.
    + constructor; [|constructor]. discriminate.
  - cbn [Select.cs_fs Select.attempts]. apply Forall_app. split; [exact Hst|].
    constructor; [|constructor]. discriminate.
Qed.

Lemma filter_full {A} (f : A -> bool) (l : list A) :
  length (List.filter f l) = length l -> List.filter f l = l.
Proof.
  induction l as [|x l IH]; cbn [List.filter]; [reflexivity|].
  destruct (f x); cbn [length]; intros Hl.
  - f_equal. apply IH. lia.
  - pose proof (List.filter_length_le f l). lia.
Qed.

(** X14: once is all: on a file system where an unlinked file is gone
    and removals create nothing, after a call of [selectImage] that
    returned and reports as many deleted previews as the generation has
    images, every further call for that generation with an index in range
    throws for the missing preview file, whatever the storage. *)
Theorem select_again_finds_no_preview
    (args : Select.SelectArgs) (storage : StorageProvider) (db : Db num) (fs : FS)
    (now_ms : Z) (now_iso : jsstring) (r : Select.SelectResponse)
    (g : Generation num) (imgs : list GenerationImage)
    (args' : Select.SelectArgs) (storage' : StorageProvider)
    (now_ms' : Z) (now_iso' : jsstring) :
  Select.result (Select.selectImage args storage db fs now_ms now_iso) = Ok r ->
  getGeneration db (Select.arg_generation_id args) = Some g ->
  images g = Some imgs ->
  Select.deleted_previews (Select.cleanup r) = Z.of_nat (length imgs) ->
  Select.arg_generation_id args' = Select.arg_generation_id args ->
  0 <= Select.arg_index args' < Z.of_nat (length imgs) ->
  exists img,
    imgs !! Z.to_nat (Select.arg_index args') = Some img
    /\ Select.result
         (Select.selectImage args' storage'
            (Select.db_after (Select.selectImage args storage db fs now_ms now_iso))
            (Select.fs_after (Select.selectImage args storage db fs now_ms now_iso))
            now_ms' now_iso')
       = Throw (PreviewMissing (preview_url img)).
Proof.
  intros Hok Hg Hi Hcount Hgid Hidx.
  destruct (lookup_lt_is_Some_2 imgs (Z.to_nat (Select.arg_index args'))) as [img Himg]; [lia|].
  exists img. split; [exact Himg|].
  assert (Hgone : existsSync
                    (Select.fs_after (Select.selectImage args storage db fs now_ms now_iso))
                    (preview_url img) = false
                  /\ getGeneration
                       (Select.db_after (Select.selectImage args storage db fs now_ms now_iso))
                       (Select.arg_generation_id args)
                     = Some (set_selected g (Select.arg_index args) now_iso
                               (Select.r_storage_key r) (Select.permanent_url r))).
  { revert Hok Hcount. unfold Select.selectImage. rewrite Hg, Hi.
    destruct (Z.of_nat (length imgs) <=? Select.arg_index args); [discriminate|].
    destruct (Select.array_get imgs (Select.arg_index args)) as [sel|]; [|discriminate].
    destruct (Select.readLocalImage fs (preview_url sel)); [|discriminate].
    match goal with |- context [storage ?o] => destruct (storage o) as [u|] end; [|discriminate].
    cbn [Select.result Select.db_after Select.fs_after]. intros [= <-].
    cbn [Select.cleanup Select.deleted_previews Select.r_storage_key Select.permanent_url].
    intros Hcount. split.
    - set (co := negb (bool_decide (Select.arg_cleanup_others args = Some false))) in *.
      unfold Select.cleanup_loop in *.
      match goal with |- context [fold_left ?f imgs ?s] => set (st0 := s) in * end.
      pose proof (SelectFacts.cleanup_fold_attempts co (Select.arg_index args) imgs st0) as Hpaths.
      pose proof (SelectFacts.cleanup_fold_deleted co (Select.arg_index args) imgs st0 eq_refl)
        as Hdel.
      pose proof (cleanup_fold_gone co (Select.arg_index args) imgs st0 (Forall_nil_2 _)) as Hgone.
      set (st := fold_left (Select.cleanup_step co (Select.arg_index args)) imgs st0) in *.
      cbn [Select.attempts map app] in Hpaths.
      assert (Hla : length (Select.attempts st)
                    = length (List.filter (Select.targeted co (Select.arg_index args)) imgs)).
      { rewrite <- (length_map Select.at_path (Select.attempts st)), Hpaths.
        apply length_map. }
      pose proof (List.filter_length_le Select.deleted (Select.attempts st)) as Hle1.
      pose proof (List.filter_length_le (Select.targeted co (Select.arg_index args)) imgs)
        as Hle2.
      assert (Hall : List.filter Select.deleted (Select.attempts st) = Select.attempts st)
        by (apply filter_full; lia).
      assert (Htar : List.filter (Select.targeted co (Select.arg_index args)) imgs = imgs)
        by (apply filter_full; lia).
      rewrite Htar in Hpaths.
      assert (Hin : preview_url img ∈ map Select.at_path (Select.attempts st)).
      { rewrite Hpaths. apply list_elem_of_fmap. exists img. split; [reflexivity|].
        eapply list_elem_of_lookup_2. exact Himg. }
      apply list_elem_of_fmap in Hin as (att & Ha & Hain).
      assert (Hda : Select.deleted att = true).
      { rewrite <- Hall in Hain.
        apply LedgerFacts.elem_of_List_filter in Hain as [_ Hd]. exact Hd. }
      rewrite Forall_forall in Hgone. specialize (Hgone att Hain Hda). rewrite <- Ha in Hgone.
      unfold Select.remove_dir.
      destruct (or_null (Select.previewDir st)) as [d|]; [|exact Hgone].
      destruct co; [|exact Hgone].
      destruct (rmdirSync (Select.cs_fs st) d) as [fs'|] eqn:Er; [|exact Hgone].
      apply (rmdir_creates_nothing _ _ _ _ Er), Hgone.
    - rewrite getGeneration_marked, Hg.
      destruct (bool_decide_reflect (Select.arg_generation_id args = Select.arg_generation_id args));
        [reflexivity|contradiction]. }
  destruct Hgone as [Hgone Hget].
  unfold Select.selectImage at 1. rewrite Hgid, Hget. cbn [images set_selected]. rewrite Hi.
  destruct (Z.leb_spec (Z.of_nat (length imgs)) (Select.arg_index args')); [lia|].
  unfold Select.array_get. destruct (Z.ltb_spec (Select.arg_index args') 0); [lia|].
  rewrite Himg. unfold Select.readLocalImage. rewrite Hgone. reflexivity.
Qed.

End Removal.
End WorkflowFacts.

(** The in-memory file system keeps what is written. *)
Module SimFacts.
Import Sim.

Lemma find_node_removed (fs : MemFs) p : find_node (remove_node fs p) p = None.
Proof.
  induction fs as [|[q n] fs IH]; [reflexivity|]. unfold remove_node in *. cbn [List.filter fst].
  destruct (bool_decide_reflect (q = p)) as [E|E]; cbn [negb]; [exact IH|].
  cbn [find_node]. rewrite bool_decide_eq_false_2 by exact E. exact IH.
Qed.

Lemma find_node_remove_other (fs : MemFs) p q :
  q <> p -> find_node (remove_node fs p) q = find_node fs q.
Proof.
  intros Hne. induction fs as [|[k n] fs IH]; [reflexivity|].
  unfold remove_node in *. cbn [List.filter fst find_node].
  destruct (bool_decide_reflect (k = p)) as [E|E]; cbn [negb].
  - subst k. rewrite bool_decide_eq_false_2 by congruence. exact IH.
  - cbn [find_node]. rewrite IH. reflexivity.
Qed.

Lemma find_node_snoc (fs : MemFs) p n q :
  find_node (fs ++ [(p, n)]) q
  = match find_node fs q with
    | Some x => Some x
    | None => if bool_decide (p = q) then Some n else None
    end.
Proof.
  induction fs as [|[k m] fs IH]; [reflexivity|]. cbn [app find_node].
  destruct (bool_decide (k = q)); [reflexivity|exact IH].
Qed.

Lemma memfs_write (fs fs' : MemFs) p b :
  writeFileSync fs p b = Ok fs' -> fs' = remove_node fs p ++ [(p, File b false)].
Proof.
  cbn [writeFileSync memfs_api].
  destruct (find_node fs p) as [[? [|]|]|]; intros [= <-]; reflexivity.
Qed.

Lemma memfs_write_same (fs fs' : MemFs) p b :
  writeFileSync fs p b = Ok fs' -> existsSync fs' p = true /\ readFileSync fs' p = Ok b.
Proof.
  intros Hw. apply memfs_write in Hw as ->. cbn [existsSync readFileSync memfs_api].
  rewrite find_node_snoc, find_node_removed.
  rewrite (bool_decide_eq_true_2 (p = p)) by reflexivity.
  split; [apply bool_decide_eq_true; eauto|reflexivity].
Qed.

Lemma memfs_write_other (fs fs' : MemFs) p b q :
  writeFileSync fs p b = Ok fs' -> q <> p ->
  existsSync fs' q = existsSync fs q /\ readFileSync fs' q = readFileSync fs q.
Proof.
  intros Hw Hne. apply memfs_write in Hw as ->. cbn [existsSync readFileSync memfs_api].
  rewrite find_node_snoc. rewrite find_node_remove_other by exact Hne.
  rewrite (bool_decide_eq_false_2 (p = q)) by congruence.
  destruct (find_node fs q); split; reflexivity.
Qed.

Lemma find_node_remove_none (fs : MemFs) p q :
  find_node fs q = None -> find_node (remove_node fs p) q = None.
Proof.
  destruct (decide (q = p)) as [->|Hne]; [intros _; apply find_node_removed|].
  rewrite find_node_remove_other by exact Hne. auto.
Qed.

Lemma memfs_exists (fs : MemFs) p : existsSync fs p = false <-> find_node fs p = None.
Proof.
  cbn [existsSync memfs_api]. rewrite bool_decide_eq_false. split.
  - destruct (find_node fs p); [intros Hn; destruct Hn; eauto|reflexivity].
  - intros -> [x Hx]. discriminate.
Qed.

Lemma memfs_unlink (fs fs' : MemFs) p :
  unlinkSync fs p = Ok fs' -> fs' = remove_node fs p.
Proof.
  cbn [unlinkSync memfs_api].
  destruct (find_node fs p) as [[? [|]|]|]; intros Hu; try discriminate Hu.
  inversion Hu. reflexivity.
Qed.

Lemma memfs_rmdir (fs fs' : MemFs) d :
  rmdirSync fs d = Ok fs' -> fs' = remove_node fs d.
Proof.
  cbn [rmdirSync memfs_api].
  destruct (find_node fs d) as [[]|]; try discriminate.
  destruct (children fs d); intros Hu; try discriminate Hu.
  inversion Hu. reflexivity.
Qed.

Lemma memfs_unlink_gone (fs fs' : MemFs) p :
  unlinkSync fs p = Ok fs' -> existsSync fs' p = false.
Proof. intros Hu. apply memfs_unlink in Hu as ->. apply memfs_exists, find_node_removed. Qed.

Lemma memfs_unlink_creates_nothing (fs fs' : MemFs) p q :
  unlinkSync fs p = Ok fs' -> existsSync fs q = false -> existsSync fs' q = false.
Proof.
  intros Hu. apply memfs_unlink in Hu as ->. rewrite !memfs_exists.
  apply find_node_remove_none.
Qed.

Lemma memfs_rmdir_creates_nothing (fs fs' : MemFs) d q :
  rmdirSync fs d = Ok fs' -> existsSync fs q = false -> existsSync fs' q = false.
Proof.
  intros Hu. apply memfs_rmdir in Hu as ->. rewrite !memfs_exists.
  apply find_node_remove_none.
Qed.

End SimFacts.

(* ------------------------------------------------------------------ *)
(** ** The retention sweeper: candidates and accounting *)

Module SweepFacts.
Import Templater Sweeper LedgerFacts.

Section Generic.
Context {FS : Type} `{FsApi FS} `{Runtime}.

Lemma scan_spec (fs : FS) dir cutoff now entries acc out :
  scan fs dir cutoff now entries acc = Ok out ->
  forall c,
    c ∈ out <->
    c ∈ acc \/
    exists entry st,
      entry ∈ entries /\ startsWith entry (js "gen-") = true
      /\ statSync fs (join dir entry) = Ok st
      /\ isDirectory st = true /\ mtimeMs st < cutoff
      /\ c = {| path := join dir entry; ageDays := (now - mtimeMs st) / ms_per_day |}.
Proof.
  induction entries as [|entry rest IH] in acc |- *; cbn [scan].
  - intros [= <-] c. split; [auto|]. intros [Hc|(e & st & He & _)]; [exact Hc|inversion He].
  - destruct (startsWith entry (js "gen-")) eqn:Eg; cbn [negb].
    + destruct (statSync fs (join dir entry)) as [st|] eqn:Est; [|discriminate].
      destruct (isDirectory st && (mtimeMs st <? cutoff)) eqn:Eq.
      * intros Hs c. rewrite (IH _ Hs c), elem_of_app, list_elem_of_singleton.
        apply andb_true_iff in Eq as [Hd Hm]. apply Z.ltb_lt in Hm.
        split.
        -- intros [[Hc| ->]|(e & st' & He & Hrest)]; [auto| |].
           ++ right. exists entry, st. repeat split; auto. left.
           ++ right. exists e, st'. split; [right; exact He|exact Hrest].
        -- intros [Hc|(e & st' & He & Hg & Hst & Hd' & Hm' & ->)]; [auto|].
           apply elem_of_cons in He as [->|He].
           ++ rewrite Est in Hst. injection Hst as <-. auto.
           ++ right. exists e, st'. repeat split; auto.
      * intros Hs c. rewrite (IH _ Hs c). split.
        -- intros [Hc|(e & st' & He & Hrest)]; [auto|].
           right. exists e, st'. split; [right; exact He|exact Hrest].
        -- intros [Hc|(e & st' & He & Hg & Hst & Hd' & Hm' & ->)]; [auto|].
           apply elem_of_cons in He as [->|He].
           ++ rewrite Est in Hst. injection Hst as <-.
              apply Z.ltb_lt in Hm'. rewrite Hd', Hm' in Eq. discriminate.
           ++ right. exists e, st'. repeat split; auto.
    + intros Hs c. rewrite (IH _ Hs c). split.
      * intros [Hc|(e & st' & He & Hrest)]; [auto|].
        right. exists e, st'. split; [right; exact He|exact Hrest].
      * intros [Hc|(e & st' & He & Hg & Hrest)]; [auto|].
        apply elem_of_cons in He as [->|He]; [rewrite Eg in Hg; discriminate|].
        right. exists e, st'. repeat split; tauto.
Qed.

(** X25: the candidates of a sweep are exactly the entries of the preview
    area whose name starts with [gen-] and that are directories last
    modified before the cutoff, each under its joined path with its age in
    whole days; nothing else is ever a candidate. *)
Theorem find_candidates_characterised
    (fs : FS) (previewDir : jsstring) (cutoffTime now : Z) (found : list Candidate) :
  find_candidates fs previewDir cutoffTime now = Ok found ->
  exists entries,
    readdirSync fs previewDir = Ok entries
    /\ forall c,
         c ∈ found <->
         exists entry st,
           entry ∈ entries /\ startsWith entry (js "gen-") = true
           /\ statSync fs (join previewDir entry) = Ok st
           /\ isDirectory st = true /\ mtimeMs st < cutoffTime
           /\ c = {| path := join previewDir entry;
                     ageDays := (now - mtimeMs st) / ms_per_day |}.
Proof.
  unfold find_candidates.
  destruct (readdirSync fs previewDir) as [entries|]; [|discriminate].
  intros Hs. exists entries. split; [reflexivity|]. intros c.
  rewrite (scan_spec _ _ _ _ _ _ _ Hs c). split; [|auto].
  intros [Hc|Hc]; [inversion Hc|exact Hc].
Qed.

Lemma delete_all_accounting (fs fs' : FS) cands n errs n' errs' :
  delete_all fs cands n errs = (n', errs', fs') ->
  n' + Z.of_nat (length errs') = n + Z.of_nat (length errs) + Z.of_nat (length cands)
  /\ n <= n'
  /\ exists new, errs' = errs ++ new /\ Forall (fun e => e.1 ∈ map path cands) new.
Proof.
  induction cands as [|c cands IH] in fs, n, errs |- *; cbn [delete_all].
  - intros [= <- <- <-]. split; [simpl; lia|]. split; [lia|].
    exists []. rewrite app_nil_r. split; [reflexivity|constructor].
  - destruct (delete_dir fs (path c)) as [[[]|e] fs1].
    + intros Hd. destruct (IH _ _ _ Hd) as (Hsum & Hle & new & -> & Hnew).
      split; [cbn [length]; lia|]. split; [lia|]. exists new. split; [reflexivity|].
      eapply Forall_impl; [exact Hnew|]. intros x Hx. cbn [map]. right. exact Hx.
    + intros Hd. destruct (IH _ _ _ Hd) as (Hsum & Hle & new & -> & Hnew).
      split; [rewrite !length_app in Hsum |- *; cbn [length] in *; lia|]. split; [lia|]. exists ((path c, e) :: new).
      split; [rewrite <- app_assoc; reflexivity|].
      constructor; [cbn [map fst]; left|].
      eapply Forall_impl; [exact Hnew|]. intros x Hx. cbn [map]. right. exact Hx.
Qed.

(** X26: only the payload of a deletion goes with a change of the file
    system.  That payload is given only outside a dry run and over a
    non-empty list of candidates; every candidate is then either counted
    as deleted or reported with its path among the errors, so the count
    and the number of errors add up to the number of candidates, and the
    error list is left out when there is none. *)
Theorem cleanupPreviews_accounting
    (args : CleanupArgs) (config : Cfg.Config) (fs : FS) (now : Z) :
  match (cleanupPreviews args config fs now).1 with
  | Deleted n cutoff older errs =>
      dry_run args <> Some true
      /\ older = default (Cfg.auto_cleanup_days (Cfg.defaults config)) (older_than_days args)
      /\ exists previewDir found,
           Ledger.or_null (Cfg.local_preview_dir (Cfg.storage config)) = Some previewDir
           /\ find_candidates fs previewDir (daysBefore now older) now = Ok found
           /\ found <> []
           /\ 0 <= n
           /\ n + Z.of_nat (length (default [] errs)) = Z.of_nat (length found)
           /\ errs <> Some []
           /\ Forall (fun e => e.1 ∈ map path found) (default [] errs)
  | _ => (cleanupPreviews args config fs now).2 = fs
  end.
Proof.
  unfold cleanupPreviews.
  destruct (Ledger.or_null (Cfg.local_preview_dir (Cfg.storage config))) as [pd|] eqn:Epd;
    [|reflexivity].
  destruct (existsSync fs pd); cbn [negb]; [|reflexivity].
  destruct (find_candidates fs pd _ now) as [found|] eqn:Ef; [|reflexivity].
  destruct (Z.eqb_spec (Z.of_nat (length found)) 0) as [|Hn]; [reflexivity|].
  destruct (dry_run args) as [[|]|] eqn:Edry; cbn [default]; [reflexivity| |].
  all: destruct (delete_all fs found 0 []) as [[n errs] fs'] eqn:Ed; cbn [fst].
  all: destruct (delete_all_accounting _ _ _ _ _ _ _ Ed) as (Hsum & Hle & new & Hnew & Hpaths).
  all: cbn [app length] in Hnew, Hsum; subst errs.
  all: split; [discriminate|]; split; [reflexivity|].
  all: exists pd, found; split; [reflexivity|]; split; [exact Ef|].
  all: split; [intros ->; apply Hn; reflexivity|]; split; [lia|].
  all: destruct new; simpl in *; (split; [lia|]); (split; [discriminate|]); assumption.
Qed.

(** X27: a dry run announces what a real run attempts: when a dry run
    reports [n] directories it would delete, a real run with the same
    age bound on the same file system at the same instant answers with
    the payload of a deletion, under the same cutoff, and the directories
    it deleted and those it reports as errors are [n] in all. *)
Theorem dry_run_predicts_real_run
    (older : option Z) (config : Cfg.Config) (fs : FS) (now : Z)
    (n : Z) (cutoff : jsstring) (days : Z) (previews : list Candidate)
    (message : option jsstring) (real : option bool) :
  (cleanupPreviews {| older_than_days := older; dry_run := Some true |} config fs now).1
  = DryRun n cutoff days previews message ->
  real <> Some true ->
  exists k errs,
    (cleanupPreviews {| older_than_days := older; dry_run := real |} config fs now).1
    = Deleted k cutoff days errs
    /\ 0 <= k
    /\ k + Z.of_nat (length (default [] errs)) = n.
Proof.
  unfold cleanupPreviews. cbn [older_than_days dry_run].
  destruct (Ledger.or_null (Cfg.local_preview_dir (Cfg.storage config))) as [pd|];
    [|discriminate].
  destruct (existsSync fs pd); cbn [negb]; [|discriminate].
  destruct (find_candidates fs pd _ now) as [found|]; [|discriminate].
  destruct (Z.of_nat (length found) =? 0); [discriminate|].
  change (default false (Some true)) with true. cbn [fst]. intros [= <- <- <- _ _] Hreal.
  assert (Hr : default false real = false) by (destruct real as [[|]|]; [contradiction|auto..]).
  rewrite Hr.
  destruct (delete_all fs found 0 []) as [[k errs] fs'] eqn:Ed. cbn [fst].
  destruct (delete_all_accounting _ _ _ _ _ _ _ Ed) as (Hsum & Hle & _).
  eexists. eexists. split; [reflexivity|]. split; [lia|].
  destruct errs; simpl in *; lia.
Qed.

End Generic.
End SweepFacts.

(* ------------------------------------------------------------------ *)
(** ** The cost report *)

Module CostsFacts.
Import JSNumber Costs.

Lemma ltb_leb (x y : float) : PrimFloat.ltb x y = true -> PrimFloat.leb x y = true.
Proof.
  rewrite FloatAxioms.ltb_spec, FloatAxioms.leb_spec. unfold SFltb, SFleb.
  destruct (SFcompare (Prim2SF x) (Prim2SF y)) as [[]|]; try discriminate; reflexivity.
Qed.

Lemma is_nan_spec (x : float) : PrimFloat.is_nan x = true -> Prim2SF x = S754_nan.
Proof.
  unfold PrimFloat.is_nan. rewrite FloatAxioms.eqb_spec. unfold SFeqb.
  destruct (Prim2SF x) as [s|s| |s m e]; cbn [SFcompare]; auto.
  - discriminate.
  - destruct s; discriminate.
  - rewrite Z.compare_refl. change (Pos.compare_cont Eq m m) with (Pos.compare m m).
    rewrite Pos.compare_refl. destruct s; discriminate.
Qed.

Lemma ltb_nan (x y : float) : PrimFloat.is_nan y = true -> PrimFloat.ltb x y = false.
Proof.
  intros Hn. rewrite FloatAxioms.ltb_spec, (is_nan_spec y Hn). unfold SFltb.
  destruct (Prim2SF x); reflexivity.
Qed.

(** [Math.max(0, x)]: [NaN] for [NaN], [x] for a positive [x], and
    [+0] otherwise. *)
Lemma Math_max_zero (x : float) :
  Math_max 0 x
  = if PrimFloat.is_nan x then PrimFloat.nan
    else if PrimFloat.ltb 0 x then x else 0%float.
Proof.
  unfold Math_max. change (PrimFloat.is_nan 0) with false. cbn [orb].
  destruct (PrimFloat.is_nan x); [reflexivity|].
  change (max_step PrimFloat.neg_infinity 0) with 0%float.
  unfold max_step. change (is_neg_zero 0) with false. rewrite andb_false_r. reflexivity.
Qed.

Section Tool.
Context `{Runtime} `{LocalClock} `{SqlSum float}.

(** X28: the report of the month (the default period) carries a budget
    remainder that is never negative: it is the limit minus the total
    where that is positive, zero where the total has reached the limit,
    and [NaN] only if that difference is; the report of any other period
    carries neither remainder nor percentage. *)
Theorem getCosts_budget_remaining
    (args : CostsArgs) (config : Cfg.Config) (db : Ledger.Db float) (now : Z) :
  (default (js "month") (arg_period args) = js "month" ->
   exists r,
     budget_remaining (getCosts args config db now) = Some r
     /\ (PrimFloat.is_nan r = true \/ PrimFloat.leb 0 r = true)
     /\ (PrimFloat.is_nan r = true ->
         PrimFloat.is_nan (Cfg.monthly_limit (Cfg.budget config)
                           - total (getCosts args config db now)) = true)
     /\ (PrimFloat.ltb 0 (Cfg.monthly_limit (Cfg.budget config)
                          - total (getCosts args config db now)) = true ->
         r = (Cfg.monthly_limit (Cfg.budget config)
              - total (getCosts args config db now))%float))
  /\ (default (js "month") (arg_period args) <> js "month" ->
      budget_remaining (getCosts args config db now) = None
      /\ budget_percent (getCosts args config db now) = None).
Proof.
  unfold getCosts. cbn [budget_remaining budget_percent total]. split.
  - intros Hm. rewrite Hm. rewrite (bool_decide_eq_true_2 _ eq_refl).
    match goal with |- context [Math_max 0 ?x] => set (x' := x) end.
    exists (Math_max 0 x'). split; [reflexivity|]. rewrite Math_max_zero.
    destruct (PrimFloat.is_nan x') eqn:En.
    + split; [left; reflexivity|]. split; [auto|]. intros Hlt.
      rewrite (ltb_nan 0 x' En) in Hlt. discriminate.
    + destruct (PrimFloat.ltb 0 x') eqn:El.
      * split; [right; apply ltb_leb, El|]. split; [intros Hn; congruence|auto].
      * split; [right; reflexivity|]. split; [intros Hn; vm_compute in Hn|]; discriminate.
  - intros Hm. rewrite (bool_decide_eq_false_2 _ Hm). split; reflexivity.
Qed.

End Tool.
End CostsFacts.

(* ------------------------------------------------------------------ *)
(** ** The Gemini provider *)

Module GeminiFacts.
Import Generate Gemini.

Lemma rounds_spec (api : Api) (req : Request) (n : nat) (i : Z) (acc out : list GeneratedImage) :
  rounds api req n i acc = Ok out ->
  exists new,
    out = acc ++ new
    /\ (length new <= n)%nat
    /\ StronglySorted Z.lt (map index new)
    /\ Forall (fun img => i <= index img < i + Z.of_nat n
                          /\ delivers api req (index img) img) new
    /\ forall j, i <= j < i + Z.of_nat n ->
         (exists parts d, api req j = Ok parts /\ first_inline parts = Some d) ->
         j ∈ map index new.
Proof.
  induction n as [|n IH] in i, acc |- *; cbn [rounds].
  - intros [= <-]. exists []. rewrite app_nil_r.
    repeat split; try constructor. intros j Hj. lia.
  - destruct (api req i) as [parts|] eqn:Ea; [|discriminate].
    intros Hr. apply IH in Hr as (new & -> & Hlen & Hsorted & Hall & Hcomp).
    assert (Hlater : Forall (fun img => i <= index img < i + Z.of_nat (S n)
                                        /\ delivers api req (index img) img) new).
    { eapply Forall_impl; [exact Hall|]. simpl. intros img (Hi & Hrest). split; [lia|exact Hrest]. }
    destruct (first_inline parts) as [d|] eqn:Ef.
    + eexists (_ :: new). split; [rewrite <- app_assoc; reflexivity|].
      split; [cbn [length]; lia|]. split; [|split; [constructor; [|exact Hlater]|]].
      * cbn [map index]. constructor; [exact Hsorted|].
        apply Forall_fmap. eapply Forall_impl; [exact Hall|]. simpl. intros img (Hi & _). lia.
      * cbn [index]. split; [lia|]. exists parts, d. repeat split; assumption.
      * intros j Hj Hd. cbn [map index]. destruct (decide (j = i)) as [->|Hne]; [left|].
        right. apply Hcomp; [lia|exact Hd].
    + exists new. split; [reflexivity|]. split; [lia|]. split; [exact Hsorted|].
      split; [exact Hlater|]. intros j Hj (parts' & d & Hp & Hd).
      destruct (decide (j = i)) as [->|Hne]; [congruence|].
      apply Hcomp; [lia|eauto].
Qed.


(** X30: when every round delivers an inline image, the images returned
    are numbered by position: the indices are [0, 1, ..., count - 1]. *)
Theorem generate_all_rounds
    (api : Api) (defaultModel : jsstring) (model : option jsstring)
    (options : GenerateOptions) (res : GenerateResult) :
  generate api defaultModel model options = Ok res ->
  (forall req i, 0 <= i < o_count options ->
     exists parts d, api req i = Ok parts /\ first_inline parts = Some d) ->
  map index (images res) = seqZ 0 (o_count options).
Proof.
  unfold generate.
  match goal with |- context [rounds api ?q ?n 0 []] =>
    set (req := q); destruct (rounds api req n 0 []) as [[|img imgs]|] eqn:Er end;
    try discriminate.
  intros [= <-] Hall. cbn [images].
  assert (Hgen : forall n i acc out,
             rounds api req n i acc = Ok out ->
             (forall j, i <= j < i + Z.of_nat n ->
                exists parts d, api req j = Ok parts /\ first_inline parts = Some d) ->
             map index out = map index acc ++ seqZ i (Z.of_nat n)).
  { clear. induction n as [|n IH]; intros i acc out; cbn [rounds].
    - intros [= <-] _. rewrite app_nil_r. reflexivity.
    - intros Hr Hd. destruct (Hd i) as (parts & d & Hp & Hf); [lia|].
      rewrite Hp, Hf in Hr. apply IH in Hr; [|intros j Hj; apply Hd; lia].
      rewrite Hr, map_app. cbn [map index]. rewrite <- app_assoc. f_equal.
      rewrite Nat2Z.inj_succ. rewrite (seqZ_cons i) by lia. cbn [app]. f_equal.
      f_equal; lia. }
  apply Hgen in Er.
  - rewrite Er. cbn [map app].
    destruct (Z.le_gt_cases 0 (o_count options)); [rewrite Z2Nat.id by assumption; reflexivity|].
    rewrite Z2Nat.nonpos in Er by lia. discriminate Er.
  - intros j Hj. apply Hall.
    destruct (Z.le_gt_cases 0 (o_count options)); [rewrite Z2Nat.id in Hj by assumption; lia|].
    rewrite Z2Nat.nonpos in Hj by lia. simpl in Hj. lia.
Qed.

End GeminiFacts.

(* ------------------------------------------------------------------ *)
(** ** The properties above on the sample data *)

Module StoreRuns.
Import Ledger LedgerFacts StoreFacts ListingFacts Listing Examples Fixtures.

Lemma getGeneration_images_witness :
  exists g imgs,
    getGeneration ledger_Z (js "g1") = Some g
    /\ id g = js "g1"
    /\ images g = Some imgs
    /\ map index_num imgs = [0; 1].
Proof.
  destruct (getGeneration ledger_Z (js "g1")) as [g|] eqn:E; [|vm_compute in E; discriminate].
  destruct (getGeneration_images ledger_Z (js "g1") g E) as (Hid & _ & Himgs).
  destruct Himgs as (imgs & Hi & _ & _); [vm_compute; discriminate|].
  exists g, imgs. split; [reflexivity|]. split; [exact Hid|]. split; [exact Hi|].
  vm_compute in E. injection E as <-. injection Hi as <-. reflexivity.
Defined.

Lemma createGeneration_getGeneration_witness :
  exists g db' g',
    createGeneration ledger_Z new_generation (js "g5") iso_noon = (Ok g, db')
    /\ getGeneration db' (js "g5") = Some g'
    /\ cost g' = 42
    /\ (exists imgs, images g' = Some imgs
          /\ StronglySorted (fun a b => index_num a <= index_num b) imgs)
    /\ getGeneration db' (js "g1") = getGeneration ledger_Z (js "g1").
Proof.
  destruct (createGeneration_getGeneration ledger_Z new_generation (js "g5") iso_noon)
    as (g & db' & Hc & _ & _ & _ & (g' & Hg & _ & _ & _ & _ & _ & Hcost & _ & _ & Himgs) & Hother).
  - repeat constructor; discriminate.
  - repeat constructor; discriminate.
  - exists g, db', g'. split; [exact Hc|]. split; [exact Hg|]. split; [exact Hcost|].
    split; [|apply Hother; discriminate].
    destruct (images g') as [imgs|]; [|discriminate Himgs].
    exists imgs. split; [reflexivity|]. apply Himgs.
Defined.

Lemma createGeneration_getCosts_witness :
  exists g db',
    createGeneration ledger_Z new_generation (js "g5") iso_noon = (Ok g, db')
    /\ generation_count (getCosts db' (Some (js "2025-01-09T00:00:00.000Z"))) = 3
    /\ total (getCosts db' (Some (js "2025-01-09T00:00:00.000Z"))) = 181
    /\ getCosts db' (Some (js "2025-01-10T00:00:00.000Z"))
       = getCosts ledger_Z (Some (js "2025-01-10T00:00:00.000Z")).
Proof.
  destruct (createGeneration ledger_Z new_generation (js "g5") iso_noon)
    as [[g|e] db'] eqn:Hc; [|vm_compute in Hc; discriminate].
  exists g, db'. split; [reflexivity|].
  pose proof (createGeneration_getCosts ledger_Z db' new_generation (js "g5") iso_noon g
                (Some (js "2025-01-09T00:00:00.000Z")) Hc) as Hin.
  pose proof (createGeneration_getCosts ledger_Z db' new_generation (js "g5") iso_noon g
                (Some (js "2025-01-10T00:00:00.000Z")) Hc) as Hout.
  cbv beta iota in Hin, Hout.
  destruct (str_leb (js "2025-01-09T00:00:00.000Z") iso_noon) eqn:E1;
    [|vm_compute in E1; discriminate].
  destruct (str_leb (js "2025-01-10T00:00:00.000Z") iso_noon) eqn:E2;
    [vm_compute in E2; discriminate|].
  destruct Hin as [Hn Ht].
  split; [rewrite Hn; reflexivity|]. split; [rewrite Ht; reflexivity|exact Hout].
Defined.

Lemma listGenerations_getGeneration_witness :
  map id (listGenerations ledger_Z 3) = [js "g4"; js "g3"; js "g2"]
  /\ Forall (fun e => getGeneration ledger_Z (id e) = Some e) (listGenerations ledger_Z 3).
Proof.
  split; [vm_compute; reflexivity|].
  apply (listGenerations_getGeneration ledger_Z 3).
  apply (bool_decide_unpack _). vm_compute. exact I.
Defined.

End StoreRuns.

Module SelectionRuns.
Import Ledger Select SelectionFacts Sim Examples Fixtures.

Lemma selectImage_failure_changes_nothing_witness :
  result (selectImage (select_args "g1" 0 None) blob_store ledger empty_area noon iso_noon)
  = Throw (PreviewMissing (js "/tmp/previews/gen-1/0.png"))
  /\ db_after (selectImage (select_args "g1" 0 None) blob_store ledger empty_area
                 noon iso_noon) = ledger
  /\ fs_after (selectImage (select_args "g1" 0 None) blob_store ledger empty_area
                 noon iso_noon) = empty_area
  /\ delete_attempts (selectImage (select_args "g1" 0 None) blob_store ledger empty_area
                        noon iso_noon) = []
  /\ forall storage' : StorageProvider,
       result (selectImage (select_args "g1" 0 None) storage' ledger empty_area noon iso_noon)
       = Throw (PreviewMissing (js "/tmp/previews/gen-1/0.png")).
Proof.
  split; [vm_compute; reflexivity|].
  apply (selectImage_failure_changes_nothing (select_args "g1" 0 None) blob_store ledger
           empty_area noon iso_noon (PreviewMissing (js "/tmp/previews/gen-1/0.png"))).
  - vm_compute. reflexivity.
  - intros m. discriminate.
  - intros m. discriminate.
Defined.

Lemma selectImage_uploads_selected_preview_witness :
  exists r o u,
    result (selectImage (select_args "g3" 0 None) blob_store ledger (preview_area false)
              noon iso_noon) = Ok r
    /\ blob_store o = Ok u
    /\ readFileSync (preview_area false) (js "/tmp/previews/gen-3/1.png") = Ok (buffer o)
    /\ contentType o = js "image/png"
    /\ permanent_url r = publicUrl u.
Proof.
  destruct (result (selectImage (select_args "g3" 0 None) blob_store ledger
                      (preview_area false) noon iso_noon)) as [r|e] eqn:E;
    [|vm_compute in E; discriminate].
  destruct (selectImage_uploads_selected_preview _ _ _ _ _ _ _ E)
    as (g & imgs & sel & o & u & Hg & Hi & _ & Hsel & _ & Hr & Hu & _ & Hct & _ & Hp & _).
  exists r, o, u. split; [reflexivity|]. split; [exact Hu|].
  vm_compute in Hg. injection Hg as <-. injection Hi as <-. injection Hsel as <-.
  split; [exact Hr|]. split; [exact Hct|exact Hp].
Defined.

Lemma selectImage_records_selection_witness :
  exists r g,
    result scenario_select = Ok r
    /\ getGeneration (db_after scenario_select) (js "g5") = Some g
    /\ selected_index g = Some 1
    /\ public_url g = Some (permanent_url r).
Proof.
  destruct (result scenario_select) as [r|e] eqn:E; [|vm_compute in E; discriminate].
  destruct (selectImage_records_selection _ _ _ _ _ _ _ E) as ((g & _ & Hg) & _).
  exists r. eexists. split; [reflexivity|]. split; [exact Hg|]. split; reflexivity.
Defined.

End SelectionRuns.

Module GenerationRuns.
Import Ledger Generate GenerationFacts WorkflowFacts SimFacts Sim Examples Fixtures.

Lemma generateImages_failure_keeps_ledger_witness :
  result (generateImages generate_args failing_provider (config 25) ledger
            (preview_area false) draw)
  = Throw (ProviderError (js "quota exceeded"))
  /\ db_after (generateImages generate_args failing_provider (config 25) ledger
                 (preview_area false) draw) = ledger
  /\ fs_after (generateImages generate_args failing_provider (config 25) ledger
                 (preview_area false) draw) = preview_area false.
Proof.
  split; [vm_compute; reflexivity|].
  destruct (generateImages_failure_keeps_ledger generate_args failing_provider (config 25)
              ledger (preview_area false) draw (ProviderError (js "quota exceeded")))
    as (Hdb & _ & Hfs).
  - vm_compute. reflexivity.
  - intros m. discriminate.
  - split; [exact Hdb|exact Hfs].
Defined.

Lemma generateImages_stores_generation_witness :
  exists r g imgs,
    result scenario_generate = Ok r
    /\ getGeneration (db_after scenario_generate) (r_generation_id r) = Some g
    /\ Ledger.cost g = r_cost r
    /\ Ledger.images g = Some imgs
    /\ map (fun i => (index_num i, preview_url i, Ledger.width i, Ledger.height i)) imgs
       ≡ₚ map (fun p => (p_index p, p_preview_url p, Some (p_width p), Some (p_height p)))
            (r_images r).
Proof.
  destruct (result scenario_generate) as [r|e] eqn:E; [|vm_compute in E; discriminate].
  destruct (generateImages_stores_generation _ _ _ _ _ _ _ E)
    as (_ & (g & Hg & _ & Hc & _ & _ & _ & Hi) & _); [constructor|].
  destruct (Ledger.images g) as [imgs|] eqn:Ei.
  - exists r, g, imgs. split; [reflexivity|]. split; [exact Hg|]. split; [exact Hc|].
    split; [exact Ei|]. apply Hi.
  - vm_compute in E. injection E as <-. discriminate Hi.
Defined.

Lemma generateImages_budget_counts_new_cost_witness :
  exists r,
    result (generateImages generate_args (provider_of data_images 0.078%float) (config 0.25)
              ledger empty_area draw) = Ok r
    /\ generation_count (getCosts ledger (Some (js "2025-01-01T00:00:00.000Z"))) = 4
    /\ generation_count
         (getCosts (db_after (generateImages generate_args (provider_of data_images 0.078%float)
                                (config 0.25) ledger empty_area draw))
            (Some (js "2025-01-01T00:00:00.000Z"))) = 5
    /\ budget_warning r
       = budgetWarning
           (total
              (getCosts (db_after (generateImages generate_args
                                     (provider_of data_images 0.078%float)
                                     (config 0.25) ledger empty_area draw))
                 (Some (js "2025-01-01T00:00:00.000Z"))))
           0.25%float 0.8%float
    /\ is_Some (budget_warning r).
Proof.
  destruct (result (generateImages generate_args (provider_of data_images 0.078%float)
                      (config 0.25) ledger empty_area draw)) as [r|e] eqn:E;
    [|vm_compute in E; discriminate].
  destruct (generateImages_budget_counts_new_cost _ _ _ _ _ _ _ E) as [Hb Hs].
  revert Hs.
  destruct (Ledger.str_leb (month_start_iso draw) (created_iso draw)) eqn:El;
    [|vm_compute in El; discriminate].
  intros [Hn _].
  exists r. split; [reflexivity|]. split; [vm_compute; reflexivity|].
  change (js "2025-01-01T00:00:00.000Z") with (month_start_iso draw).
  split; [rewrite Hn; vm_compute; reflexivity|]. split; [exact Hb|].
  rewrite Hb. vm_compute. eauto.
Defined.

Lemma generate_then_select_witness :
  exists r r',
    result scenario_generate = Ok r
    /\ Select.result
         (Select.selectImage
            {| Select.arg_generation_id := r_generation_id r; Select.arg_index := 1;
               Select.arg_filename := None; Select.arg_cleanup_others := None |}
            blob_store (db_after scenario_generate) (fs_after scenario_generate)
            noon iso_noon)
       = Ok r'.
Proof.
  destruct (result scenario_generate) as [r|e] eqn:E; [|vm_compute in E; discriminate].
  destruct (generate_then_select memfs_write_same memfs_write_other
              generate_args (provider_of data_images 0.078%float) (config 25)
              Ledger.empty_db empty_area draw r blob_store 1 None None noon iso_noon)
    as [r' Hr'].
  - exact E.
  - constructor.
  - vm_compute in E. injection E as <-. vm_compute. split; [discriminate|reflexivity].
  - intros o. eexists. reflexivity.
  - exists r, r'. split; [reflexivity|exact Hr'].
Defined.

Lemma select_again_finds_no_preview_witness :
  exists img,
    Select.result
      (Select.selectImage (select_args "g5" 0 None) blob_store
         (Select.db_after scenario_select) (Select.fs_after scenario_select) noon iso_noon)
    = Throw (PreviewMissing (preview_url img))
    /\ preview_url img = js "/tmp/previews/gen-1736424000000-k3x9qa/0.png".
Proof.
  pose proof (fun r g imgs =>
                select_again_finds_no_preview
                  memfs_unlink_gone memfs_unlink_creates_nothing memfs_rmdir_creates_nothing
                  (select_args "g5" 1 None) blob_store
                  (db_after scenario_generate) (fs_after scenario_generate)
                  noon iso_noon r g imgs (select_args "g5" 0 None) blob_store noon iso_noon)
    as Hagain.
  edestruct Hagain as (img & Himg & Hr).
  - vm_compute. reflexivity.
  - vm_compute. reflexivity.
  - vm_compute. reflexivity.
  - vm_compute. reflexivity.
  - reflexivity.
  - vm_compute. split; [discriminate|reflexivity].
  - exists img. split; [exact Hr|]. vm_compute in Himg. injection Himg as <-. reflexivity.
Defined.

End GenerationRuns.

Module SweepRuns.
Import Sweeper SweepFacts Sim Examples.

Lemma find_candidates_characterised_witness :
  exists found entries,
    find_candidates (preview_area false) (js "/tmp/previews") (noon - 7 * day) noon = Ok found
    /\ readdirSync (preview_area false) (js "/tmp/previews") = Ok entries
    /\ map path found = [js "/tmp/previews/gen-1"; js "/tmp/previews/gen-2"]
    /\ forall c,
         c ∈ found <->
         exists entry st,
           entry ∈ entries /\ startsWith entry (js "gen-") = true
           /\ statSync (preview_area false) (join (js "/tmp/previews") entry) = Ok st
           /\ isDirectory st = true /\ mtimeMs st < noon - 7 * day
           /\ c = {| path := join (js "/tmp/previews") entry;
                     ageDays := (noon - mtimeMs st) / ms_per_day |}.
Proof.
  destruct (find_candidates (preview_area false) (js "/tmp/previews") (noon - 7 * day) noon)
    as [found|e] eqn:E; [|vm_compute in E; discriminate].
  destruct (find_candidates_characterised _ _ _ _ _ E) as (entries & He & Hc).
  exists found, entries. split; [reflexivity|]. split; [exact He|].
  split; [|exact Hc]. vm_compute in E. injection E as <-. reflexivity.
Defined.

Lemma dry_run_predicts_real_run_witness :
  exists k errs,
    (sweep (Some true)).1
    = DryRun 2 (js "2025-01-02T12:00:00.000Z") 7
        [{| path := js "/tmp/previews/gen-1"; ageDays := 30 |};
         {| path := js "/tmp/previews/gen-2"; ageDays := 10 |}] None
    /\ (sweep None).1 = Deleted k (js "2025-01-02T12:00:00.000Z") 7 errs
    /\ 0 <= k
    /\ k + Z.of_nat (length (default [] errs)) = 2.
Proof.
  destruct (dry_run_predicts_real_run None (config 25) (preview_area false) noon
              2 (js "2025-01-02T12:00:00.000Z") 7
              [{| path := js "/tmp/previews/gen-1"; ageDays := 30 |};
               {| path := js "/tmp/previews/gen-2"; ageDays := 10 |}] None None)
    as (k & errs & Hr & Hk & Hsum).
  - vm_compute. reflexivity.
  - discriminate.
  - exists k, errs. split; [vm_compute; reflexivity|]. split; [exact Hr|]. split; assumption.
Defined.

End SweepRuns.

Module GeminiRuns.
Import Generate Gemini GeminiFacts Fixtures.


Lemma generate_all_rounds_witness :
  exists res,
    generate steady_api (js "gemini-2.5-flash-image") None three_images = Ok res
    /\ map index (images res) = [0; 1; 2].
Proof.
  destruct (generate steady_api (js "gemini-2.5-flash-image") None three_images)
    as [res|e] eqn:E; [|vm_compute in E; discriminate].
  exists res. split; [reflexivity|].
  apply (generate_all_rounds _ _ _ _ _ E).
  intros req i _. exists [picture], {| i_data := Some (js "iVBORw0KGgo="); i_mimeType := None |}.
  split; reflexivity.
Defined.

End GeminiRuns.

Module CostsRuns.
Import Costs CostsFacts Sim Examples Fixtures.

(** The report of January 2025 at noon of the 9th, under a limit of a
    quarter dollar, and the report of the day. *)
Lemma getCosts_report_sample :
  total (getCosts {| arg_period := None |} (config 0.25) ledger noon) = 0.223%float
  /\ generation_count (getCosts {| arg_period := None |} (config 0.25) ledger noon) = 4
  /\ budget_remaining (getCosts {| arg_period := None |} (config 0.25) ledger noon)
     = Some (0.25 - 0.223)%float
  /\ budget_percent (getCosts {| arg_period := None |} (config 0.25) ledger noon)
     = Some (js "89.2")
  /\ budget_remaining (getCosts {| arg_period := None |} (config 0.1) ledger noon)
     = Some 0%float
  /\ generation_count
       (getCosts {| arg_period := Some (js "day") |} (config 0.25) ledger noon) = 2
  /\ budget_remaining
       (getCosts {| arg_period := Some (js "day") |} (config 0.25) ledger noon) = None.
Proof. vm_compute. repeat split. Qed.

End CostsRuns.
